(** * pi-provider-kiro: the streaming core, embedded and verified

    A shallow embedding of the streaming pipeline of the Kiro provider:
    the frame scanner and event classifier ([src/event-parser.ts]), the
    retry decision engine ([src/retry.ts]), the thinking segmenter
    ([src/thinking-parser.ts]), the bracket fallback extractor
    ([src/bracket-tool-parser.ts]) and the attempt loop of the stream
    orchestrator ([src/stream.ts]).

    Conventions.
    - A JavaScript string is a [string]: a sequence of code units.  Every
      code unit the code inspects is ASCII; the white space class is the
      ECMAScript one restricted to code units below 256.
    - An index is a [nat]; the sentinel [-1] of [indexOf] and of
      [findJsonEnd] is [None].
    - [undefined] is [None]; a parsed JSON value is a [json].
    - What the platform provides ([JSON.parse], [JSON.stringify],
      [crypto.randomUUID], the token counter) is a field of the class
      [Host]; nothing is assumed about it. *)

From Stdlib Require Import String Ascii List ZArith Lia Bool Arith.
Import ListNotations.

Set Warnings "-register-all".
Local Open Scope string_scope.

(* ================================================================== *)
(** * JavaScript strings *)
(* ================================================================== *)

Module Js.

(** The double quote and the backslash, the line feed. *)
Definition dquote : ascii := "034"%char.
Definition backslash : ascii := "092"%char.
Definition lbrace : ascii := "123"%char.
Definition rbrace : ascii := "125"%char.
Definition newline : ascii := "010"%char.

Definition quote : string := String dquote EmptyString.

(** [s] between double quotes. *)
Definition quoted (s : string) : string := String dquote (s ++ quote).

(** [s.slice(0, n)] and [s.slice(n)] for a non-negative [n]. *)
Fixpoint take (n : nat) (s : string) : string :=
  match n, s with
  | S n', String c s' => String c (take n' s')
  | _, _ => EmptyString
  end.

Fixpoint drop (n : nat) (s : string) : string :=
  match n, s with
  | S n', String _ s' => drop n' s'
  | _, _ => s
  end.

(** [s.substring(a, b)]: the arguments are swapped when [a > b], and
    clamped to the length. *)
Definition substring (s : string) (a b : nat) : string :=
  take (Nat.max a b - Nat.min a b) (drop (Nat.min a b) s).

(** [p] is a prefix of [s]. *)
Fixpoint is_prefix (p s : string) : bool :=
  match p, s with
  | EmptyString, _ => true
  | String a p', String b s' => Ascii.eqb a b && is_prefix p' s'
  | String _ _, EmptyString => false
  end.

(** [s.startsWith(p)]. *)
Definition startsWith (s p : string) : bool := is_prefix p s.

(** The scan of [s.indexOf(p, from)]: [s] is what is left of the
    string from offset [off] on. *)
Fixpoint find_from (p s : string) (off : nat) {struct s} : option nat :=
  if is_prefix p s then Some off
  else match s with
       | EmptyString => None
       | String _ s' => find_from p s' (S off)
       end.

(** [s.indexOf(p, from)]; a start beyond the end is the end. *)
Definition indexOf (s p : string) (from : nat) : option nat :=
  let k := Nat.min from (String.length s) in
  find_from p (drop k s) k.

(** [s.includes(p)]. *)
Definition includes (s p : string) : bool :=
  match indexOf s p 0 with Some _ => true | None => false end.

(** White space and line terminators of ECMAScript (what [trim] strips
    and the class [\s] matches), among the code units below 256. *)
Definition is_space (c : ascii) : bool :=
  let n := nat_of_ascii c in
  ((n =? 9) || (n =? 10) || (n =? 11) || (n =? 12) || (n =? 13)
   || (n =? 32) || (n =? 160))%nat.

(** The class [[\w-]]: letters, digits, underscore, hyphen. *)
Definition is_word_or_dash (c : ascii) : bool :=
  let n := nat_of_ascii c in
  (((65 <=? n) && (n <=? 90)) || ((97 <=? n) && (n <=? 122))
   || ((48 <=? n) && (n <=? 57)) || (n =? 95) || (n =? 45))%nat.

Fixpoint trimStart (s : string) : string :=
  match s with
  | String c s' => if is_space c then trimStart s' else s
  | EmptyString => EmptyString
  end.

(** [trimEnd], by structural recursion: a character is kept when it is
    not a space or something is kept after it. *)
Fixpoint trimEnd (s : string) : string :=
  match s with
  | EmptyString => EmptyString
  | String c s' =>
      match trimEnd s' with
      | EmptyString => if is_space c then EmptyString else String c EmptyString
      | r => String c r
      end
  end.

Definition trim (s : string) : string := trimEnd (trimStart s).

Definition is_empty (s : string) : bool :=
  match s with EmptyString => true | _ => false end.

(** The pattern occurs in [s] at offset [i]. *)
Definition occurs_at (p s : string) (i : nat) : Prop :=
  is_prefix p (drop i s) = true.

End Js.

(* ================================================================== *)
(** * JSON values, as [JSON.parse] returns them *)
(* ================================================================== *)

Module Json.

(** A number is kept as its canonical decimal rendering, the text that
    [String(n)] yields: the code only tests numbers for truthiness,
    compares them with [===] and concatenates them to strings. *)
Inductive json : Type :=
| JNull
| JBool (b : bool)
| JNum (repr : string)
| JStr (s : string)
| JArr (items : list json)
| JObj (fields : list (string * json)).

(** An object: its own properties, in insertion order. *)
Definition object : Type := list (string * json).

(** [o.k]; [None] is [undefined]. *)
Fixpoint prop (o : object) (k : string) : option json :=
  match o with
  | [] => None
  | (k', v) :: o' => if String.eqb k' k then Some v else prop o' k
  end.

(** ToBoolean of a JSON value. *)
Definition truthy (v : json) : bool :=
  match v with
  | JNull => false
  | JBool b => b
  | JNum r => negb (String.eqb r "0")
  | JStr s => negb (Js.is_empty s)
  | JArr _ | JObj _ => true
  end.

(** ToBoolean of a property read: [undefined] is falsy. *)
Definition truthy_opt (v : option json) : bool :=
  match v with Some v => truthy v | None => false end.

(** [a === b] for two values that come from different [JSON.parse]
    results (or a string literal): primitives compare by value, objects
    and arrays by reference, hence never equal here. *)
Definition strict_eq (a b : json) : bool :=
  match a, b with
  | JNull, JNull => true
  | JBool x, JBool y => Bool.eqb x y
  | JNum x, JNum y => String.eqb x y
  | JStr x, JStr y => String.eqb x y
  | _, _ => false
  end.

(** [items.join(",")], given the rendering of each item. *)
Fixpoint join_comma (l : list string) : string :=
  match l with
  | [] => EmptyString
  | [x] => x
  | x :: l' => x ++ "," ++ join_comma l'
  end.

(** ToString, what [s += v] appends: [null] inside an array renders as
    the empty string, an object as [[object Object]].  An object with a
    [toString] or [valueOf] field of its own renders otherwise, or
    throws; the payload of a content event is declared a string
    ([data: string]), on which the rendering is the identity. *)
Fixpoint toString (v : json) : string :=
  match v with
  | JNull => "null"
  | JBool true => "true"
  | JBool false => "false"
  | JNum r => r
  | JStr s => s
  | JArr items =>
      join_comma
        (map (fun x => match x with JNull => EmptyString | _ => toString x end)
             items)
  | JObj _ => "[object Object]"
  end.

End Json.

Export Json.

(** What the platform provides. *)
Class Host : Type := {
  JSON_parse : string -> option json;      (* [None]: a SyntaxError *)
  JSON_stringify : json -> string;
  randomUUID : nat -> string;              (* the n-th identifier drawn *)
  encode_length : string -> Z              (* the tokenizer: [encode(text).length] *)
}.

(** A call either returns or throws. *)
Inductive outcome (A : Type) : Type :=
| Returns (a : A)
| Throws.
Arguments Returns {A} a.
Arguments Throws {A}.

(* ================================================================== *)
(** * [src/event-parser.ts]: frame scanner and event classifier *)
(* ================================================================== *)

Module EventParser.

(** The tagged union [KiroStreamEvent].  A payload that the source
    obtains by a cast ([parsed.content as string]) is the JSON value
    itself: the cast checks nothing at run time.  The [input] of a tool
    event is a string the classifier computes. *)
Inductive KiroStreamEvent : Type :=
| content (data : json)
| toolUse (name toolUseId : json) (input : string) (stop : option json)
| toolUseInput (input : string)
| toolUseStop (stop : json)
| contextUsage (contextUsagePercentage : json)
| followupPrompt (data : json)
| usage (inputTokens outputTokens : option json).

(** The body of the [for] loop of [findJsonEnd], from index [i] on;
    [rest] is [text] from [i]. *)
Fixpoint findJsonEnd_loop (rest : string) (i : nat) (braceCount : Z)
         (inString escapeNext : bool) {struct rest} : option nat :=
  match rest with
  | EmptyString => None
  | String char rest' =>
      if escapeNext then
        findJsonEnd_loop rest' (S i) braceCount inString false
      else if Ascii.eqb char Js.backslash then
        findJsonEnd_loop rest' (S i) braceCount inString true
      else if Ascii.eqb char Js.dquote then
        findJsonEnd_loop rest' (S i) braceCount (negb inString) false
      else if negb inString then
        if Ascii.eqb char Js.lbrace then
          findJsonEnd_loop rest' (S i) (braceCount + 1) inString false
        else if Ascii.eqb char Js.rbrace then
          if (braceCount - 1 =? 0)%Z then Some i
          else findJsonEnd_loop rest' (S i) (braceCount - 1) inString false
        else findJsonEnd_loop rest' (S i) braceCount inString false
      else findJsonEnd_loop rest' (S i) braceCount inString false
  end.

Definition findJsonEnd (text : string) (start : nat) : option nat :=
  findJsonEnd_loop (Js.drop start text) start 0%Z false false.

(** [u.k] for [u = parsed.usage]: reading a property of [null] throws,
    a primitive or an array has no such property. *)
Definition member (u : json) (k : string) : outcome (option json) :=
  match u with
  | JNull => Throws
  | JObj o => Returns (prop o k)
  | _ => Returns None
  end.

(** A property value when it is truthy. *)
Definition if_truthy (v : option json) : option json :=
  match v with
  | Some x => if truthy x then Some x else None
  | None => None
  end.

(** Known JSON key patterns that start Kiro event objects. *)
Definition key_pattern (key : string) : string :=
  "{" ++ Js.quote ++ key ++ Js.quote ++ ":".

Definition EVENT_PATTERNS : list string :=
  map key_pattern
      ["content"; "name"; "input"; "stop"; "contextUsagePercentage";
       "followupPrompt"; "usage"; "toolUseId"; "unit"].

Definition findNextEventStart (buffer : string) (from : nat) : option nat :=
  fold_left
    (fun earliest pattern =>
       match Js.indexOf buffer pattern from with
       | Some idx =>
           match earliest with
           | None => Some idx
           | Some e => if (idx <? e)%nat then Some idx else earliest
           end
       | None => earliest
       end)
    EVENT_PATTERNS None.

Section WithHost.
Context {host : Host}.

(** The [input] of a [toolUse] event: a string as it is, a non-empty
    object (or array) serialized, anything else the empty string. *)
Definition toolUse_input (input : option json) : string :=
  match input with
  | Some (JStr s) => s
  | Some (JObj (_ :: _) as v) => JSON_stringify v
  | Some (JArr (_ :: _) as v) => JSON_stringify v
  | _ => EmptyString
  end.

Definition parseKiroEvent (parsed : object)
  : outcome (option KiroStreamEvent) :=
  match prop parsed "content" with
  | Some c => Returns (Some (content c))
  | None =>
  match if_truthy (prop parsed "name"),
        if_truthy (prop parsed "toolUseId") with
  | Some name, Some toolUseId =>
      Returns (Some (toolUse name toolUseId
                             (toolUse_input (prop parsed "input"))
                             (prop parsed "stop")))
  | _, _ =>
  match prop parsed "input", if_truthy (prop parsed "name") with
  | Some i, None =>
      Returns (Some (toolUseInput
                       match i with
                       | JStr s => s
                       | _ => JSON_stringify i
                       end))
  | _, _ =>
  match prop parsed "stop", prop parsed "contextUsagePercentage" with
  | Some s, None => Returns (Some (toolUseStop s))
  | _, _ =>
  match prop parsed "contextUsagePercentage" with
  | Some p => Returns (Some (contextUsage p))
  | None =>
  match prop parsed "followupPrompt" with
  | Some f => Returns (Some (followupPrompt f))
  | None =>
  match prop parsed "usage" with
  | Some u =>
      match member u "inputTokens", member u "outputTokens" with
      | Returns i, Returns o => Returns (Some (usage i o))
      | _, _ => Throws
      end
  | None => Returns None
  end end end end end end end.

(** [parseKiroEvent(JSON.parse(fragment))] inside the [try] of the
    scanner: the event to push, if any.  A fragment starts with a
    brace, so what [JSON.parse] returns for it is an object; on any
    other value every property read is [undefined] (or throws, on
    [null]) and nothing is pushed. *)
Definition eventOfFragment (fragment : string) : option KiroStreamEvent :=
  match JSON_parse fragment with
  | Some (JObj parsed) =>
      match parseKiroEvent parsed with
      | Returns (Some event) => Some event
      | _ => None
      end
  | _ => None
  end.

Definition push_event (events : list KiroStreamEvent)
           (event : option KiroStreamEvent) : list KiroStreamEvent :=
  match event with
  | Some e => (events ++ [e])%list
  | None => events
  end.

(** The [while] loop of [parseKiroEvents]; every iteration moves [pos]
    forward, so [fuel] above the length of the buffer is never used
    up ([parseKiroEvents_loop_fuel]). *)
Fixpoint parseKiroEvents_loop (fuel : nat) (buffer : string) (pos : nat)
         (events : list KiroStreamEvent)
  : list KiroStreamEvent * string :=
  match fuel with
  | O => (events, EmptyString)
  | S fuel' =>
      if (pos <? String.length buffer)%nat then
        match findNextEventStart buffer pos with
        | None => (events, EmptyString)
        | Some jsonStart =>
            match findJsonEnd buffer jsonStart with
            | None => (events, Js.drop jsonStart buffer)
            | Some jsonEnd =>
                parseKiroEvents_loop fuel' buffer (jsonEnd + 1)
                  (push_event events
                     (eventOfFragment
                        (Js.substring buffer jsonStart (jsonEnd + 1))))
            end
        end
      else (events, EmptyString)
  end.

(** [parseKiroEvents(buffer)]: the events and the remaining text. *)
Definition parseKiroEvents (buffer : string)
  : list KiroStreamEvent * string :=
  parseKiroEvents_loop (S (String.length buffer)) buffer 0 [].

End WithHost.
End EventParser.

(* ================================================================== *)
(** * [src/retry.ts]: the retry decision engine *)
(* ================================================================== *)

Module Retry.

Inductive Strategy : Type := reduce | backoff | none.

Record RetryDecision : Type := {
  shouldRetry : bool;
  delayMs : Z;
  strategy : Strategy
}.

(** [Math.min(baseMs * 2 ** attempt, maxMs)], for an attempt index and
    integers.  The numbers of the source are doubles: with a positive
    base the product is exact or overflows to [Infinity], which is
    above every cap, so that the minimum is the one taken here; with
    the base 0 the product is not a number once [2 ** attempt] has
    overflowed.  [decideRetry] passes the bases 1000 and 500. *)
Definition exponentialBackoff (attempt : nat) (baseMs maxMs : Z) : Z :=
  Z.min (baseMs * 2 ^ Z.of_nat attempt) maxMs.

Definition TOO_BIG_PATTERNS : list string :=
  ["CONTENT_LENGTH_EXCEEDS_THRESHOLD"; "Input is too long";
   "Improperly formed"].

Definition decideRetry (status : Z) (errorText : string)
           (attempt maxRetries : nat) : RetryDecision :=
  if (maxRetries <=? attempt)%nat then
    {| shouldRetry := false; delayMs := 0; strategy := none |}
  else if (status =? 413)%Z
          || ((status =? 400)%Z
              && existsb (fun p => Js.includes errorText p) TOO_BIG_PATTERNS)
  then {| shouldRetry := true; delayMs := 0; strategy := reduce |}
  else if (status =? 429)%Z then
    {| shouldRetry := true;
       delayMs := exponentialBackoff attempt 1000 30000;
       strategy := backoff |}
  else if (500 <=? status)%Z && (status <? 600)%Z then
    {| shouldRetry := true;
       delayMs := exponentialBackoff attempt 1000 30000;
       strategy := backoff |}
  else if (status =? 403)%Z then
    {| shouldRetry := true;
       delayMs := exponentialBackoff attempt 500 30000;
       strategy := backoff |}
  else {| shouldRetry := false; delayMs := 0; strategy := none |}.

End Retry.

(* ================================================================== *)
(** * The output message and the event stream *)
(* ================================================================== *)

Module Output.

(** A content block of the assistant message. *)
Inductive ContentBlock : Type :=
| TextContent (text : string)
| ThinkingContent (thinking : string)
| ToolCall (id name : json) (arguments : json).

Inductive StopReason : Type :=
| reason_stop | reason_toolUse | reason_length | reason_aborted
| reason_error.

(** What makes the orchestrator throw. *)
Inductive Failure : Type :=
| NoCredentials
| ApiError (status : Z) (statusText errText : string)
| NoResponseBody
| FirstTokenTimeout
| IdleTimeout
| Rejected                (* [fetch] or [reader.read()] rejects *)
| RequestFailed.          (* building the request throws *)

(** An event pushed on the stream.  The [partial] and [message] fields
    of the source are references to the one output message, which the
    model keeps beside the stream; the delta of a text event in the
    path without segmenter is the payload of the content event. *)
Inductive AssistantMessageEvent : Type :=
| start
| text_start (contentIndex : nat)
| text_delta (contentIndex : nat) (delta : json)
| text_end (contentIndex : nat) (content : string)
| thinking_start (contentIndex : nat)
| thinking_delta (contentIndex : nat) (delta : string)
| thinking_end (contentIndex : nat) (content : string)
| toolcall_start (contentIndex : nat)
| toolcall_delta (contentIndex : nat) (delta : string)
| toolcall_end (contentIndex : nat) (toolCall : ContentBlock)
| done (reason : StopReason)
| error (reason : StopReason) (errorMessage : Failure).

(** The two objects every component shares: [output.content] and the
    queue of the stream. *)
Record Shared : Type := {
  output_content : list ContentBlock;
  stream_events : list AssistantMessageEvent
}.

(** The shared objects when [streamKiro] starts. *)
Definition emptyShared : Shared :=
  {| output_content := []; stream_events := [] |}.

Definition push (e : AssistantMessageEvent) (sh : Shared) : Shared :=
  {| output_content := sh.(output_content);
     stream_events := (sh.(stream_events) ++ [e])%list |}.

Definition push_content (b : ContentBlock) (sh : Shared) : Shared :=
  {| output_content := (sh.(output_content) ++ [b])%list;
     stream_events := sh.(stream_events) |}.

(** [l[i] = f(l[i])]. *)
Fixpoint update_at (i : nat) (f : ContentBlock -> ContentBlock)
         (l : list ContentBlock) : list ContentBlock :=
  match l, i with
  | [], _ => []
  | b :: l', O => f b :: l'
  | b :: l', S i' => b :: update_at i' f l'
  end.

(** [(output.content[i] as TextContent).text += s]; the index is that
    of a text block the caller has pushed. *)
Definition append_text (i : nat) (s : string) (sh : Shared) : Shared :=
  {| output_content :=
       update_at i (fun b => match b with
                             | TextContent t => TextContent (t ++ s)
                             | other => other
                             end) sh.(output_content);
     stream_events := sh.(stream_events) |}.

Definition append_thinking (i : nat) (s : string) (sh : Shared) : Shared :=
  {| output_content :=
       update_at i (fun b => match b with
                             | ThinkingContent t => ThinkingContent (t ++ s)
                             | other => other
                             end) sh.(output_content);
     stream_events := sh.(stream_events) |}.

(** [(output.content[i] as TextContent).text]. *)
Definition text_of (i : nat) (sh : Shared) : string :=
  match nth_error sh.(output_content) i with
  | Some (TextContent t) => t
  | _ => EmptyString
  end.

Definition thinking_of (i : nat) (sh : Shared) : string :=
  match nth_error sh.(output_content) i with
  | Some (ThinkingContent t) => t
  | _ => EmptyString
  end.

Definition set_text (i : nat) (s : string) (sh : Shared) : Shared :=
  {| output_content :=
       update_at i (fun b => match b with
                             | TextContent _ => TextContent s
                             | other => other
                             end) sh.(output_content);
     stream_events := sh.(stream_events) |}.

End Output.

(* ================================================================== *)
(** * [src/thinking-parser.ts]: the thinking segmenter *)
(* ================================================================== *)

Module ThinkingParser.
Import Output.

Definition THINKING_START_TAG : string := "<thinking>".
Definition THINKING_END_TAG : string := "</thinking>".

Record Variant : Type := { open : string; close : string }.

Definition THINKING_TAG_VARIANTS : list Variant :=
  [ {| open := "<thinking>"; close := "</thinking>" |};
    {| open := "<think>"; close := "</think>" |};
    {| open := "<reasoning>"; close := "</reasoning>" |};
    {| open := "<thought>"; close := "</thought>" |} ].

(** [Math.max(...lengths)]; the list is not empty. *)
Definition max_of (l : list nat) : nat := fold_right Nat.max 0 l.

Definition MAX_OPEN_TAG_LEN : nat :=
  max_of (map (fun v => String.length v.(open)) THINKING_TAG_VARIANTS).
Definition MAX_CLOSE_TAG_LEN : nat :=
  max_of (map (fun v => String.length v.(close)) THINKING_TAG_VARIANTS).

(** The fields of a [ThinkingTagParser]; [output] and [stream] are the
    shared objects, passed beside it. *)
Record ThinkingTagParser : Type := {
  textBuffer : string;
  inThinking : bool;
  thinkingExtracted : bool;
  thinkingBlockIndex : option nat;
  textBlockIndex : option nat;
  activeEndTag : string
}.

Definition new : ThinkingTagParser :=
  {| textBuffer := EmptyString;
     inThinking := false;
     thinkingExtracted := false;
     thinkingBlockIndex := None;
     textBlockIndex := None;
     activeEndTag := THINKING_END_TAG |}.

(** The parser together with the objects it writes to. *)
Definition state : Type := (Shared * ThinkingTagParser)%type.

Definition set_textBuffer (b : string) (p : ThinkingTagParser) :=
  {| textBuffer := b;
     inThinking := p.(inThinking);
     thinkingExtracted := p.(thinkingExtracted);
     thinkingBlockIndex := p.(thinkingBlockIndex);
     textBlockIndex := p.(textBlockIndex);
     activeEndTag := p.(activeEndTag) |}.

Definition emitText (text : string) (st : state) : state :=
  let '(sh, p) := st in
  let '(sh, p, idx) :=
    match p.(textBlockIndex) with
    | Some idx => (sh, p, idx)
    | None =>
        let idx := List.length sh.(output_content) in
        (push (text_start idx) (push_content (TextContent EmptyString) sh),
         {| textBuffer := p.(textBuffer);
            inThinking := p.(inThinking);
            thinkingExtracted := p.(thinkingExtracted);
            thinkingBlockIndex := p.(thinkingBlockIndex);
            textBlockIndex := Some idx;
            activeEndTag := p.(activeEndTag) |},
         idx)
    end in
  (push (text_delta idx (JStr text)) (append_text idx text sh), p).

Definition emitThinking (thinking : string) (st : state) : state :=
  let '(sh, p) := st in
  let '(sh, p, idx) :=
    match p.(thinkingBlockIndex) with
    | Some idx => (sh, p, idx)
    | None =>
        let idx := List.length sh.(output_content) in
        (push (thinking_start idx)
              (push_content (ThinkingContent EmptyString) sh),
         {| textBuffer := p.(textBuffer);
            inThinking := p.(inThinking);
            thinkingExtracted := p.(thinkingExtracted);
            thinkingBlockIndex := Some idx;
            textBlockIndex := p.(textBlockIndex);
            activeEndTag := p.(activeEndTag) |},
         idx)
    end in
  (push (thinking_delta idx thinking) (append_thinking idx thinking sh), p).

(** The loop over the variants of [processBeforeThinking]: the earliest
    match, the first variant winning a tie. *)
Definition bestMatch (buffer : string) : option (nat * Variant) :=
  fold_left
    (fun best variant =>
       match Js.indexOf buffer variant.(open) 0 with
       | Some pos =>
           match best with
           | None => Some (pos, variant)
           | Some (bestPos, _) =>
               if (pos <? bestPos)%nat then Some (pos, variant) else best
           end
       | None => best
       end)
    THINKING_TAG_VARIANTS None.

Definition processBeforeThinking (st : state) : state :=
  let '(sh, p) := st in
  match bestMatch p.(textBuffer) with
  | Some (bestPos, bestVariant) =>
      let '(sh, p) :=
        if (0 <? bestPos)%nat
        then emitText (Js.take bestPos p.(textBuffer)) (sh, p)
        else (sh, p) in
      (sh,
       {| textBuffer :=
            Js.drop (bestPos + String.length bestVariant.(open))
                    p.(textBuffer);
          inThinking := true;
          thinkingExtracted := p.(thinkingExtracted);
          thinkingBlockIndex := p.(thinkingBlockIndex);
          textBlockIndex := p.(textBlockIndex);
          activeEndTag := bestVariant.(close) |})
  | None =>
      let safeLen := String.length p.(textBuffer) - MAX_OPEN_TAG_LEN in
      if (0 <? safeLen)%nat then
        let '(sh, p') := emitText (Js.take safeLen p.(textBuffer)) (sh, p) in
        (sh, set_textBuffer (Js.drop safeLen p.(textBuffer)) p')
      else (sh, p)
  end.

Definition processInsideThinking (st : state) : state :=
  let '(sh, p) := st in
  match Js.indexOf p.(textBuffer) p.(activeEndTag) 0 with
  | Some endPos =>
      let '(sh, p) :=
        if (0 <? endPos)%nat
        then emitThinking (Js.take endPos p.(textBuffer)) (sh, p)
        else (sh, p) in
      let sh :=
        match p.(thinkingBlockIndex) with
        | Some idx => push (thinking_end idx (thinking_of idx sh)) sh
        | None => sh
        end in
      let rest :=
        Js.drop (endPos + String.length p.(activeEndTag)) p.(textBuffer) in
      (sh,
       {| textBuffer :=
            if Js.startsWith rest (String Js.newline (String Js.newline EmptyString))
            then Js.drop 2 rest else rest;
          inThinking := false;
          thinkingExtracted := true;
          thinkingBlockIndex := p.(thinkingBlockIndex);
          textBlockIndex := p.(textBlockIndex);
          activeEndTag := p.(activeEndTag) |})
  | None =>
      let safeLen := String.length p.(textBuffer) - MAX_CLOSE_TAG_LEN in
      if (0 <? safeLen)%nat then
        let '(sh, p') :=
          emitThinking (Js.take safeLen p.(textBuffer)) (sh, p) in
        (sh, set_textBuffer (Js.drop safeLen p.(textBuffer)) p')
      else (sh, p)
  end.

Definition processAfterThinking (st : state) : state :=
  let '(sh, p) := emitText (snd st).(textBuffer) st in
  (sh, set_textBuffer EmptyString p).

Definition buffer_empty (st : state) : bool :=
  Js.is_empty (snd st).(textBuffer).

(** The [while] loop of [processChunk].  An iteration that does not
    leave the loop shortens the buffer, so [fuel] above its length is
    never used up ([processChunk_loop_fuel]). *)
Fixpoint processChunk_loop (fuel : nat) (st : state) : state :=
  match fuel with
  | O => st
  | S fuel' =>
      if buffer_empty st then st
      else
        let prevLength := String.length (snd st).(textBuffer) in
        let before :=
          negb (snd st).(inThinking) && negb (snd st).(thinkingExtracted) in
        let st1 := if before then processBeforeThinking st else st in
        if before && buffer_empty st1 then st1
        else
          let inside := (snd st1).(inThinking) in
          let st2 := if inside then processInsideThinking st1 else st1 in
          if inside && buffer_empty st2 then st2
          else if (snd st2).(thinkingExtracted) then processAfterThinking st2
          else if (prevLength <=? String.length (snd st2).(textBuffer))%nat
               then st2
               else processChunk_loop fuel' st2
  end.

Definition processChunk (chunk : string) (st : state) : state :=
  let '(sh, p) := st in
  let p := set_textBuffer (p.(textBuffer) ++ chunk) p in
  processChunk_loop (S (String.length p.(textBuffer))) (sh, p).

Definition finalize (st : state) : state :=
  let '(sh, p) := st in
  if Js.is_empty p.(textBuffer) then st
  else
    let '(sh, p) :=
      match p.(inThinking), p.(thinkingBlockIndex) with
      | true, Some idx =>
          let sh := append_thinking idx p.(textBuffer) sh in
          let sh := push (thinking_delta idx p.(textBuffer)) sh in
          (push (thinking_end idx (thinking_of idx sh)) sh, p)
      | _, _ => emitText p.(textBuffer) (sh, p)
      end in
    (sh, set_textBuffer EmptyString p).

Definition getTextBlockIndex (st : state) : option nat :=
  (snd st).(textBlockIndex).

End ThinkingParser.

(* ================================================================== *)
(** * [src/bracket-tool-parser.ts]: the bracket fallback extractor *)
(* ================================================================== *)

Module BracketToolParser.
Import EventParser.

Record BracketToolCall : Type := {
  toolUseId : string;
  name : string;
  arguments : json
}.

Record BracketParseResult : Type := {
  toolCalls : list BracketToolCall;
  cleanedText : string
}.

(** [s] without the literal [lit] in front of it. *)
Fixpoint strip_literal (lit s : string) : option string :=
  match lit with
  | EmptyString => Some s
  | String a lit' =>
      match s with
      | String b s' => if Ascii.eqb a b then strip_literal lit' s' else None
      | EmptyString => None
      end
  end.

(** The longest prefix of [s] in the class [f], and what follows it: a
    greedy quantifier over a character class. *)
Fixpoint span (f : ascii -> bool) (s : string) : string * string :=
  match s with
  | String c s' =>
      if f c then let '(a, b) := span f s' in (String c a, b)
      else (EmptyString, s)
  | EmptyString => (EmptyString, EmptyString)
  end.

(** One or more characters of the class. *)
Definition plus (f : ascii -> bool) (s : string) : option (string * string) :=
  let '(a, b) := span f s in
  if Js.is_empty a then None else Some (a, b).

(** [BRACKET_PATTERN] matched at the start of [s]: the captured name
    and the length of the match.  Each quantified class is followed
    by a character outside it, so the greedy match is the only one. *)
Definition match_BRACKET_PATTERN (s : string) : option (string * nat) :=
  match strip_literal "[Called" s with
  | None => None
  | Some s1 =>
  match plus Js.is_space s1 with
  | None => None
  | Some (_, s2) =>
  match plus Js.is_word_or_dash s2 with
  | None => None
  | Some (name, s3) =>
  match plus Js.is_space s3 with
  | None => None
  | Some (_, s4) =>
  match strip_literal "with" s4 with
  | None => None
  | Some s5 =>
  match plus Js.is_space s5 with
  | None => None
  | Some (_, s6) =>
  match strip_literal "args:" s6 with
  | None => None
  | Some s7 =>
      let '(_, s8) := span Js.is_space s7 in
      Some (name, String.length s - String.length s8)
  end end end end end end end.

(** A match of [exec]: [match.index], [match[1]], [match[0].length]. *)
Record RegExpExecArray : Type := {
  index : nat;
  group1 : string;
  length0 : nat
}.

(** The leftmost match in [s], what is left of the text from [i] on. *)
Fixpoint exec_from (s : string) (i : nat) {struct s}
  : option RegExpExecArray :=
  match match_BRACKET_PATTERN s with
  | Some (name, len) =>
      Some {| index := i; group1 := name; length0 := len |}
  | None =>
      match s with
      | EmptyString => None
      | String _ s' => exec_from s' (S i)
      end
  end.

(** [BRACKET_PATTERN.exec(text)] with the cursor [lastIndex] of the
    global pattern; after a match the cursor is the end of the match. *)
Definition exec (text : string) (lastIndex : nat) : option RegExpExecArray :=
  exec_from (Js.drop lastIndex text) lastIndex.

Definition removal : Type := (nat * nat)%type.

Section WithHost.
Context {host : Host}.

(** The body of the [while] loop for one match: the tool calls and
    the removals after it. *)
Definition on_match (text : string) (m : RegExpExecArray)
           (acc : list BracketToolCall * list removal)
  : list BracketToolCall * list removal :=
  let jsonStart := m.(index) + m.(length0) in
  match Js.indexOf text "{" jsonStart with
  | None => acc
  | Some braceIdx =>
  if negb (braceIdx =? jsonStart)%nat then acc else
  match findJsonEnd text braceIdx with
  | None => acc
  | Some jsonEndIdx =>
  match Js.indexOf text "]" (jsonEndIdx + 1) with
  | None => acc
  | Some afterJson =>
  if negb (Js.is_empty
             (Js.trim (Js.substring text (jsonEndIdx + 1) afterJson)))
  then acc else
  match JSON_parse (Js.substring text braceIdx (jsonEndIdx + 1)) with
  | None => acc
  | Some args =>
      ((fst acc ++ [ {| toolUseId := randomUUID (List.length (fst acc));
                        name := m.(group1);
                        arguments := args |} ])%list,
       (snd acc ++ [ (m.(index), afterJson + 1) ])%list)
  end end end end.

(** The [while (match !== null)] loop.  A match is not empty, so the
    cursor moves forward and [fuel] above the length of the text is
    never used up ([scan_fuel]). *)
Fixpoint scan (fuel : nat) (text : string) (lastIndex : nat)
         (acc : list BracketToolCall * list removal)
  : list BracketToolCall * list removal :=
  match fuel with
  | O => acc
  | S fuel' =>
      match exec text lastIndex with
      | None => acc
      | Some m =>
          scan fuel' text (m.(index) + m.(length0)) (on_match text m acc)
      end
  end.

(** The removals, applied from the last to the first. *)
Definition remove_all (text : string) (removals : list removal) : string :=
  fold_left
    (fun cleanedText r =>
       Js.substring cleanedText 0 (fst r) ++ Js.drop (snd r) cleanedText)
    (rev removals) text.

Definition parseBracketToolCalls (text : string) : BracketParseResult :=
  let '(calls, removals) :=
    scan (S (String.length text)) text 0 ([], []) in
  {| toolCalls := calls; cleanedText := remove_all text removals |}.

End WithHost.
End BracketToolParser.

(* ================================================================== *)
(** * [src/unnamed/part_002]: the token counter *)
(* ================================================================== *)

Module Tokenizer.
Section WithHost.
Context {host : Host}.

Definition countTokens (text : string) : Z :=
  if (String.length text =? 0)%nat then 0%Z else encode_length text.
End WithHost.
End Tokenizer.

(* ================================================================== *)
(** * [src/stream.ts]: the stream orchestrator *)
(* ================================================================== *)

Module Stream.
Import Output EventParser.

Record KiroToolCallState : Type := {
  toolUseId : json;
  name : json;
  input : string
}.

(** What [console.warn] reports when a tool call is skipped. *)
Inductive Diagnostic : Type :=
| EmptyInput (name toolUseId : json)
| ParseFailure (name toolUseId : json) (rawLength : nat) (rawPrefix : string).

(** The variables of one attempt (declared inside the retry loop),
    with the objects shared with the segmenter.  The token counts of
    [output.usage] and the cost are floating point arithmetic on
    external values and are not part of the model; the text they are
    computed from, [totalContent], is. *)
Record Attempt : Type := {
  shared : Shared;
  warnings : list Diagnostic;
  buffer : string;
  totalContent : string;
  lastContentData : json;
  usageEvent : option (option json * option json);
  receivedContextUsage : bool;
  thinkingParser : option ThinkingParser.ThinkingTagParser;
  textBlockIndex : option nat;
  toolCalls : list KiroToolCallState;
  currentToolCall : option KiroToolCallState
}.

(** The state at the top of the read loop of an attempt. *)
Definition newAttempt (thinkingEnabled : bool) (sh : Shared)
           (w : list Diagnostic) : Attempt :=
  {| shared := sh;
     warnings := w;
     buffer := EmptyString;
     totalContent := EmptyString;
     lastContentData := JStr EmptyString;
     usageEvent := None;
     receivedContextUsage := false;
     thinkingParser :=
       if thinkingEnabled then Some ThinkingParser.new else None;
     textBlockIndex := None;
     toolCalls := [];
     currentToolCall := None |}.

Definition set_buffer (b : string) (a : Attempt) : Attempt :=
  {| shared := a.(shared); warnings := a.(warnings); buffer := b;
     totalContent := a.(totalContent);
     lastContentData := a.(lastContentData);
     usageEvent := a.(usageEvent);
     receivedContextUsage := a.(receivedContextUsage);
     thinkingParser := a.(thinkingParser);
     textBlockIndex := a.(textBlockIndex);
     toolCalls := a.(toolCalls);
     currentToolCall := a.(currentToolCall) |}.

Definition set_tools (calls : list KiroToolCallState)
           (current : option KiroToolCallState) (a : Attempt) : Attempt :=
  {| shared := a.(shared); warnings := a.(warnings); buffer := a.(buffer);
     totalContent := a.(totalContent);
     lastContentData := a.(lastContentData);
     usageEvent := a.(usageEvent);
     receivedContextUsage := a.(receivedContextUsage);
     thinkingParser := a.(thinkingParser);
     textBlockIndex := a.(textBlockIndex);
     toolCalls := calls;
     currentToolCall := current |}.

(** The branch for a [content] event that is not a repeat. *)
Definition onContent (data : json) (a : Attempt) : Attempt :=
  let total := a.(totalContent) ++ toString data in
  match a.(thinkingParser) with
  | Some p =>
      let '(sh, p) :=
        ThinkingParser.processChunk (toString data) (a.(shared), p) in
      {| shared := sh; warnings := a.(warnings); buffer := a.(buffer);
         totalContent := total;
         lastContentData := data;
         usageEvent := a.(usageEvent);
         receivedContextUsage := a.(receivedContextUsage);
         thinkingParser := Some p;
         textBlockIndex := a.(textBlockIndex);
         toolCalls := a.(toolCalls);
         currentToolCall := a.(currentToolCall) |}
  | None =>
      let '(sh, idx) :=
        match a.(textBlockIndex) with
        | Some idx => (a.(shared), idx)
        | None =>
            let idx := List.length a.(shared).(output_content) in
            (push (text_start idx)
                  (push_content (TextContent EmptyString) a.(shared)),
             idx)
        end in
      {| shared :=
           push (text_delta idx data) (append_text idx (toString data) sh);
         warnings := a.(warnings); buffer := a.(buffer);
         totalContent := total;
         lastContentData := data;
         usageEvent := a.(usageEvent);
         receivedContextUsage := a.(receivedContextUsage);
         thinkingParser := None;
         textBlockIndex := Some idx;
         toolCalls := a.(toolCalls);
         currentToolCall := a.(currentToolCall) |}
  end.

Definition append_input (s : string) (tc : KiroToolCallState) :=
  {| toolUseId := tc.(toolUseId); name := tc.(name);
     input := tc.(input) ++ s |}.

(** The body of [for (const event of events)]. *)
Definition handleEvent (a : Attempt) (event : KiroStreamEvent) : Attempt :=
  match event with
  | contextUsage _ =>
      {| shared := a.(shared); warnings := a.(warnings);
         buffer := a.(buffer);
         totalContent := a.(totalContent);
         lastContentData := a.(lastContentData);
         usageEvent := a.(usageEvent);
         receivedContextUsage := true;
         thinkingParser := a.(thinkingParser);
         textBlockIndex := a.(textBlockIndex);
         toolCalls := a.(toolCalls);
         currentToolCall := a.(currentToolCall) |}
  | content data =>
      if strict_eq data a.(lastContentData) then a else onContent data a
  | toolUse tc_name tc_toolUseId tc_input tc_stop =>
      let '(calls, current) :=
        match a.(currentToolCall) with
        | Some c =>
            if strict_eq c.(toolUseId) tc_toolUseId
            then (a.(toolCalls), append_input tc_input c)
            else ((a.(toolCalls) ++ [c])%list,
                  {| toolUseId := tc_toolUseId; name := tc_name;
                     input := tc_input |})
        | None =>
            (a.(toolCalls),
             {| toolUseId := tc_toolUseId; name := tc_name;
                input := tc_input |})
        end in
      if truthy_opt tc_stop
      then set_tools (calls ++ [current])%list None a
      else set_tools calls (Some current) a
  | toolUseInput i =>
      match a.(currentToolCall) with
      | Some c => set_tools a.(toolCalls) (Some (append_input i c)) a
      | None => a
      end
  | toolUseStop s =>
      match a.(currentToolCall) with
      | Some c =>
          if truthy s then set_tools (a.(toolCalls) ++ [c])%list None a
          else a
      | None => a
      end
  | usage i o =>
      {| shared := a.(shared); warnings := a.(warnings);
         buffer := a.(buffer);
         totalContent := a.(totalContent);
         lastContentData := a.(lastContentData);
         usageEvent := Some (i, o);
         receivedContextUsage := a.(receivedContextUsage);
         thinkingParser := a.(thinkingParser);
         textBlockIndex := a.(textBlockIndex);
         toolCalls := a.(toolCalls);
         currentToolCall := a.(currentToolCall) |}
  | followupPrompt _ => a
  end.

Definition handleEvents (a : Attempt) (events : list KiroStreamEvent)
  : Attempt :=
  fold_left handleEvent events a.

(** How the body of a successful response behaves when it is read.
    The first read races the first-token deadline; the idle deadline
    is armed by a chunk, so it can only end a read that follows one. *)
Inductive Tail : Type :=
| TailDone
| TailIdleTimeout
| TailRejects
| TailChunk (value : string) (rest : Tail).

Inductive Body : Type :=
| BodyFirstTokenTimeout
| BodyDone
| BodyRejects
| BodyChunk (value : string) (rest : Tail).

Inductive ReadEnd : Type :=
| Completed | FirstTokenTimedOut | IdleCancelled | ReadRejected.

(** The response that [fetch] resolves with. *)
Record Response : Type := {
  status : Z;
  statusText : string;
  text : string;                (* [response.text()], empty if it rejects *)
  body : option Body            (* [response.body?.getReader()] *)
}.

(** [response.ok]. *)
Definition ok (r : Response) : bool :=
  ((200 <=? r.(status)) && (r.(status) <=? 299))%Z.

Inductive FetchResult : Type :=
| FetchRejects
| FetchResolves (response : Response).

(** The caller and the network. *)
Record Env : Type := {
  apiKey : option string;            (* [options?.apiKey] *)
  thinkingEnabled : bool;            (* [!!options?.reasoning || model.reasoning] *)
  fetch : nat -> FetchResult;        (* the n-th call of [fetch] *)
  signal_aborted : bool              (* [options?.signal?.aborted] in the handler *)
}.

(** What a call of [streamKiro] leaves behind. *)
Record Run : Type := {
  run_shared : Shared;               (* [output.content] and the events *)
  run_warnings : list Diagnostic;
  stopReason : StopReason;           (* [output.stopReason] *)
  errorMessage : option Failure;     (* [output.errorMessage] *)
  fetches : nat;                     (* calls of [fetch] *)
  delays : list Z;                   (* the waits between attempts, in ms *)
  reductions : nat;                  (* [reductionFactor] is [0.7 ^ reductions] *)
  ended : nat                        (* calls of [stream.end()] *)
}.

Definition maxRetries : nat := 3.

Section WithHost.
Context {host : Host}.

(** One iteration of the read loop that got a chunk. *)
Definition onChunk (value : string) (a : Attempt) : Attempt :=
  let '(events, remaining) := parseKiroEvents (a.(buffer) ++ value) in
  handleEvents (set_buffer remaining a) events.

Fixpoint readTail (t : Tail) (a : Attempt) : ReadEnd * Attempt :=
  match t with
  | TailDone => (Completed, a)
  | TailIdleTimeout => (IdleCancelled, a)
  | TailRejects => (ReadRejected, a)
  | TailChunk value rest => readTail rest (onChunk value a)
  end.

Definition readBody (b : Body) (a : Attempt) : ReadEnd * Attempt :=
  match b with
  | BodyFirstTokenTimeout => (FirstTokenTimedOut, a)
  | BodyDone => (Completed, a)
  | BodyRejects => (ReadRejected, a)
  | BodyChunk value rest => readTail rest (onChunk value a)
  end.

(** [if (currentToolCall) toolCalls.push(currentToolCall)]. *)
Definition archiveCurrent (a : Attempt) : list KiroToolCallState :=
  match a.(currentToolCall) with
  | Some c => (a.(toolCalls) ++ [c])%list
  | None => a.(toolCalls)
  end.

(** The bracket fallback: the tool calls and the shared objects
    after it. *)
Definition bracketFallback (calls : list KiroToolCallState)
           (textBlockIndex : option nat) (sh : Shared)
  : list KiroToolCallState * Shared :=
  match calls, textBlockIndex with
  | [], Some idx =>
      let bracketResult :=
        BracketToolParser.parseBracketToolCalls (text_of idx sh) in
      match bracketResult.(BracketToolParser.toolCalls) with
      | [] => (calls, sh)
      | found =>
          (map (fun btc =>
                  {| toolUseId := JStr btc.(BracketToolParser.toolUseId);
                     name := JStr btc.(BracketToolParser.name);
                     input :=
                       JSON_stringify btc.(BracketToolParser.arguments) |})
               found,
           set_text idx bracketResult.(BracketToolParser.cleanedText) sh)
      end
  | _, _ => (calls, sh)
  end.

(** The body of [for (const tc of toolCalls)]: skip the call or push
    it on the output. *)
Definition emitToolCall (acc : Shared * list Diagnostic)
           (tc : KiroToolCallState) : Shared * list Diagnostic :=
  let '(sh, w) := acc in
  if Js.is_empty (Js.trim tc.(input)) then
    (sh, (w ++ [EmptyInput tc.(name) tc.(toolUseId)])%list)
  else
    match JSON_parse tc.(input) with
    | None =>
        (sh, (w ++ [ParseFailure tc.(name) tc.(toolUseId)
                      (String.length tc.(input))
                      (Js.substring tc.(input) 0 200)])%list)
    | Some args =>
        let idx := List.length sh.(output_content) in
        let toolCall := ToolCall tc.(toolUseId) tc.(name) args in
        (push (toolcall_end idx toolCall)
           (push (toolcall_delta idx tc.(input))
              (push (toolcall_start idx) (push_content toolCall sh))),
         w)
    end.

(** [output.stopReason] from the two values the source tests. *)
Definition decideStopReason (receivedContextUsage : bool)
           (calls : list KiroToolCallState) : StopReason :=
  if negb receivedContextUsage && (List.length calls =? 0)%nat
  then reason_length
  else if (0 <? List.length calls)%nat then reason_toolUse
       else reason_stop.

(** What follows the read loop of an attempt that was not timed out:
    the final tool calls, and the shared objects, warnings and stop
    reason, up to the terminal event; [final_countedTokens] is the
    output token count when it comes from the token counter, that is
    when no usage event was observed. *)
Record Finalized : Type := {
  final_toolCalls : list KiroToolCallState;
  final_shared : Shared;
  final_warnings : list Diagnostic;
  final_textBlockIndex : option nat;
  final_countedTokens : option Z;
  final_stopReason : StopReason
}.

Definition finalizeAttempt (a : Attempt) : Finalized :=
  let calls := archiveCurrent a in
  let '(sh, textBlockIndex) :=
    match a.(thinkingParser) with
    | Some p =>
        let st := ThinkingParser.finalize (a.(shared), p) in
        (fst st, ThinkingParser.getTextBlockIndex st)
    | None => (a.(shared), a.(textBlockIndex))
    end in
  let '(calls, sh) := bracketFallback calls textBlockIndex sh in
  let sh :=
    match textBlockIndex with
    | Some idx => push (text_end idx (text_of idx sh)) sh
    | None => sh
    end in
  let '(sh, w) := fold_left emitToolCall calls (sh, a.(warnings)) in
  let reason := decideStopReason a.(receivedContextUsage) calls in
  {| final_toolCalls := calls;
     final_shared := push (done reason) sh;
     final_warnings := w;
     final_textBlockIndex := textBlockIndex;
     final_countedTokens :=
       match a.(usageEvent) with
       | Some _ => None
       | None => Some (Tokenizer.countTokens a.(totalContent))
       end;
     final_stopReason := reason |}.

(** The [catch] handler. *)
Definition fail (env : Env) (e : Failure) (sh : Shared)
           (w : list Diagnostic) (fetches : nat) (delays : list Z)
           (reductions : nat) : Run :=
  let reason := if env.(signal_aborted) then reason_aborted
                else reason_error in
  {| run_shared := push (error reason e) sh;
     run_warnings := w;
     stopReason := reason;
     errorMessage := Some e;
     fetches := fetches;
     delays := delays;
     reductions := reductions;
     ended := 1 |}.

(** [while (retryCount <= maxRetries)].  An iteration that does not
    leave the loop increments [retryCount], so [fuel] above
    [maxRetries + 1 - retryCount] is never used up
    ([attemptLoop_terminates]); the number of calls of [fetch] so far
    is [fetches]. *)
Fixpoint attemptLoop (fuel : nat) (env : Env) (maxRetries : nat)
         (retryCount : nat) (sh : Shared) (w : list Diagnostic)
         (fetches : nat) (delays : list Z) (reductions : nat) : Run :=
  match fuel with
  | O =>
      {| run_shared := sh; run_warnings := w; stopReason := reason_stop;
         errorMessage := None; fetches := fetches; delays := delays;
         reductions := reductions; ended := 0 |}
  | S fuel' =>
      if negb (retryCount <=? maxRetries)%nat then
        {| run_shared := sh; run_warnings := w; stopReason := reason_stop;
           errorMessage := None; fetches := fetches; delays := delays;
           reductions := reductions; ended := 0 |}
      else
      match env.(fetch) fetches with
      | FetchRejects =>
          fail env Rejected sh w (S fetches) delays reductions
      | FetchResolves response =>
          if negb (ok response) then
            let decision :=
              Retry.decideRetry response.(status) response.(text)
                                retryCount maxRetries in
            if decision.(Retry.shouldRetry) then
              match decision.(Retry.strategy) with
              | Retry.reduce =>
                  attemptLoop fuel' env maxRetries (S retryCount) sh w
                              (S fetches) delays (S reductions)
              | _ =>
                  attemptLoop fuel' env maxRetries (S retryCount) sh w
                              (S fetches)
                              (if (0 <? decision.(Retry.delayMs))%Z
                               then (delays ++ [decision.(Retry.delayMs)])%list
                               else delays)
                              reductions
              end
            else
              fail env
                   (ApiError response.(status) response.(statusText)
                             response.(text))
                   sh w (S fetches) delays reductions
          else
            let sh := push start sh in
            match response.(body) with
            | None =>
                fail env NoResponseBody sh w (S fetches) delays reductions
            | Some b =>
                let '(how, a) :=
                  readBody b (newAttempt env.(thinkingEnabled) sh w) in
                match how with
                | ReadRejected =>
                    fail env Rejected a.(shared) a.(warnings) (S fetches)
                         delays reductions
                | FirstTokenTimedOut | IdleCancelled =>
                    if (retryCount <? maxRetries)%nat then
                      attemptLoop fuel' env maxRetries (S retryCount)
                                  a.(shared) a.(warnings) (S fetches)
                                  (delays ++ [1000 * 2 ^ Z.of_nat retryCount]%Z)%list
                                  reductions
                    else
                      fail env
                           (match how with
                            | FirstTokenTimedOut => FirstTokenTimeout
                            | _ => IdleTimeout
                            end)
                           a.(shared) a.(warnings) (S fetches) delays
                           reductions
                | Completed =>
                    let f := finalizeAttempt a in
                    {| run_shared := f.(final_shared);
                       run_warnings := f.(final_warnings);
                       stopReason := f.(final_stopReason);
                       errorMessage := None;
                       fetches := S fetches;
                       delays := delays;
                       reductions := reductions;
                       ended := 1 |}
                end
            end
      end
  end.

(** [streamKiro(model, context, options)], from the credentials
    check on, for a caller whose requests are all built: building the
    request is the work of collaborators (history, transform) that are
    not among the sources.  [Request.streamKiro] is the run in which
    building a request may throw. *)
Definition streamKiro (env : Env) : Run :=
  match env.(apiKey) with
  | Some (String _ _) =>
      attemptLoop (S (S maxRetries)) env maxRetries 0 emptyShared [] 0 [] 0
  | _ => fail env NoCredentials emptyShared [] 0 [] 0
  end.

End WithHost.
End Stream.

(* ================================================================== *)
(** * [src/stream.ts]: a request that cannot be built *)
(* ================================================================== *)

Module Request.
Import Output Stream.

(** The caller with its context.  The request is built inside the
    [try]: the model and the system prompt before the loop, the
    history, the current message and the tools at the head of every
    iteration.  The functions that build it ([resolveKiroModel],
    [normalizeMessages], [buildHistory] and the like) are not among
    the sources, and [JSON.parse(tc.arguments)] throws on a tool call
    of the context whose arguments are a text that is not JSON.
    Whether building the request throws is a parameter, by the number
    of calls of [fetch] that came before it. *)
Record Caller : Type := {
  caller_env : Env;
  request_throws : nat -> bool
}.

Section WithHost.
Context {host : Host}.

(** [while (retryCount <= maxRetries)], as [Stream.attemptLoop], with
    the request built before [fetch] is called. *)
Fixpoint attemptLoop (fuel : nat) (c : Caller) (maxRetries : nat)
         (retryCount : nat) (sh : Shared) (w : list Diagnostic)
         (fetches : nat) (delays : list Z) (reductions : nat) : Run :=
  let env := c.(caller_env) in
  match fuel with
  | O =>
      {| run_shared := sh; run_warnings := w; stopReason := reason_stop;
         errorMessage := None; fetches := fetches; delays := delays;
         reductions := reductions; ended := 0 |}
  | S fuel' =>
      if negb (retryCount <=? maxRetries)%nat then
        {| run_shared := sh; run_warnings := w; stopReason := reason_stop;
           errorMessage := None; fetches := fetches; delays := delays;
           reductions := reductions; ended := 0 |}
      else
      if c.(request_throws) fetches then
        fail env RequestFailed sh w fetches delays reductions
      else
      match env.(fetch) fetches with
      | FetchRejects =>
          fail env Rejected sh w (S fetches) delays reductions
      | FetchResolves response =>
          if negb (ok response) then
            let decision :=
              Retry.decideRetry response.(status) response.(text)
                                retryCount maxRetries in
            if decision.(Retry.shouldRetry) then
              match decision.(Retry.strategy) with
              | Retry.reduce =>
                  attemptLoop fuel' c maxRetries (S retryCount) sh w
                              (S fetches) delays (S reductions)
              | _ =>
                  attemptLoop fuel' c maxRetries (S retryCount) sh w
                              (S fetches)
                              (if (0 <? decision.(Retry.delayMs))%Z
                               then (delays ++ [decision.(Retry.delayMs)])%list
                               else delays)
                              reductions
              end
            else
              fail env
                   (ApiError response.(status) response.(statusText)
                             response.(text))
                   sh w (S fetches) delays reductions
          else
            let sh := push start sh in
            match response.(body) with
            | None =>
                fail env NoResponseBody sh w (S fetches) delays reductions
            | Some b =>
                let '(how, a) :=
                  readBody b (newAttempt env.(thinkingEnabled) sh w) in
                match how with
                | ReadRejected =>
                    fail env Rejected a.(shared) a.(warnings) (S fetches)
                         delays reductions
                | FirstTokenTimedOut | IdleCancelled =>
                    if (retryCount <? maxRetries)%nat then
                      attemptLoop fuel' c maxRetries (S retryCount)
                                  a.(shared) a.(warnings) (S fetches)
                                  (delays ++ [1000 * 2 ^ Z.of_nat retryCount]%Z)%list
                                  reductions
                    else
                      fail env
                           (match how with
                            | FirstTokenTimedOut => FirstTokenTimeout
                            | _ => IdleTimeout
                            end)
                           a.(shared) a.(warnings) (S fetches) delays
                           reductions
                | Completed =>
                    let f := finalizeAttempt a in
                    {| run_shared := f.(final_shared);
                       run_warnings := f.(final_warnings);
                       stopReason := f.(final_stopReason);
                       errorMessage := None;
                       fetches := S fetches;
                       delays := delays;
                       reductions := reductions;
                       ended := 1 |}
                end
            end
      end
  end.

(** [streamKiro(model, context, options)]: the credentials check, then
    the loop. *)
Definition streamKiro (c : Caller) : Run :=
  match c.(caller_env).(apiKey) with
  | Some (String _ _) =>
      attemptLoop (S (S maxRetries)) c maxRetries 0 emptyShared [] 0 [] 0
  | _ => fail c.(caller_env) NoCredentials emptyShared [] 0 [] 0
  end.

End WithHost.
End Request.

(* ================================================================== *)
(** * The words of the specification *)
(* ================================================================== *)

Module Spec.

(** [s] contains [p]. *)
Definition contains (s p : string) : Prop :=
  exists pre post, s = pre ++ p ++ post.

(** The size phrases of rule 2 of the retry table. *)
Definition size_phrases : list string :=
  ["CONTENT_LENGTH_EXCEEDS_THRESHOLD"; "Input is too long";
   "Improperly formed"].

Definition has_size_phrase (errorText : string) : Prop :=
  exists p, In p size_phrases /\ contains errorText p.

Definition no_retry : Retry.RetryDecision :=
  {| Retry.shouldRetry := false; Retry.delayMs := 0;
     Retry.strategy := Retry.none |}.

Definition retry_with (strategy : Retry.Strategy) (delay : Z)
  : Retry.RetryDecision :=
  {| Retry.shouldRetry := true; Retry.delayMs := delay;
     Retry.strategy := strategy |}.

(** ** Frame scanner *)

(** An anchor: one of the key patterns occurs at offset [a]. *)
Definition anchor_at (buffer : string) (a : nat) : Prop :=
  exists pattern, In pattern EventParser.EVENT_PATTERNS
                  /\ Js.occurs_at pattern buffer a.

(** [a] is the first anchor from [pos] on. *)
Definition next_anchor (buffer : string) (pos a : nat) : Prop :=
  pos <= a /\ anchor_at buffer a
  /\ forall j, pos <= j -> j < a -> ~ anchor_at buffer j.

Definition no_anchor_from (buffer : string) (pos : nat) : Prop :=
  forall j, pos <= j -> ~ anchor_at buffer j.

(** A span [(a, e)]: a fragment from the anchor [a] to its closing brace
    at [e], both included. *)
Definition fragment_span : Type := (nat * nat)%type.

(** The frames of a buffer from [pos] on: the spans of the complete
    fragments, each from the first anchor after the one before to where
    the brace depth returns to zero, and the anchor of the truncated
    fragment that ends the scan, if any. *)
Inductive Frames (buffer : string) : nat -> list fragment_span -> option nat -> Prop :=
| frames_end (pos : nat) :
    no_anchor_from buffer pos -> Frames buffer pos [] None
| frames_truncated (pos a : nat) :
    next_anchor buffer pos a ->
    EventParser.findJsonEnd buffer a = None ->
    Frames buffer pos [] (Some a)
| frames_fragment (pos a e : nat) (spans : list fragment_span) (trunc : option nat) :
    next_anchor buffer pos a ->
    EventParser.findJsonEnd buffer a = Some e ->
    Frames buffer (e + 1) spans trunc ->
    Frames buffer pos ((a, e) :: spans) trunc.



(** The character at an offset. *)
Definition char_at (s : string) (i : nat) : option ascii := String.get i s.



Section Scanner.
Context {host : Host}.


End Scanner.

(** ** Bracket fallback extractor *)

(** Every character of [s] is in the class [f]. *)
Fixpoint all_chars (f : ascii -> bool) (s : string) : bool :=
  match s with
  | EmptyString => true
  | String c s' => f c && all_chars f s'
  end.

(** The shape of an anchor: [[Called], the name, [with] and [args:],
    separated by white space, and the white space that follows. *)
Definition anchor_text (anchor name : string) : Prop :=
  exists ws1 ws2 ws3 ws4,
    anchor = "[Called" ++ ws1 ++ name ++ ws2 ++ "with" ++ ws3 ++ "args:" ++ ws4
    /\ all_chars Js.is_space ws1 = true /\ ws1 <> EmptyString
    /\ all_chars Js.is_word_or_dash name = true /\ name <> EmptyString
    /\ all_chars Js.is_space ws2 = true /\ ws2 <> EmptyString
    /\ all_chars Js.is_space ws3 = true /\ ws3 <> EmptyString
    /\ all_chars Js.is_space ws4 = true.

Section Bracket.
Context {host : Host}.

(** The tool call [call] and the removal [rm] come from an accepted
    match in [text]: an anchor at [idx], the opening brace right after
    it, the closing brace that balances it at [e], only white space up
    to the bracket at [r], and an argument text that parses. *)
Definition accepted_match (text : string)
           (call : BracketToolParser.BracketToolCall)
           (rm : BracketToolParser.removal) : Prop :=
  exists idx len e r,
    anchor_text (Js.take len (Js.drop idx text)) call.(BracketToolParser.name)
    /\ char_at text (idx + len) = Some Js.lbrace
    /\ EventParser.findJsonEnd text (idx + len) = Some e
    /\ Js.indexOf text "]" (e + 1) = Some r
    /\ all_chars Js.is_space (Js.substring text (e + 1) r) = true
    /\ JSON_parse (Js.substring text (idx + len) (e + 1))
       = Some call.(BracketToolParser.arguments)
    /\ rm = (idx, r + 1).

End Bracket.

(** ** Event classifier *)

Section Classifier.
Context {host : Host}.

(** The precedence table in the words of the specification, where a
    rule tests that a field is present.  The table says nothing of an
    input that is neither a string nor an object; [toolUse_input] is
    taken for it. *)
Definition classify_by_presence (o : object)
  : option EventParser.KiroStreamEvent :=
  match prop o "content" with
  | Some c => Some (EventParser.content c)
  | None =>
  match prop o "name", prop o "toolUseId" with
  | Some n, Some t =>
      Some (EventParser.toolUse n t
              (EventParser.toolUse_input (prop o "input")) (prop o "stop"))
  | _, _ =>
  match prop o "input", prop o "name" with
  | Some i, None =>
      Some (EventParser.toolUseInput
              match i with JStr s => s | _ => JSON_stringify i end)
  | _, _ =>
  match prop o "stop", prop o "contextUsagePercentage" with
  | Some s, None => Some (EventParser.toolUseStop s)
  | _, _ =>
  match prop o "contextUsagePercentage" with
  | Some p => Some (EventParser.contextUsage p)
  | None =>
  match prop o "followupPrompt" with
  | Some f => Some (EventParser.followupPrompt f)
  | None =>
  match prop o "usage" with
  | Some (JObj u) =>
      Some (EventParser.usage (prop u "inputTokens") (prop u "outputTokens"))
  | _ => None
  end end end end end end end.

End Classifier.

(** The conditions of the rules, as the code tests them. *)
Definition rule1 (o : object) : Prop := prop o "content" <> None.

Definition rule2 (o : object) : Prop :=
  truthy_opt (prop o "name") = true /\ truthy_opt (prop o "toolUseId") = true.

Definition rule3 (o : object) : Prop :=
  prop o "input" <> None /\ truthy_opt (prop o "name") = false.

Definition rule4 (o : object) : Prop :=
  prop o "stop" <> None /\ prop o "contextUsagePercentage" = None.

Definition rule5 (o : object) : Prop :=
  prop o "contextUsagePercentage" <> None.

Definition rule6 (o : object) : Prop := prop o "followupPrompt" <> None.

Definition rule7 (o : object) : Prop := prop o "usage" <> None.

(** ** Stop reason *)

Section StopReason.
Context {host : Host}.

(** A tool call survives the input filter: its input is not blank and
    parses. *)
Definition survives (tc : Stream.KiroToolCallState) : bool :=
  negb (Js.is_empty (Js.trim tc.(Stream.input)))
  && match JSON_parse tc.(Stream.input) with Some _ => true | None => false end.

(** The stop reason in the words of the specification: [toolUse] if any
    tool call survived, else [length] if no context-usage event was
    observed, else [stop]. *)
Definition stop_reason_of_survivors (receivedContextUsage : bool)
           (calls : list Stream.KiroToolCallState) : Output.StopReason :=
  if existsb survives calls then Output.reason_toolUse
  else if negb receivedContextUsage then Output.reason_length
       else Output.reason_stop.

(** The stop reason from the tool calls that were assembled, whether or
    not they survive the filter. *)
Definition stop_reason_of_assembled (receivedContextUsage : bool)
           (calls : list Stream.KiroToolCallState) : Output.StopReason :=
  match calls with
  | _ :: _ => Output.reason_toolUse
  | [] => if negb receivedContextUsage then Output.reason_length
          else Output.reason_stop
  end.

(** The content block of a surviving tool call. *)
Definition block_of (tc : Stream.KiroToolCallState) : list Output.ContentBlock :=
  if Js.is_empty (Js.trim tc.(Stream.input)) then []
  else match JSON_parse tc.(Stream.input) with
       | Some args => [Output.ToolCall tc.(Stream.toolUseId) tc.(Stream.name) args]
       | None => []
       end.

End StopReason.

(** ** Thinking segmenter *)

(** No open tag of any variant occurs in the buffer. *)
Definition no_open_tag (buffer : string) : Prop :=
  forall v i, In v ThinkingParser.THINKING_TAG_VARIANTS ->
              ~ Js.occurs_at v.(ThinkingParser.open) buffer i.

(** The tag does not occur in the buffer. *)
Definition no_tag (tag buffer : string) : Prop :=
  forall i, ~ Js.occurs_at tag buffer i.

(** The phases of the segmenter that search for a tag. *)
Definition before_thinking (p : ThinkingParser.ThinkingTagParser) : Prop :=
  p.(ThinkingParser.inThinking) = false
  /\ p.(ThinkingParser.thinkingExtracted) = false.

Definition inside_thinking (p : ThinkingParser.ThinkingTagParser) : Prop :=
  p.(ThinkingParser.inThinking) = true
  /\ p.(ThinkingParser.thinkingExtracted) = false.

(** The deltas of the thinking events of a stream, in order. *)
Definition thinking_deltas (events : list Output.AssistantMessageEvent)
  : list string :=
  flat_map (fun e => match e with
                     | Output.thinking_delta _ d => [d]
                     | _ => []
                     end) events.

(** The thinking-closed boundaries of a stream. *)
Definition thinking_ends (events : list Output.AssistantMessageEvent)
  : list string :=
  flat_map (fun e => match e with
                     | Output.thinking_end _ c => [c]
                     | _ => []
                     end) events.

(** What a call hands to the stream: the events pushed after those of
    [before]. *)
Definition pushed (before after : Output.Shared)
           (events : list Output.AssistantMessageEvent) : Prop :=
  after.(Output.stream_events)
  = (before.(Output.stream_events) ++ events)%list.

(** ** Content deduplication *)

(** The fragments that are left when every fragment identical to the
    one immediately before it is dropped; [prev] is the fragment before
    the list, if any. *)
Fixpoint drop_repeats (prev : option string) (fragments : list string)
  : list string :=
  match fragments with
  | [] => []
  | f :: rest =>
      if match prev with Some p => String.eqb f p | None => false end
      then drop_repeats (Some f) rest
      else f :: drop_repeats (Some f) rest
  end.

(** The content events of a sequence of fragments. *)
Definition content_events (fragments : list string)
  : list EventParser.KiroStreamEvent :=
  map (fun f => EventParser.content (JStr f)) fragments.

(** The deltas of the text events of a stream, in order. *)
Definition text_deltas (events : list Output.AssistantMessageEvent)
  : list json :=
  flat_map (fun e => match e with
                     | Output.text_delta _ d => [d]
                     | _ => []
                     end) events.

(** The fragments, concatenated. *)
Definition concat_all (fragments : list string) : string :=
  fold_right String.append EmptyString fragments.

Definition is_content (e : EventParser.KiroStreamEvent) : bool :=
  match e with EventParser.content _ => true | _ => false end.

(** An event that ends the stream. *)
Definition is_terminal (e : Output.AssistantMessageEvent) : bool :=
  match e with
  | Output.done _ | Output.error _ _ => true
  | _ => false
  end.

(** ** The attempt loop *)

(** Every call of [fetch] resolves with a response of the given status. *)
Definition always_status (env : Stream.Env) (st : Z) : Prop :=
  forall n, exists r,
    env.(Stream.fetch) n = Stream.FetchResolves r /\ r.(Stream.status) = st.

(** The waits of the backoff between rate-limited attempts, from the
    attempt index [retryCount] on, [k] of them. *)
Definition backoff_delays (retryCount k : nat) : list Z :=
  map (fun i => Z.min (1000 * 2 ^ Z.of_nat i) 30000) (seq retryCount k).

(** The run has ended the stream once, its last event is terminal, and
    it has called [fetch] at most [bound] times. *)
Definition ends_once (bound : nat) (run : Stream.Run) : Prop :=
  run.(Stream.ended) = 1
  /\ run.(Stream.fetches) <= bound
  /\ exists evs e,
      run.(Stream.run_shared).(Output.stream_events) = (evs ++ [e])%list
      /\ is_terminal e = true.

End Spec.

(* ================================================================== *)
(** * A host for the examples *)
(* ================================================================== *)

Module Hosts.

(** The platform, as far as the examples use it: [JSON.parse] reads the
    text of the empty object and rejects a text that is not JSON,
    [JSON.stringify] writes the empty object. *)
Definition sample : Host :=
  {| JSON_parse :=
       fun s => if String.eqb s "{}" then Some (JObj []) else None;
     JSON_stringify :=
       fun v => match v with JObj [] => "{}" | _ => "null" end;
     randomUUID := fun n => String (ascii_of_nat (48 + n)) EmptyString;
     encode_length := fun s => Z.of_nat (String.length s) |}.

End Hosts.

(* ================================================================== *)
(** * [src/truncation.ts]: truncation detection *)
(* ================================================================== *)

Module Truncation.

Inductive Role : Type := role_user | role_assistant | role_toolResult.

(** A message of the context, as far as the detection reads it: its
    role and, for an assistant message, its stop reason. *)
Record Message : Type := {
  role : Role;
  stopReason : option Output.StopReason
}.

Definition TRUNCATION_NOTICE : string :=
  "[NOTE: Your previous response was cut off due to length limits. Please continue from where you left off.]".

Definition is_assistant (m : Message) : bool :=
  match m.(role) with role_assistant => true | _ => false end.

Definition is_length (r : option Output.StopReason) : bool :=
  match r with Some Output.reason_length => true | _ => false end.

(** The [for] loop, from the last message down; [before] holds the
    messages up to the index, the last one first. *)
Fixpoint wasPreviousResponseTruncated_loop (before : list Message) : bool :=
  match before with
  | [] => false
  | m :: before' =>
      if is_assistant m then is_length m.(stopReason)
      else wasPreviousResponseTruncated_loop before'
  end.

Definition wasPreviousResponseTruncated (messages : list Message) : bool :=
  wasPreviousResponseTruncated_loop (rev messages).

(** [src/stream.ts], where the current content gets the notice. *)
Definition withTruncationNotice (messages : list Message)
           (currentContent : string) : string :=
  if wasPreviousResponseTruncated messages
  then TRUNCATION_NOTICE
         ++ String Js.newline (String Js.newline EmptyString)
         ++ currentContent
  else currentContent.

End Truncation.

(* ================================================================== *)
(** * A host that reads content fragments *)
(* ================================================================== *)

Module Readers.

(** [JSON.parse] as far as it reads an object whose only field is a
    [content] string without escapes, and the empty object. *)
Definition content_reader : Host :=
  {| JSON_parse :=
       fun s =>
         let opening := EventParser.key_pattern "content" ++ Js.quote in
         let body := Js.drop (String.length opening) s in
         let n := String.length body - 2 in
         if Js.is_prefix opening s
            && String.eqb (Js.drop n body) (Js.quote ++ "}")
         then Some (JObj [("content", JStr (Js.take n body))])
         else if String.eqb s "{}" then Some (JObj []) else None;
     JSON_stringify :=
       fun v => match v with JObj [] => "{}" | _ => "null" end;
     randomUUID := fun n => String (ascii_of_nat (48 + n)) EmptyString;
     encode_length := fun s => Z.of_nat (String.length s) |}.

End Readers.

(* ================================================================== *)
(** * Further notions *)
(* ================================================================== *)

Module Notions.
Import Output EventParser.

(** An event of the tool call assembler. *)
Definition is_tool (e : KiroStreamEvent) : bool :=
  match e with
  | toolUse _ _ _ _ | toolUseInput _ | toolUseStop _ => true
  | _ => false
  end.

Definition is_contextUsage (e : KiroStreamEvent) : bool :=
  match e with contextUsage _ => true | _ => false end.

(** What the tool call assembler keeps. *)
Definition tool_state (a : Stream.Attempt)
  : list Stream.KiroToolCallState * option Stream.KiroToolCallState :=
  (a.(Stream.toolCalls), a.(Stream.currentToolCall)).

(** What the content branch keeps. *)
Definition text_state (a : Stream.Attempt)
  : Shared * string * json * option ThinkingParser.ThinkingTagParser
    * option nat :=
  (a.(Stream.shared), a.(Stream.totalContent), a.(Stream.lastContentData),
   a.(Stream.thinkingParser), a.(Stream.textBlockIndex)).

(** A later fragment of the input of a tool call: a [toolUse] event
    with the same identifier, under whatever name, or a [toolUseInput]
    event. *)
Definition continuation (toolUseId : json) (f : option json * string)
  : KiroStreamEvent :=
  match fst f with
  | Some name => toolUse name toolUseId (snd f) None
  | None => toolUseInput (snd f)
  end.

(** The event that closes a tool call: a [toolUse] event with the same
    identifier and a stop flag, which carries a last fragment, or a
    [toolUseStop] event. *)
Definition closing (toolUseId stop : json) (f : option (json * string))
  : KiroStreamEvent :=
  match f with
  | Some (name, i) => toolUse name toolUseId i (Some stop)
  | None => toolUseStop stop
  end.

Definition closing_input (f : option (json * string)) : string :=
  match f with Some (_, i) => i | None => EmptyString end.

(** The events that the segmenter and the content branch push. *)
Definition is_segment_event (e : AssistantMessageEvent) : bool :=
  match e with
  | text_start _ | text_delta _ _ | thinking_start _ | thinking_delta _ _
  | thinking_end _ _ => true
  | _ => false
  end.

(** The slots that a stream opens. *)
Definition text_starts (events : list AssistantMessageEvent) : list nat :=
  flat_map (fun e => match e with text_start i => [i] | _ => [] end) events.

Definition thinking_starts (events : list AssistantMessageEvent) : list nat :=
  flat_map (fun e => match e with thinking_start i => [i] | _ => [] end)
           events.

(** The text and the thinking that the deltas of a stream add up to. *)
Definition delta_text (events : list AssistantMessageEvent) : string :=
  Spec.concat_all (map toString (Spec.text_deltas events)).

Definition delta_thinking (events : list AssistantMessageEvent) : string :=
  Spec.concat_all (Spec.thinking_deltas events).

(** A slot and the events agree: a slot that is not open has no start
    and no delta; an open slot was started once, lies after the blocks
    that were there before, and its block holds what the deltas add up
    to. *)
Definition slot_agrees (before : nat) (content : list ContentBlock)
           (slot : option nat) (starts : list nat) (no_delta : Prop)
           (block : ContentBlock) : Prop :=
  match slot with
  | None => starts = [] /\ no_delta
  | Some i =>
      before <= i /\ starts = [i] /\ nth_error content i = Some block
  end.

(** The events [events] that a segmenter pushed after [sh0] agree with
    its slots and with the output. *)
Definition slots_agree (sh0 sh : Shared)
           (p : ThinkingParser.ThinkingTagParser)
           (events : list AssistantMessageEvent) : Prop :=
  sh.(stream_events) = (sh0.(stream_events) ++ events)%list
  /\ forallb is_segment_event events = true
  /\ firstn (List.length sh0.(output_content)) sh.(output_content)
     = sh0.(output_content)
  /\ slot_agrees (List.length sh0.(output_content)) sh.(output_content)
                 p.(ThinkingParser.textBlockIndex) (text_starts events)
                 (Spec.text_deltas events = [])
                 (TextContent (delta_text events))
  /\ slot_agrees (List.length sh0.(output_content)) sh.(output_content)
                 p.(ThinkingParser.thinkingBlockIndex)
                 (thinking_starts events)
                 (Spec.thinking_deltas events = [])
                 (ThinkingContent (delta_thinking events)).

(** The thinking-closed boundary comes at most once, and carries all
    the thinking. *)
Definition closed_once (events : list AssistantMessageEvent) : Prop :=
  Spec.thinking_ends events = []
  \/ Spec.thinking_ends events = [delta_thinking events].

(** The state of a segmenter that was created over [sh0]: its events
    agree with its slots, it is not both inside and past the thinking
    block, and the boundary is pushed when the block has been
    extracted, not before. *)
Definition segmenter_ok (sh0 : Shared) (st : ThinkingParser.state) : Prop :=
  exists events,
    slots_agree sh0 (fst st) (snd st) events
    /\ ((snd st).(ThinkingParser.inThinking) = true ->
        (snd st).(ThinkingParser.thinkingExtracted) = false)
    /\ ((snd st).(ThinkingParser.thinkingExtracted) = false ->
        Spec.thinking_ends events = [])
    /\ closed_once events.

(** An open tag of some variant occurs in the text. *)
Definition has_open_tag (s : string) : bool :=
  existsb (fun v => Js.includes s v.(ThinkingParser.open))
          ThinkingParser.THINKING_TAG_VARIANTS.

(** The segmenter fed with the chunks, one after the other. *)
Definition feed (chunks : list string) (st : ThinkingParser.state)
  : ThinkingParser.state :=
  fold_left (fun st c => ThinkingParser.processChunk c st) chunks st.

(** The slots of an attempt: those of its segmenter, or without one the
    text slot of the content branch. *)
Definition attempt_slots (a : Stream.Attempt)
  : ThinkingParser.ThinkingTagParser :=
  match a.(Stream.thinkingParser) with
  | Some p => p
  | None =>
      {| ThinkingParser.textBuffer := EmptyString;
         ThinkingParser.inThinking := false;
         ThinkingParser.thinkingExtracted := false;
         ThinkingParser.thinkingBlockIndex := None;
         ThinkingParser.textBlockIndex := a.(Stream.textBlockIndex);
         ThinkingParser.activeEndTag := ThinkingParser.THINKING_END_TAG |}
  end.

(** The state of an attempt that started over [sh0]. *)
Definition attempt_ok (sh0 : Shared) (a : Stream.Attempt) : Prop :=
  segmenter_ok sh0 (a.(Stream.shared), attempt_slots a).

(** The events of a tool call block. *)
Definition is_toolcall_event (e : AssistantMessageEvent) : bool :=
  match e with
  | toolcall_start _ | toolcall_delta _ _ | toolcall_end _ _ => true
  | _ => false
  end.

(** No event of the list ends the stream. *)
Definition no_terminal (events : list AssistantMessageEvent) : Prop :=
  forallb (fun e => negb (Spec.is_terminal e)) events = true.

(** The terminal event that a run calls for. *)
Definition terminal_of (run : Stream.Run) : AssistantMessageEvent :=
  match run.(Stream.errorMessage) with
  | None => done run.(Stream.stopReason)
  | Some e => error run.(Stream.stopReason) e
  end.

(** The run has ended the stream once; its last event is the terminal
    event that its outcome calls for, and no event before it is
    terminal; a failure has the stop reason [aborted] or [error], as
    the signal says, and a success one of the three others. *)
Definition ends_with_terminal (aborted : bool) (run : Stream.Run) : Prop :=
  run.(Stream.ended) = 1
  /\ (exists events,
         no_terminal events
         /\ run.(Stream.run_shared).(stream_events)
            = (events ++ [terminal_of run])%list)
  /\ match run.(Stream.errorMessage) with
     | Some _ =>
         run.(Stream.stopReason)
         = if aborted then reason_aborted else reason_error
     | None =>
         run.(Stream.stopReason) = reason_stop
         \/ run.(Stream.stopReason) = reason_toolUse
         \/ run.(Stream.stopReason) = reason_length
     end.

Definition is_start (e : AssistantMessageEvent) : bool :=
  match e with start => true | _ => false end.

(** How the reading of a body ends. *)
Fixpoint tail_end (t : Stream.Tail) : Stream.ReadEnd :=
  match t with
  | Stream.TailDone => Stream.Completed
  | Stream.TailIdleTimeout => Stream.IdleCancelled
  | Stream.TailRejects => Stream.ReadRejected
  | Stream.TailChunk _ rest => tail_end rest
  end.

Definition body_end (b : Stream.Body) : Stream.ReadEnd :=
  match b with
  | Stream.BodyFirstTokenTimeout => Stream.FirstTokenTimedOut
  | Stream.BodyDone => Stream.Completed
  | Stream.BodyRejects => Stream.ReadRejected
  | Stream.BodyChunk _ rest => tail_end rest
  end.

Definition timeout_of (how : Stream.ReadEnd) : option Failure :=
  match how with
  | Stream.FirstTokenTimedOut => Some FirstTokenTimeout
  | Stream.IdleCancelled => Some IdleTimeout
  | _ => None
  end.

(** Every call of [fetch] resolves with a successful response whose
    body times out. *)
Definition always_times_out (env : Stream.Env) : Prop :=
  forall n, exists r b,
    env.(Stream.fetch) n = Stream.FetchResolves r
    /\ Stream.ok r = true
    /\ r.(Stream.body) = Some b
    /\ timeout_of (body_end b) <> None.

(** The waits between attempts that time out, from the attempt index
    [retryCount] on, [k] of them. *)
Definition timeout_delays (retryCount k : nat) : list Z :=
  map (fun i => (1000 * 2 ^ Z.of_nat i)%Z) (seq retryCount k).

(** What a retry adds to the waits and to the reductions. *)
Definition delay_of (d : Retry.RetryDecision) : list Z :=
  match d.(Retry.strategy) with
  | Retry.reduce => []
  | _ => if (0 <? d.(Retry.delayMs))%Z then [d.(Retry.delayMs)] else []
  end.

Definition reduction_of (d : Retry.RetryDecision) : nat :=
  match d.(Retry.strategy) with Retry.reduce => 1 | _ => 0 end.

(** While no tag has been seen: the text that went in is the text that
    came out and the text that is held back. *)
Definition plain_so_far (sh0 : Shared) (seen : string)
           (st : ThinkingParser.state) : Prop :=
  Spec.before_thinking (snd st)
  /\ (snd st).(ThinkingParser.thinkingBlockIndex) = None
  /\ exists events,
      Spec.pushed sh0 (fst st) events
      /\ Spec.thinking_deltas events = [] /\ Spec.thinking_ends events = []
      /\ delta_text events ++ (snd st).(ThinkingParser.textBuffer) = seen.

(** A key pattern is a brace followed by characters that are not a
    brace. *)
Definition brace_then_none (p : string) : bool :=
  match p with
  | String c t =>
      Ascii.eqb c Js.lbrace
      && Spec.all_chars (fun x => negb (Ascii.eqb x Js.lbrace)) t
  | EmptyString => false
  end.

(** [after] keeps what [before] holds: its events, with others after
    them, and its blocks, as they are. *)
Definition keeps (before after : Shared) : Prop :=
  (exists events,
      after.(stream_events) = (before.(stream_events) ++ events)%list)
  /\ firstn (List.length before.(output_content)) after.(output_content)
     = before.(output_content).

(** The first event of a stream is [start], unless the stream is empty
    or holds the error event alone. *)
Definition starts_first (events : list AssistantMessageEvent) : Prop :=
  match events with
  | [] => True
  | [error _ _] => True
  | e :: _ => e = start
  end.

(** The removals lie one after the other between [pos] and [limit]. *)
Fixpoint removals_in_order (pos : nat)
         (removals : list BracketToolParser.removal) (limit : nat) : Prop :=
  match removals with
  | [] => pos <= limit
  | (s, e) :: rest => pos <= s /\ s <= e /\ removals_in_order e rest limit
  end.

(** The text from [pos] on without the removals. *)
Fixpoint kept_text (text : string) (pos : nat)
         (removals : list BracketToolParser.removal) : string :=
  match removals with
  | [] => Js.drop pos text
  | (s, e) :: rest => Js.substring text pos s ++ kept_text text e rest
  end.

Section WithHost.
Context {host : Host}.

(** The text of the text slot after the bracket fallback. *)
Definition text_after_fallback (assembled : list Stream.KiroToolCallState)
           (full : string) : string :=
  match assembled,
        (BracketToolParser.parseBracketToolCalls full)
          .(BracketToolParser.toolCalls) with
  | [], _ :: _ =>
      (BracketToolParser.parseBracketToolCalls full)
        .(BracketToolParser.cleanedText)
  | _, _ => full
  end.

End WithHost.

End Notions.

(* ================================================================== *)
(** * Facts about strings *)
(* ================================================================== *)

Module JsFacts.
Import Js.

Lemma append_empty_r (s : string) : s ++ EmptyString = s.
Proof. induction s; simpl; congruence. Qed.

Lemma append_assoc (a b c : string) : (a ++ b) ++ c = a ++ (b ++ c).
Proof. induction a; simpl; congruence. Qed.

Lemma length_append (a b : string) :
  String.length (a ++ b) = String.length a + String.length b.
Proof. induction a; simpl; congruence. Qed.

Lemma take_drop (n : nat) (s : string) : take n s ++ drop n s = s.
Proof.
  revert s; induction n as [|n IH]; intros [|c s]; simpl; try reflexivity.
  now rewrite IH.
Qed.

Lemma length_take (n : nat) (s : string) :
  String.length (take n s) = Nat.min n (String.length s).
Proof.
  revert s; induction n as [|n IH]; intros [|c s]; simpl; auto.
Qed.

Lemma length_drop (n : nat) (s : string) :
  String.length (drop n s) = String.length s - n.
Proof.
  revert s; induction n as [|n IH]; intros [|c s]; simpl; auto.
Qed.

Lemma drop_0 (s : string) : drop 0 s = s.
Proof. now destruct s. Qed.

Lemma take_0 (s : string) : take 0 s = EmptyString.
Proof. now destruct s. Qed.

Lemma drop_empty (n : nat) : drop n EmptyString = EmptyString.
Proof. now destruct n. Qed.

Lemma drop_drop (a b : nat) (s : string) : drop a (drop b s) = drop (b + a) s.
Proof.
  revert s; induction b as [|b IH]; intros s.
  - now rewrite drop_0.
  - destruct s as [|c s]; simpl; [now rewrite drop_empty | apply IH].
Qed.

Lemma drop_all (n : nat) (s : string) :
  String.length s <= n -> drop n s = EmptyString.
Proof.
  revert s; induction n as [|n IH]; intros [|c s]; simpl; intros H;
    try reflexivity; try lia.
  apply IH; lia.
Qed.

Lemma take_all (n : nat) (s : string) :
  String.length s <= n -> take n s = s.
Proof.
  revert s; induction n as [|n IH]; intros [|c s]; simpl; intros H;
    try reflexivity; try lia.
  rewrite IH; [reflexivity | lia].
Qed.

Lemma drop_append (a b : string) : drop (String.length a) (a ++ b) = b.
Proof. induction a; simpl; [now destruct b | assumption]. Qed.

Lemma take_append (a b : string) : take (String.length a) (a ++ b) = a.
Proof. induction a; simpl; [now destruct b | congruence]. Qed.

Lemma drop_S (n : nat) (c : ascii) (s : string) (t : string) :
  drop n s = String c t -> drop (S n) s = t.
Proof.
  revert s; induction n as [|n IH]; intros [|a s]; simpl; intros H;
    try discriminate.
  - now injection H.
  - now apply IH.
Qed.

Lemma is_empty_iff (s : string) : is_empty s = true <-> s = EmptyString.
Proof. destruct s; simpl; split; congruence. Qed.

Lemma is_empty_length (s : string) :
  is_empty s = (String.length s =? 0)%nat.
Proof. now destruct s. Qed.

(** [is_prefix] decides that [s] begins with [p]. *)
Lemma is_prefix_iff (p s : string) :
  is_prefix p s = true <-> exists t, s = p ++ t.
Proof.
  revert s; induction p as [|a p IH]; intros s; simpl.
  - split; [intros _; now exists s | reflexivity].
  - destruct s as [|b s].
    + split; [discriminate | intros [t H]; discriminate].
    + rewrite andb_true_iff, Ascii.eqb_eq, IH.
      split.
      * intros [-> [t ->]]. now exists t.
      * intros [t H]. injection H as <- ->. split; [reflexivity | now exists t].
Qed.

Lemma is_prefix_length (p s : string) :
  is_prefix p s = true -> String.length p <= String.length s.
Proof.
  intros H. apply is_prefix_iff in H as [t ->]. rewrite length_append. lia.
Qed.

(** [p] occurs in [s] at offset [i], as a decomposition of [s]. *)
Lemma occurs_at_iff (p s : string) (i : nat) :
  occurs_at p s i <->
  exists pre post, s = pre ++ p ++ post /\
                   String.length pre = Nat.min i (String.length s).
Proof.
  unfold occurs_at. rewrite is_prefix_iff. split.
  - intros [t H]. exists (take i s), t. split.
    + now rewrite <- H, take_drop.
    + apply length_take.
  - intros [pre [post [-> Hlen]]]. exists post.
    rewrite length_append in Hlen.
    destruct (Nat.le_gt_cases i (String.length pre + String.length (p ++ post)))
      as [Hle|Hgt].
    + rewrite Nat.min_l in Hlen by assumption. subst i. apply drop_append.
    + rewrite Nat.min_r in Hlen by lia.
      rewrite length_append in Hlen.
      assert (String.length p = 0) by lia.
      assert (String.length post = 0) by lia.
      destruct p; [|discriminate]. destruct post; [|discriminate].
      simpl. rewrite drop_all; [reflexivity|].
      rewrite length_append. simpl. lia.
Qed.

(** What the scan of [indexOf] finds is the first occurrence. *)
Lemma find_from_Some (p s : string) (off i : nat) :
  find_from p s off = Some i ->
  exists k, i = off + k /\ k <= String.length s /\
            is_prefix p (drop k s) = true /\
            forall j, j < k -> is_prefix p (drop j s) = false.
Proof.
  revert off i; induction s as [|c s IH]; intros off i; simpl.
  - destruct (is_prefix p EmptyString) eqn:E; [|discriminate].
    intros [= <-]. exists 0. repeat split; auto; try lia.
  - destruct (is_prefix p (String c s)) eqn:E.
    + intros [= <-]. exists 0. simpl. repeat split; auto; try lia.
    + intros H. apply IH in H as [k [-> [Hk [Hp Hmin]]]].
      exists (S k). simpl. repeat split; auto; try lia.
      intros [|j] Hj; simpl; [assumption | apply Hmin; lia].
Qed.

Lemma find_from_None (p s : string) (off : nat) :
  find_from p s off = None ->
  forall j, is_prefix p (drop j s) = false.
Proof.
  revert off; induction s as [|c s IH]; intros off; simpl.
  - destruct (is_prefix p EmptyString) eqn:E; [discriminate|].
    intros _ j. now rewrite drop_empty.
  - destruct (is_prefix p (String c s)) eqn:E; [discriminate|].
    intros H [|j]; simpl; [assumption | eapply IH; eassumption].
Qed.

(** [indexOf]: a result is the least offset from [from] on where the
    pattern occurs. *)
Lemma indexOf_Some (s p : string) (from i : nat) :
  indexOf s p from = Some i ->
  Nat.min from (String.length s) <= i /\ i <= String.length s /\
  occurs_at p s i /\
  forall j, Nat.min from (String.length s) <= j -> j < i -> ~ occurs_at p s j.
Proof.
  unfold indexOf, occurs_at. intros H.
  apply find_from_Some in H as [k [-> [Hk [Hp Hmin]]]].
  rewrite length_drop in Hk. rewrite drop_drop in Hp.
  repeat split; try lia; try assumption.
  intros j Hj Hlt.
  replace j with (Nat.min from (String.length s)
                  + (j - Nat.min from (String.length s))) by lia.
  rewrite <- drop_drop. rewrite Hmin; [discriminate | lia].
Qed.

Lemma indexOf_None (s p : string) (from : nat) :
  indexOf s p from = None ->
  forall j, from <= j -> ~ occurs_at p s j.
Proof.
  unfold indexOf, occurs_at. intros H j Hj.
  pose proof (find_from_None _ _ _ H (j - Nat.min from (String.length s))) as E.
  rewrite drop_drop in E.
  replace (Nat.min from (String.length s)
           + (j - Nat.min from (String.length s))) with j in E by lia.
  rewrite E. discriminate.
Qed.

(** [includes] decides that the pattern occurs somewhere. *)
Lemma includes_iff (s p : string) :
  includes s p = true <-> exists pre post, s = pre ++ p ++ post.
Proof.
  unfold includes. split.
  - destruct (indexOf s p 0) as [i|] eqn:E; [|discriminate].
    intros _. apply indexOf_Some in E as (_ & _ & Hocc & _).
    apply occurs_at_iff in Hocc as (pre & post & -> & _). eauto.
  - intros (pre & post & ->).
    destruct (indexOf (pre ++ p ++ post) p 0) as [i|] eqn:E; [reflexivity|].
    exfalso. eapply (indexOf_None _ _ _ E (String.length pre)); [lia|].
    unfold occurs_at. rewrite drop_append. apply is_prefix_iff. eauto.
Qed.

End JsFacts.


(* ================================================================== *)
(** * The retry decision engine *)
(* ================================================================== *)

Module RetryFacts.
Import Retry Spec.

Lemma exponentialBackoff_eq (attempt : nat) (baseMs maxMs : Z) :
  exponentialBackoff attempt baseMs maxMs
  = Z.min (baseMs * 2 ^ Z.of_nat attempt) maxMs.
Proof. reflexivity. Qed.

(** The size test of rule 2 decides [has_size_phrase]. *)
Lemma too_big_iff (errorText : string) :
  existsb (fun p => Js.includes errorText p) TOO_BIG_PATTERNS = true
  <-> has_size_phrase errorText.
Proof.
  rewrite existsb_exists. unfold has_size_phrase, contains.
  split; intros [p [Hin H]]; exists p; (split; [exact Hin|]);
    now apply JsFacts.includes_iff.
Qed.

(** Once the budget is used up the decision is not to retry, whatever
    the status. *)
Lemma decideRetry_exhausted (status : Z) (errorText : string)
      (attempt maxRetries : nat) :
  maxRetries <= attempt ->
  decideRetry status errorText attempt maxRetries = no_retry.
Proof.
  intros H. unfold decideRetry. apply Nat.leb_le in H. now rewrite H.
Qed.

(** C6. [decideRetry] is a total function that follows the decision
    table: an attempt index at or above the budget gives no retry;
    below it, 413 (or 400 with a size phrase in the error text) gives
    [reduce] with delay 0, 429 and 5xx give [backoff] with delay
    [min(1000 * 2^attempt, 30000)], 403 gives [backoff] with delay
    [min(500 * 2^attempt, 30000)], and anything else gives no retry. *)
Theorem decideRetry_table (status : Z) (errorText : string)
        (attempt maxRetries : nat) :
  let d := decideRetry status errorText attempt maxRetries in
  (maxRetries <= attempt -> d = no_retry) /\
  (attempt < maxRetries ->
   ((status = 413 \/ (status = 400 /\ has_size_phrase errorText))%Z ->
    d = retry_with reduce 0) /\
   ((status = 429 \/ 500 <= status < 600)%Z ->
    d = retry_with backoff (Z.min (1000 * 2 ^ Z.of_nat attempt) 30000)) /\
   (status = 403%Z ->
    d = retry_with backoff (Z.min (500 * 2 ^ Z.of_nat attempt) 30000)) /\
   (status <> 413%Z -> ~ (status = 400%Z /\ has_size_phrase errorText) ->
    status <> 429%Z -> ~ (500 <= status < 600)%Z -> status <> 403%Z ->
    d = no_retry)).
Proof.
  cbv zeta. unfold decideRetry. split.
  - intros H. apply Nat.leb_le in H. now rewrite H.
  - intros H. apply Nat.leb_gt in H. rewrite H.
    pose proof (too_big_iff errorText) as Hbig.
    destruct (existsb (fun p => Js.includes errorText p) TOO_BIG_PATTERNS).
    + assert (Hp : has_size_phrase errorText) by now apply Hbig.
      repeat split.
      * intros [->|[-> _]]; reflexivity.
      * intros [->|Hr]; [reflexivity|].
        destruct (Z.eqb_spec status 413); [lia|].
        destruct (Z.eqb_spec status 400); [lia|]. simpl.
        destruct (Z.eqb_spec status 429); [reflexivity|].
        destruct (Z.leb_spec 500 status); [|lia].
        destruct (Z.ltb_spec status 600); [|lia]. reflexivity.
      * intros ->. reflexivity.
      * intros H1 H2 H3 H4 H5.
        destruct (Z.eqb_spec status 413); [contradiction|].
        destruct (Z.eqb_spec status 400); [exfalso; apply H2; now split|].
        simpl.
        destruct (Z.eqb_spec status 429); [contradiction|].
        destruct (Z.leb_spec 500 status), (Z.ltb_spec status 600);
          simpl; try lia.
        all: destruct (Z.eqb_spec status 403); [contradiction|reflexivity].
    + assert (Hp : ~ has_size_phrase errorText)
        by (intros Hp; apply Hbig in Hp; discriminate).
      rewrite andb_false_r, orb_false_r.
      repeat split.
      * intros [->|[_ Hc]]; [reflexivity | contradiction].
      * intros [->|Hr]; [reflexivity|].
        destruct (Z.eqb_spec status 413); [lia|].
        destruct (Z.eqb_spec status 429); [reflexivity|].
        destruct (Z.leb_spec 500 status); [|lia].
        destruct (Z.ltb_spec status 600); [|lia]. reflexivity.
      * intros ->. reflexivity.
      * intros H1 H2 H3 H4 H5.
        destruct (Z.eqb_spec status 413); [contradiction|].
        destruct (Z.eqb_spec status 429); [contradiction|].
        destruct (Z.leb_spec 500 status), (Z.ltb_spec status 600);
          simpl; try lia.
        all: destruct (Z.eqb_spec status 403); [contradiction|reflexivity].
Qed.

End RetryFacts.


(* ================================================================== *)
(** * The stream orchestrator *)
(* ================================================================== *)

Module StreamFacts.
Import Output EventParser Stream Spec.

(** ** The event loop *)

(** Only a content event touches the text, the comparison value, the
    segmenter and the shared objects. *)
Lemma handleEvent_other (a : Attempt) (e : KiroStreamEvent) :
  is_content e = false ->
  let a' := handleEvent a e in
  a'.(lastContentData) = a.(lastContentData)
  /\ a'.(shared) = a.(shared)
  /\ a'.(warnings) = a.(warnings)
  /\ a'.(totalContent) = a.(totalContent)
  /\ a'.(textBlockIndex) = a.(textBlockIndex)
  /\ a'.(thinkingParser) = a.(thinkingParser).
Proof.
  destruct e; simpl; try discriminate; intros _; auto 10.
  - destruct (currentToolCall a) as [c|];
      [destruct (strict_eq (toolUseId c) toolUseId0)|];
      destruct (truthy_opt stop); simpl; auto 10.
  - destruct (currentToolCall a); simpl; auto 10.
  - destruct (currentToolCall a); [destruct (truthy stop)|]; simpl; auto 10.
Qed.

Lemma handleEvents_other (pre : list KiroStreamEvent) (a : Attempt) :
  forallb (fun e => negb (is_content e)) pre = true ->
  let a' := handleEvents a pre in
  a'.(lastContentData) = a.(lastContentData)
  /\ a'.(shared) = a.(shared)
  /\ a'.(warnings) = a.(warnings)
  /\ a'.(totalContent) = a.(totalContent)
  /\ a'.(textBlockIndex) = a.(textBlockIndex)
  /\ a'.(thinkingParser) = a.(thinkingParser).
Proof.
  revert a; induction pre as [|e pre IH]; intros a; simpl.
  - auto 10.
  - rewrite andb_true_iff, negb_true_iff. intros [He Hpre].
    destruct (handleEvent_other a e He) as (H1 & H2 & H3 & H4 & H5 & H6).
    destruct (IH (handleEvent a e) Hpre) as (I1 & I2 & I3 & I4 & I5 & I6).
    unfold handleEvents in *. cbv zeta in *.
    repeat split; congruence.
Qed.

Lemma handleEvents_app (a : Attempt) (l1 l2 : list KiroStreamEvent) :
  handleEvents a (l1 ++ l2) = handleEvents (handleEvents a l1) l2.
Proof. apply fold_left_app. Qed.

(** An empty content event is a repeat as long as the comparison value
    is the empty string. *)
Lemma empty_content_dropped (a : Attempt) :
  a.(lastContentData) = JStr EmptyString ->
  handleEvent a (content (JStr EmptyString)) = a.
Proof. simpl. intros ->. reflexivity. Qed.

(** C10. While no content event has been seen in an attempt, a content
    event that carries the empty string is dropped by the comparison
    with the last-seen value, which starts as the empty string: the
    attempt goes on as if the event had not been there, no text slot is
    opened, nothing is pushed on the stream and nothing is added to the
    text that is counted for tokens. *)
Theorem leading_empty_content_is_dropped
        (thinking : bool) (sh : Shared) (w : list Diagnostic)
        (pre post : list KiroStreamEvent) :
  forallb (fun e => negb (is_content e)) pre = true ->
  let a := handleEvents (newAttempt thinking sh w)
                        (pre ++ [content (JStr EmptyString)]) in
  handleEvents (newAttempt thinking sh w)
               (pre ++ content (JStr EmptyString) :: post)
  = handleEvents (newAttempt thinking sh w) (pre ++ post)
  /\ a.(textBlockIndex) = None
  /\ a.(shared) = sh
  /\ a.(totalContent) = EmptyString
  /\ a.(thinkingParser) = (newAttempt thinking sh w).(thinkingParser).
Proof.
  intros Hpre.
  destruct (handleEvents_other pre (newAttempt thinking sh w) Hpre)
    as (H1 & H2 & H3 & H4 & H5 & H6).
  cbv zeta in *.
  assert (Hdrop : handleEvents (newAttempt thinking sh w)
                               (pre ++ [content (JStr EmptyString)])
                  = handleEvents (newAttempt thinking sh w) pre).
  { rewrite handleEvents_app. simpl. now apply empty_content_dropped. }
  rewrite Hdrop. repeat split; try assumption.
  rewrite !handleEvents_app. simpl handleEvents at 2.
  change (handleEvents ?x (?e :: post))
    with (handleEvents (handleEvent x e) post).
  rewrite empty_content_dropped; [reflexivity | assumption].
Qed.

Lemma leading_empty_content_is_dropped_witness :
  let pre := [contextUsage (JNum "10"); toolUseStop (JBool true)] in
  let a := handleEvents (newAttempt false emptyShared [])
                        (pre ++ [content (JStr EmptyString)]) in
  a.(textBlockIndex) = None /\ a.(shared) = emptyShared.
Proof.
  intros pre a.
  destruct (leading_empty_content_is_dropped
              false emptyShared [] pre [] eq_refl) as (_ & H1 & H2 & _).
  split; [exact H1 | exact H2].
Defined.

(** ** Content deduplication *)

Lemma text_deltas_app (l1 l2 : list AssistantMessageEvent) :
  text_deltas (l1 ++ l2) = (text_deltas l1 ++ text_deltas l2)%list.
Proof. apply flat_map_app. Qed.

(** Without segmenter, a content event that is not a repeat pushes one
    text delta, its payload. *)
Lemma onContent_plain (a : Attempt) (data : json) :
  a.(thinkingParser) = None ->
  let a' := onContent data a in
  a'.(thinkingParser) = None
  /\ a'.(lastContentData) = data
  /\ a'.(totalContent) = a.(totalContent) ++ toString data
  /\ text_deltas a'.(shared).(stream_events)
     = (text_deltas a.(shared).(stream_events) ++ [data])%list.
Proof.
  intros Hp. unfold onContent. rewrite Hp.
  destruct (textBlockIndex a) as [idx|]; simpl;
    rewrite ?text_deltas_app; simpl; rewrite ?app_nil_r; auto.
Qed.

(** With the segmenter, it is the chunk the segmenter is given. *)
Lemma onContent_segmenter (a : Attempt) (data : json)
      (p : ThinkingParser.ThinkingTagParser) :
  a.(thinkingParser) = Some p ->
  let a' := onContent data a in
  let st := ThinkingParser.processChunk (toString data) (a.(shared), p) in
  a'.(thinkingParser) = Some (snd st)
  /\ a'.(shared) = fst st
  /\ a'.(lastContentData) = data
  /\ a'.(totalContent) = a.(totalContent) ++ toString data.
Proof.
  intros Hp. unfold onContent. rewrite Hp.
  destruct (ThinkingParser.processChunk (toString data) (shared a, p));
    simpl; auto.
Qed.

Lemma nth_error_update_at (l : list ContentBlock) (i : nat)
      (f : ContentBlock -> ContentBlock) (b : ContentBlock) :
  nth_error l i = Some b -> nth_error (update_at i f l) i = Some (f b).
Proof.
  revert i; induction l as [|x l IH]; intros [|i]; simpl; try discriminate.
  - now intros [= ->].
  - apply IH.
Qed.

Lemma nth_error_last (l : list ContentBlock) (b : ContentBlock) :
  nth_error (l ++ [b]) (List.length l) = Some b.
Proof. induction l; simpl; auto. Qed.

(** Without segmenter, the text slot holds what the kept content events
    carried. *)
Lemma onContent_plain_text (a : Attempt) (data : json) :
  a.(thinkingParser) = None ->
  let a' := onContent data a in
  match a.(textBlockIndex) with
  | Some idx =>
      forall t, nth_error a.(shared).(output_content) idx = Some (TextContent t) ->
                a'.(textBlockIndex) = Some idx
                /\ nth_error a'.(shared).(output_content) idx
                   = Some (TextContent (t ++ toString data))
  | None =>
      a'.(textBlockIndex) = Some (List.length a.(shared).(output_content))
      /\ nth_error a'.(shared).(output_content)
                   (List.length a.(shared).(output_content))
         = Some (TextContent (toString data))
  end.
Proof.
  intros Hp. unfold onContent. rewrite Hp.
  destruct (textBlockIndex a) as [idx|]; simpl.
  - intros t Ht. split; [reflexivity|].
    now rewrite (nth_error_update_at _ _ _ _ Ht).
  - split; [reflexivity|].
    now rewrite (nth_error_update_at _ _ _ _ (nth_error_last _ _)).
Qed.

Lemma dedup_plain_text (fs : list string) (a : Attempt) (prev : string)
      (idx : nat) (t : string) :
  a.(thinkingParser) = None ->
  a.(lastContentData) = JStr prev ->
  a.(textBlockIndex) = Some idx ->
  nth_error a.(shared).(output_content) idx = Some (TextContent t) ->
  let a' := handleEvents a (content_events fs) in
  a'.(textBlockIndex) = Some idx
  /\ nth_error a'.(shared).(output_content) idx
     = Some (TextContent (t ++ concat_all (drop_repeats (Some prev) fs))).
Proof.
  revert a prev t; induction fs as [|f fs IH];
    intros a prev t Hp Hlast Hidx Ht; simpl.
  - now rewrite JsFacts.append_empty_r.
  - rewrite Hlast. simpl strict_eq.
    destruct (String.eqb_spec f prev) as [->|Hne].
    + now apply IH.
    + pose proof (onContent_plain a (JStr f) Hp) as (H1 & H2 & _).
      pose proof (onContent_plain_text a (JStr f) Hp) as H3.
      cbv zeta in H3. rewrite Hidx in H3. destruct (H3 t Ht) as [H4 H5].
      destruct (IH (onContent (JStr f) a) f _ H1 H2 H4 H5) as [I1 I2].
      unfold handleEvents, content_events in *. cbv zeta in *.
      rewrite I1, I2. simpl. now rewrite JsFacts.append_assoc.
Qed.

(** The same from the start of an attempt, where no text slot is open:
    the first kept fragment opens it at the end of the output. *)
Lemma dedup_plain_text_new (fs : list string) (a : Attempt) (prev : string) :
  a.(thinkingParser) = None ->
  a.(lastContentData) = JStr prev ->
  a.(textBlockIndex) = None ->
  drop_repeats (Some prev) fs <> [] ->
  let a' := handleEvents a (content_events fs) in
  let idx := List.length a.(shared).(output_content) in
  a'.(textBlockIndex) = Some idx
  /\ text_of idx a'.(shared) = concat_all (drop_repeats (Some prev) fs).
Proof.
  revert a prev; induction fs as [|f fs IH];
    intros a prev Hp Hlast Hidx Hkept; simpl in *; [congruence|].
  rewrite Hlast. simpl strict_eq.
  destruct (String.eqb_spec f prev) as [->|Hne].
  - now apply IH.
  - pose proof (onContent_plain a (JStr f) Hp) as (H1 & H2 & _).
    pose proof (onContent_plain_text a (JStr f) Hp) as H3.
    cbv zeta in H3. rewrite Hidx in H3. destruct H3 as [H4 H5].
    destruct (dedup_plain_text fs (onContent (JStr f) a) f _ _ H1 H2 H4 H5)
      as [I1 I2].
    unfold handleEvents, content_events, text_of in *. cbv zeta in *.
    rewrite I1, I2. auto.
Qed.

Lemma dedup_plain (fs : list string) (a : Attempt) (prev : string) :
  a.(thinkingParser) = None ->
  a.(lastContentData) = JStr prev ->
  let a' := handleEvents a (content_events fs) in
  text_deltas a'.(shared).(stream_events)
  = (text_deltas a.(shared).(stream_events)
     ++ map JStr (drop_repeats (Some prev) fs))%list
  /\ a'.(totalContent)
     = a.(totalContent) ++ concat_all (drop_repeats (Some prev) fs).
Proof.
  revert a prev; induction fs as [|f fs IH]; intros a prev Hp Hlast; simpl.
  - now rewrite app_nil_r, JsFacts.append_empty_r.
  - rewrite Hlast. simpl strict_eq.
    destruct (String.eqb_spec f prev) as [->|Hne].
    + apply IH; assumption.
    + destruct (onContent_plain a (JStr f) Hp) as (H1 & H2 & H3 & H4).
      destruct (IH (onContent (JStr f) a) f H1 H2) as [I1 I2].
      unfold handleEvents, content_events in *. cbv zeta in *.
      rewrite I1, I2, H3, H4. simpl.
      now rewrite <- app_assoc, JsFacts.append_assoc.
Qed.

Lemma dedup_segmenter (fs : list string) (a : Attempt) (prev : string)
      (p : ThinkingParser.ThinkingTagParser) :
  a.(thinkingParser) = Some p ->
  a.(lastContentData) = JStr prev ->
  let a' := handleEvents a (content_events fs) in
  let st := fold_left (fun st f => ThinkingParser.processChunk f st)
                      (drop_repeats (Some prev) fs) (a.(shared), p) in
  a'.(thinkingParser) = Some (snd st)
  /\ a'.(shared) = fst st
  /\ a'.(totalContent)
     = a.(totalContent) ++ concat_all (drop_repeats (Some prev) fs).
Proof.
  revert a prev p; induction fs as [|f fs IH]; intros a prev p Hp Hlast; simpl.
  - now rewrite JsFacts.append_empty_r.
  - rewrite Hlast. simpl strict_eq.
    destruct (String.eqb_spec f prev) as [->|Hne].
    + apply IH; assumption.
    + destruct (onContent_segmenter a (JStr f) p Hp) as (H1 & H2 & H3 & H4).
      simpl toString in *.
      destruct (IH (onContent (JStr f) a) f _ H1 H3) as (I1 & I2 & I3).
      unfold handleEvents, content_events in *. cbv zeta in *.
      rewrite I1, I2, I3, H2, H4. simpl.
      rewrite <- surjective_pairing, JsFacts.append_assoc. auto.
Qed.

(** C7, as the code has it.  Of a sequence of content fragments, the
    orchestrator drops every fragment identical to the one immediately
    before it, and an empty fragment that comes first (the comparison
    value starts as the empty string); it passes on all the others
    verbatim and in order.  Without segmenter each of them is one text
    delta: "Hello", "Hello", " world" give the deltas "Hello", " world"
    and "A", "B", "A" give "A", "B", "A".  With the segmenter they are
    the chunks it is given.  In both cases they make up the text that is
    counted for tokens, and without segmenter the text of the text
    slot. *)
Theorem content_dedup (fs : list string) (sh : Shared) (w : list Diagnostic) :
  let kept := drop_repeats (Some EmptyString) fs in
  (let a := handleEvents (newAttempt false sh w) (content_events fs) in
   text_deltas a.(shared).(stream_events)
   = (text_deltas sh.(stream_events) ++ map JStr kept)%list
   /\ a.(totalContent) = concat_all kept
   /\ (kept <> [] ->
       a.(textBlockIndex) = Some (List.length sh.(output_content))
       /\ text_of (List.length sh.(output_content)) a.(shared)
          = concat_all kept))
  /\ (let a := handleEvents (newAttempt true sh w) (content_events fs) in
      let st := fold_left (fun st f => ThinkingParser.processChunk f st)
                          kept (sh, ThinkingParser.new) in
      a.(thinkingParser) = Some (snd st)
      /\ a.(shared) = fst st
      /\ a.(totalContent) = concat_all kept)
  /\ text_deltas
       (handleEvents (newAttempt false emptyShared [])
                     (content_events ["Hello"; "Hello"; " world"]))
       .(shared).(stream_events)
     = [JStr "Hello"; JStr " world"]
  /\ text_deltas
       (handleEvents (newAttempt false emptyShared [])
                     (content_events ["A"; "B"; "A"]))
       .(shared).(stream_events)
     = [JStr "A"; JStr "B"; JStr "A"].
Proof.
  cbv zeta. split; [|split; [|split; reflexivity]].
  - destruct (dedup_plain fs (newAttempt false sh w) EmptyString eq_refl eq_refl)
      as [H1 H2].
    split; [exact H1 | split; [exact H2|]].
    intros Hkept.
    now apply (dedup_plain_text_new fs (newAttempt false sh w) EmptyString).
  - apply (dedup_segmenter fs (newAttempt true sh w) EmptyString
                           ThinkingParser.new); reflexivity.
Qed.

(** The claim as it is written fails twice: an empty fragment that
    comes first is not identical to a fragment before it, yet produces
    no delta; and with the segmenter the deltas are not the fragments. *)
Lemma content_dedup_as_stated_fails :
  text_deltas
    (handleEvents (newAttempt false emptyShared [])
                  (content_events [EmptyString; "A"])).(shared).(stream_events)
  <> map JStr (drop_repeats None [EmptyString; "A"])
  /\ (let a := handleEvents (newAttempt true emptyShared [])
                            (content_events ["Hello"; "Hello"; " world"]) in
      text_deltas a.(shared).(stream_events) = []
      /\ match a.(thinkingParser) with
         | Some p =>
             text_deltas
               (fst (ThinkingParser.finalize (a.(shared), p))).(stream_events)
             = [JStr "Hello world"]
         | None => False
         end).
Proof. split; [vm_compute; discriminate | vm_compute; split; reflexivity]. Qed.

(** ** Stop reason *)

Section StopReasonFacts.
Context {host : Host}.

Lemma decideStopReason_assembled (received : bool)
      (calls : list KiroToolCallState) :
  decideStopReason received calls = stop_reason_of_assembled received calls.
Proof. destruct calls, received; reflexivity. Qed.

(** The blocks that the loop over the tool calls pushes are those of the
    calls that survive the filter. *)
Lemma emitToolCall_content (calls : list KiroToolCallState) (sh : Shared)
      (w : list Diagnostic) :
  (fst (fold_left emitToolCall calls (sh, w))).(output_content)
  = (sh.(output_content) ++ flat_map block_of calls)%list.
Proof.
  revert sh w; induction calls as [|tc calls IH]; intros sh w; simpl.
  - now rewrite app_nil_r.
  - unfold block_of at 1.
    destruct (Js.is_empty (Js.trim (input tc))).
    + now rewrite IH.
    + destruct (JSON_parse (input tc)); rewrite IH; simpl;
        [now rewrite <- app_assoc | reflexivity].
Qed.

Lemma block_of_survives (tc : KiroToolCallState) :
  block_of tc = [] <-> survives tc = false.
Proof.
  unfold block_of, survives.
  destruct (Js.is_empty (Js.trim (input tc))); simpl; [tauto|].
  destruct (JSON_parse (input tc)); split; congruence.
Qed.

Lemma finalizeAttempt_stopReason (a : Attempt) :
  (finalizeAttempt a).(final_stopReason)
  = decideStopReason a.(receivedContextUsage) (finalizeAttempt a).(final_toolCalls).
Proof.
  unfold finalizeAttempt.
  destruct (thinkingParser a) as [p|].
  - destruct (bracketFallback _ _ _) as [calls sh].
    destruct (fold_left emitToolCall calls _). reflexivity.
  - destruct (bracketFallback _ _ _) as [calls sh].
    destruct (fold_left emitToolCall calls _). reflexivity.
Qed.

Lemma finalizeAttempt_done (a : Attempt) :
  exists evs,
    (finalizeAttempt a).(final_shared).(stream_events)
    = (evs ++ [done (finalizeAttempt a).(final_stopReason)])%list.
Proof.
  unfold finalizeAttempt.
  destruct (thinkingParser a) as [p|].
  - destruct (bracketFallback _ _ _) as [calls sh].
    destruct (fold_left emitToolCall calls _) as [sh' w']. simpl. eauto.
  - destruct (bracketFallback _ _ _) as [calls sh].
    destruct (fold_left emitToolCall calls _) as [sh' w']. simpl. eauto.
Qed.

(** The bracket fallback leaves assembled tool calls as they are. *)
Lemma bracketFallback_assembled (calls : list KiroToolCallState)
      (idx : option nat) (sh : Shared) :
  calls <> [] -> bracketFallback calls idx sh = (calls, sh).
Proof. destruct calls; [congruence|]. reflexivity. Qed.

Lemma finalizeAttempt_assembled (a : Attempt) :
  archiveCurrent a <> [] ->
  (finalizeAttempt a).(final_toolCalls) = archiveCurrent a.
Proof.
  intros H. unfold finalizeAttempt.
  destruct (thinkingParser a) as [p|];
    rewrite (bracketFallback_assembled _ _ _ H);
    destruct (fold_left emitToolCall _ _); reflexivity.
Qed.

(** C1, as the code has it.  When an attempt that was neither timed
    out nor aborted is finalized, the stop reason of the output message,
    which the terminal [done] event carries, is [toolUse] if any tool
    call was assembled (natively, or else by the bracket fallback),
    whether or not the input filter then keeps it; else [length] if no
    context-usage event was observed during the attempt; else [stop].
    So it is [toolUse] whenever a tool call survives the filter, and it
    is what the rule over the surviving calls gives unless every
    assembled call is dropped. *)
Theorem stop_reason_at_finalize (a : Attempt) :
  let f := finalizeAttempt a in
  f.(final_stopReason)
  = stop_reason_of_assembled a.(receivedContextUsage) f.(final_toolCalls)
  /\ (exists evs,
         f.(final_shared).(stream_events)
         = (evs ++ [done f.(final_stopReason)])%list)
  /\ (archiveCurrent a <> [] -> f.(final_toolCalls) = archiveCurrent a)
  /\ (existsb survives f.(final_toolCalls) = true ->
      f.(final_stopReason) = reason_toolUse)
  /\ (f.(final_toolCalls) = [] \/ existsb survives f.(final_toolCalls) = true ->
      f.(final_stopReason)
      = stop_reason_of_survivors a.(receivedContextUsage) f.(final_toolCalls)).
Proof.
  cbv zeta.
  rewrite finalizeAttempt_stopReason, decideStopReason_assembled.
  split; [reflexivity|].
  split; [rewrite <- decideStopReason_assembled, <- finalizeAttempt_stopReason;
          apply finalizeAttempt_done|].
  split; [apply finalizeAttempt_assembled|].
  split.
  - destruct (final_toolCalls (finalizeAttempt a)); [discriminate|reflexivity].
  - unfold stop_reason_of_survivors.
    intros [-> | H]; [reflexivity|]. rewrite H.
    destruct (final_toolCalls (finalizeAttempt a)); [discriminate|reflexivity].
Qed.

(** A tool call with an empty input and a context-usage event, on any
    platform: the call is dropped and the stop reason is [toolUse]. *)
Lemma dropped_call_counts :
  let a := handleEvents (newAttempt false emptyShared [])
             [toolUse (JStr "bash") (JStr "tc1") EmptyString (Some (JBool true));
              contextUsage (JNum "10")] in
  let f := finalizeAttempt a in
  a.(receivedContextUsage) = true
  /\ existsb survives f.(final_toolCalls) = false
  /\ f.(final_shared).(output_content) = []
  /\ f.(final_stopReason) = reason_toolUse
  /\ stop_reason_of_survivors a.(receivedContextUsage) f.(final_toolCalls)
     = reason_stop.
Proof. cbv zeta. repeat split. Qed.

End StopReasonFacts.

(** The claim as it is written fails: no tool call survives, a
    context-usage event was observed, and the stop reason is [toolUse],
    not [stop]. *)
Lemma stop_reason_of_survivors_fails :
  let a := handleEvents (newAttempt false emptyShared [])
             [toolUse (JStr "bash") (JStr "tc1") EmptyString (Some (JBool true));
              contextUsage (JNum "10")] in
  let f := @finalizeAttempt Hosts.sample a in
  f.(final_shared).(output_content) = []
  /\ f.(final_stopReason)
     <> @stop_reason_of_survivors Hosts.sample
          a.(receivedContextUsage) f.(final_toolCalls).
Proof.
  cbv zeta.
  destruct (@dropped_call_counts Hosts.sample) as (_ & _ & H1 & H2 & H3).
  split; [exact H1|]. rewrite H2, H3. discriminate.
Qed.

Lemma stop_reason_at_finalize_witness :
  let a := handleEvents (newAttempt false emptyShared [])
             [toolUse (JStr "bash") (JStr "tc1") "{}" (Some (JBool true))] in
  (@finalizeAttempt Hosts.sample a).(final_stopReason) = reason_toolUse.
Proof.
  intros a.
  destruct (@stop_reason_at_finalize Hosts.sample a) as (_ & _ & _ & H & _).
  apply H. reflexivity.
Defined.

(** ** The attempt loop *)

Section AttemptLoopFacts.
Context {host : Host}.

Lemma backoff_delay_positive (i : nat) :
  (0 <? Z.min (1000 * 2 ^ Z.of_nat i) 30000)%Z = true.
Proof.
  apply Z.ltb_lt. apply Z.min_glb_lt; [|lia].
  assert (0 < 2 ^ Z.of_nat i)%Z by (apply Z.pow_pos_nonneg; lia). lia.
Qed.

(** With [k] retries left and every response rate-limited, the loop
    calls [fetch] [k + 1] more times and then throws the API error of the
    last response. *)
Lemma attemptLoop_rate_limited (env : Env) (m : nat) (sh : Shared)
      (w : list Diagnostic) :
  always_status env 429 ->
  forall k fuel retryCount fetches delays reductions,
    retryCount + k = m -> k < fuel ->
    exists r,
      env.(fetch) (fetches + k) = FetchResolves r
      /\ attemptLoop fuel env m retryCount sh w fetches delays reductions
         = fail env (ApiError 429 r.(statusText) r.(text)) sh w
                (S (fetches + k))
                (delays ++ backoff_delays retryCount k)%list reductions.
Proof.
  intros Hall. induction k as [|k IH];
    intros fuel retryCount fetches delays reductions Hm Hfuel;
    (destruct fuel as [|fuel]; [lia|]); simpl attemptLoop;
    destruct (Hall fetches) as [r [Hr Hs]].
  - replace (retryCount <=? m)%nat with true by (symmetry; apply Nat.leb_le; lia).
    rewrite Nat.add_0_r, Hr. exists r. split; [reflexivity|].
    unfold ok. rewrite Hs. simpl.
    unfold Retry.decideRetry.
    replace (m <=? retryCount)%nat with true by (symmetry; apply Nat.leb_le; lia).
    simpl. unfold backoff_delays. simpl. now rewrite app_nil_r.
  - replace (retryCount <=? m)%nat with true by (symmetry; apply Nat.leb_le; lia).
    rewrite Hr. unfold ok. rewrite Hs. simpl.
    unfold Retry.decideRetry.
    replace (m <=? retryCount)%nat with false by (symmetry; apply Nat.leb_gt; lia).
    simpl. unfold Retry.exponentialBackoff.
    rewrite backoff_delay_positive.
    destruct (IH fuel (S retryCount) (S fetches)
                 (delays ++ [Z.min (1000 * 2 ^ Z.of_nat retryCount) 30000])%list
                 reductions) as [r' [Hr' Hrun]]; [lia | lia |].
    exists r'. replace (fetches + S k) with (S fetches + k) by lia.
    split; [exact Hr'|]. rewrite Hrun.
    unfold backoff_delays. simpl. now rewrite <- app_assoc.
Qed.

(** The loop always ends the stream, once, with a terminal event, after
    at most [maxRetries + 1 - retryCount] calls of [fetch]: the fuel of
    the model is never used up. *)
Lemma attemptLoop_terminates (env : Env) (m : nat) :
  forall fuel retryCount sh w fetches delays reductions,
    retryCount <= m -> m - retryCount < fuel ->
    ends_once (fetches + (m - retryCount) + 1)
              (attemptLoop fuel env m retryCount sh w fetches delays reductions).
Proof.
  induction fuel as [|fuel IH];
    intros retryCount sh w fetches delays reductions Hle Hfuel; [lia|].
  simpl attemptLoop.
  replace (retryCount <=? m)%nat with true by (symmetry; apply Nat.leb_le; lia).
  simpl negb. cbv iota.
  assert (Hfail : forall e sh' w' d r,
             ends_once (fetches + (m - retryCount) + 1)
                       (fail env e sh' w' (S fetches) d r)).
  { intros e sh' w' d r. unfold ends_once. simpl.
    split; [reflexivity | split; [lia | do 2 eexists; split; reflexivity]]. }
  assert (Hnext : forall sh' w' d r,
             retryCount < m ->
             ends_once (fetches + (m - retryCount) + 1)
                       (attemptLoop fuel env m (S retryCount) sh' w'
                                    (S fetches) d r)).
  { intros sh' w' d r Hlt.
    destruct (IH (S retryCount) sh' w' (S fetches) d r) as (H1 & H2 & H3);
      [lia | lia |].
    split; [exact H1 | split; [lia | exact H3]]. }
  destruct (fetch env fetches) as [|response]; [apply Hfail|].
  destruct (ok response); simpl negb; cbv iota.
  - destruct (body response) as [b|]; [|apply Hfail].
    destruct (readBody b _) as [how a].
    destruct how.
    + unfold ends_once. simpl. destruct (finalizeAttempt_done a) as [evs Hevs].
      split; [reflexivity | split; [lia|]]. rewrite Hevs.
      do 2 eexists; split; reflexivity.
    + destruct (Nat.ltb_spec retryCount m); [now apply Hnext | apply Hfail].
    + destruct (Nat.ltb_spec retryCount m); [now apply Hnext | apply Hfail].
    + apply Hfail.
  - destruct (Nat.le_gt_cases m retryCount) as [Hge|Hlt].
    + rewrite RetryFacts.decideRetry_exhausted by assumption. simpl.
      apply Hfail.
    + destruct (Retry.shouldRetry _); [|apply Hfail].
      destruct (Retry.strategy _); now apply Hnext.
Qed.

(** [streamKiro] terminates exactly once with one terminal event, after
    at most four calls of [fetch]. *)
Lemma streamKiro_terminates (env : Env) :
  ends_once (maxRetries + 1) (streamKiro env).
Proof.
  assert (Hno : ends_once (maxRetries + 1)
                          (fail env NoCredentials emptyShared [] 0 [] 0)).
  { unfold ends_once. simpl.
    split; [reflexivity | split; [lia|]].
    exists []. eexists. split; reflexivity. }
  unfold streamKiro.
  destruct (apiKey env) as [[|c key]|]; try exact Hno.
  apply (attemptLoop_terminates env maxRetries (S (S maxRetries)) 0
           emptyShared [] 0 [] 0); unfold maxRetries; lia.
Qed.

(** C9. With credentials set and no cancellation, if every HTTP
    response has status 429 the orchestrator calls [fetch] exactly
    [maxRetries + 1] times (4 with the budget of 3 retries; for any
    budget [m] the loop makes [m + 1] calls), waiting 1000, 2000 and
    4000 ms in between, and then ends the stream once, with a single
    event: the terminal error event, whose stop reason is [error]. *)
Theorem rate_limited_budget (env : Env) (key : string) :
  env.(apiKey) = Some key -> key <> EmptyString ->
  always_status env 429 ->
  env.(signal_aborted) = false ->
  let run := streamKiro env in
  run.(fetches) = maxRetries + 1
  /\ run.(fetches) = 4
  /\ run.(ended) = 1
  /\ run.(stopReason) = reason_error
  /\ (exists r,
         env.(fetch) maxRetries = FetchResolves r
         /\ run.(run_shared).(stream_events)
            = [error reason_error (ApiError 429 r.(statusText) r.(text))])
  /\ run.(delays) = [1000; 2000; 4000]%Z
  /\ (forall m,
         (attemptLoop (S (S m)) env m 0 emptyShared [] 0 [] 0).(fetches)
         = m + 1).
Proof.
  intros Hkey Hne Hall Hsig. cbv zeta.
  assert (Hloop : forall m, exists r,
             env.(fetch) m = FetchResolves r
             /\ attemptLoop (S (S m)) env m 0 emptyShared [] 0 [] 0
                = fail env (ApiError 429 r.(statusText) r.(text)) emptyShared []
                       (S m) (backoff_delays 0 m) 0).
  { intros m.
    destruct (attemptLoop_rate_limited env m emptyShared [] Hall
                m (S (S m)) 0 0 [] 0) as [r [Hr Hrun]]; [lia | lia |].
    exists r. split; [exact Hr | exact Hrun]. }
  assert (Hgen : forall m,
             (attemptLoop (S (S m)) env m 0 emptyShared [] 0 [] 0).(fetches)
             = m + 1).
  { intros m. destruct (Hloop m) as [r' [_ Hrun']]. rewrite Hrun'.
    simpl. lia. }
  unfold streamKiro. rewrite Hkey.
  destruct key as [|c key]; [congruence|].
  destruct (Hloop maxRetries) as [r [Hr Hrun]]. rewrite Hrun.
  unfold fail. rewrite Hsig. simpl.
  repeat split; try reflexivity; try exact Hgen.
  exists r. split; [exact Hr | reflexivity].
Qed.

End AttemptLoopFacts.

Lemma rate_limited_budget_witness :
  let env := {| apiKey := Some "tok";
                thinkingEnabled := true;
                fetch := fun _ =>
                  FetchResolves {| status := 429;
                                   statusText := "Too Many Requests";
                                   text := "Rate limited";
                                   body := None |};
                signal_aborted := false |} in
  (@streamKiro Hosts.sample env).(fetches) = 4
  /\ (@streamKiro Hosts.sample env).(stopReason) = reason_error.
Proof.
  intros env.
  assert (Hall : always_status env 429)
    by (intros n; eexists; split; reflexivity).
  destruct (@rate_limited_budget Hosts.sample env "tok" eq_refl
              ltac:(discriminate) Hall eq_refl) as (_ & H4 & _ & Hr & _).
  split; [exact H4 | exact Hr].
Defined.

End StreamFacts.


(* ================================================================== *)
(** * The thinking segmenter *)
(* ================================================================== *)

Module ThinkingFacts.
Import Output ThinkingParser Spec.

Lemma indexOf_None_of_no_tag (tag buffer : string) :
  no_tag tag buffer -> Js.indexOf buffer tag 0 = None.
Proof.
  intros H. destruct (Js.indexOf buffer tag 0) as [i|] eqn:E; [|reflexivity].
  apply JsFacts.indexOf_Some in E as (_ & _ & Hocc & _).
  destruct (H i Hocc).
Qed.

Lemma no_tag_drop (tag buffer : string) (k : nat) :
  no_tag tag buffer -> no_tag tag (Js.drop k buffer).
Proof.
  intros H i Hocc. apply (H (k + i)).
  unfold Js.occurs_at in *. now rewrite <- JsFacts.drop_drop.
Qed.

Lemma no_open_tag_drop (buffer : string) (k : nat) :
  no_open_tag buffer -> no_open_tag (Js.drop k buffer).
Proof.
  intros H v i Hv. apply no_tag_drop. intros j. now apply H.
Qed.

Lemma bestMatch_None (buffer : string) :
  no_open_tag buffer -> bestMatch buffer = None.
Proof.
  intros H. unfold bestMatch.
  generalize (@None (nat * Variant)).
  assert (Hall : forall v, In v THINKING_TAG_VARIANTS ->
                           Js.indexOf buffer v.(open) 0 = None).
  { intros v Hv. apply indexOf_None_of_no_tag. intros i. now apply H. }
  induction THINKING_TAG_VARIANTS as [|v l IH]; intros acc; simpl.
  - reflexivity.
  - rewrite (Hall v) by (left; reflexivity).
    apply IH. intros v' Hv'. apply Hall. now right.
Qed.

Lemma MAX_OPEN_TAG_LEN_eq : MAX_OPEN_TAG_LEN = 11.
Proof. reflexivity. Qed.

Lemma MAX_CLOSE_TAG_LEN_eq : MAX_CLOSE_TAG_LEN = 12.
Proof. reflexivity. Qed.

(** [emitText] pushes one text delta, after the opening of the text slot
    if there was none, and leaves the phase and the buffer alone. *)
Lemma emitText_spec (text : string) (sh : Shared) (p : ThinkingTagParser) :
  let st := emitText text (sh, p) in
  (exists idx,
      (snd st).(textBlockIndex) = Some idx
      /\ pushed sh (fst st)
                (match p.(textBlockIndex) with
                 | Some _ => [text_delta idx (JStr text)]
                 | None => [text_start idx; text_delta idx (JStr text)]
                 end))
  /\ (snd st).(textBuffer) = p.(textBuffer)
  /\ (snd st).(inThinking) = p.(inThinking)
  /\ (snd st).(thinkingExtracted) = p.(thinkingExtracted)
  /\ (snd st).(thinkingBlockIndex) = p.(thinkingBlockIndex)
  /\ (snd st).(activeEndTag) = p.(activeEndTag).
Proof.
  unfold emitText, pushed. destruct (textBlockIndex p) as [idx|] eqn:E; simpl.
  - split; [exists idx; split; [assumption | reflexivity] | auto 10].
  - split; [eexists; split; [reflexivity|] | auto 10].
    now rewrite <- app_assoc.
Qed.

Lemma emitThinking_spec (text : string) (sh : Shared) (p : ThinkingTagParser) :
  let st := emitThinking text (sh, p) in
  (exists idx,
      (snd st).(thinkingBlockIndex) = Some idx
      /\ pushed sh (fst st)
                (match p.(thinkingBlockIndex) with
                 | Some _ => [thinking_delta idx text]
                 | None => [thinking_start idx; thinking_delta idx text]
                 end))
  /\ (snd st).(textBuffer) = p.(textBuffer)
  /\ (snd st).(inThinking) = p.(inThinking)
  /\ (snd st).(thinkingExtracted) = p.(thinkingExtracted)
  /\ (snd st).(textBlockIndex) = p.(textBlockIndex)
  /\ (snd st).(activeEndTag) = p.(activeEndTag).
Proof.
  unfold emitThinking, pushed.
  destruct (thinkingBlockIndex p) as [idx|] eqn:E; simpl.
  - split; [exists idx; split; [assumption | reflexivity] | auto 10].
  - split; [eexists; split; [reflexivity|] | auto 10].
    now rewrite <- app_assoc.
Qed.

(** ** Holding back a suffix *)

Lemma processBeforeThinking_no_tag (sh : Shared) (p : ThinkingTagParser) :
  no_open_tag p.(textBuffer) ->
  processBeforeThinking (sh, p)
  = let safeLen := String.length p.(textBuffer) - MAX_OPEN_TAG_LEN in
    if (0 <? safeLen)%nat then
      let st := emitText (Js.take safeLen p.(textBuffer)) (sh, p) in
      (fst st, set_textBuffer (Js.drop safeLen p.(textBuffer)) (snd st))
    else (sh, p).
Proof.
  intros H. unfold processBeforeThinking. rewrite (bestMatch_None _ H).
  cbv zeta. destruct (0 <? _)%nat; [|reflexivity].
  now destruct (emitText _ _).
Qed.

Lemma processInsideThinking_no_tag (sh : Shared) (p : ThinkingTagParser) :
  no_tag p.(activeEndTag) p.(textBuffer) ->
  processInsideThinking (sh, p)
  = let safeLen := String.length p.(textBuffer) - MAX_CLOSE_TAG_LEN in
    if (0 <? safeLen)%nat then
      let st := emitThinking (Js.take safeLen p.(textBuffer)) (sh, p) in
      (fst st, set_textBuffer (Js.drop safeLen p.(textBuffer)) (snd st))
    else (sh, p).
Proof.
  intros H. unfold processInsideThinking.
  rewrite (indexOf_None_of_no_tag _ _ H).
  cbv zeta. destruct (0 <? _)%nat; [|reflexivity].
  now destruct (emitThinking _ _).
Qed.

#[local] Arguments processBeforeThinking : simpl never.
#[local] Arguments processInsideThinking : simpl never.
#[local] Arguments processAfterThinking : simpl never.
#[local] Arguments emitText : simpl never.
#[local] Arguments emitThinking : simpl never.

(** One iteration of the loop, when the buffer holds no open tag and is
    short enough to be held back whole: nothing moves. *)
Lemma loop_before_short (fuel : nat) (sh : Shared) (p : ThinkingTagParser) :
  before_thinking p -> no_open_tag p.(textBuffer) ->
  String.length p.(textBuffer) <= MAX_OPEN_TAG_LEN ->
  processChunk_loop (S fuel) (sh, p) = (sh, p).
Proof.
  intros [Hin Hex] Hno Hlen. simpl processChunk_loop.
  unfold buffer_empty. simpl snd.
  destruct (Js.is_empty (textBuffer p)) eqn:Hempty; [reflexivity|].
  rewrite Hin, Hex. simpl negb. simpl andb.
  rewrite (processBeforeThinking_no_tag _ _ Hno). cbv zeta.
  replace (String.length (textBuffer p) - MAX_OPEN_TAG_LEN) with 0 by lia.
  simpl. rewrite Hempty, Hin. simpl. rewrite Hex.
  now rewrite Nat.leb_refl.
Qed.

Lemma loop_inside_short (fuel : nat) (sh : Shared) (p : ThinkingTagParser) :
  inside_thinking p -> no_tag p.(activeEndTag) p.(textBuffer) ->
  String.length p.(textBuffer) <= MAX_CLOSE_TAG_LEN ->
  processChunk_loop (S fuel) (sh, p) = (sh, p).
Proof.
  intros [Hin Hex] Hno Hlen. simpl processChunk_loop.
  unfold buffer_empty. simpl snd.
  destruct (Js.is_empty (textBuffer p)) eqn:Hempty; [reflexivity|].
  rewrite Hin, Hex. simpl negb. simpl andb. cbv iota. simpl snd.
  rewrite Hin.
  rewrite (processInsideThinking_no_tag _ _ Hno). cbv zeta.
  replace (String.length (textBuffer p) - MAX_CLOSE_TAG_LEN) with 0 by lia.
  simpl. rewrite Hempty, Hex. simpl.
  now rewrite Nat.leb_refl.
Qed.

(** What [processBeforeThinking] does with a buffer that holds no open
    tag: all but the last [MAX_OPEN_TAG_LEN] characters are pushed as
    one text delta, the rest is held back. *)
Lemma processBeforeThinking_hold_back (sh : Shared) (p : ThinkingTagParser) :
  before_thinking p -> no_open_tag p.(textBuffer) ->
  let buffer := p.(textBuffer) in
  let safeLen := String.length buffer - MAX_OPEN_TAG_LEN in
  let st := processBeforeThinking (sh, p) in
  (snd st).(textBuffer) = Js.drop safeLen buffer
  /\ before_thinking (snd st)
  /\ (snd st).(thinkingBlockIndex) = p.(thinkingBlockIndex)
  /\ (snd st).(activeEndTag) = p.(activeEndTag)
  /\ exists events,
      pushed sh (fst st) events
      /\ text_deltas events
         = (if (0 <? safeLen)%nat then [JStr (Js.take safeLen buffer)] else [])
      /\ thinking_deltas events = []
      /\ thinking_ends events = [].
Proof.
  intros [Hin Hex] Hno. cbv zeta.
  rewrite (processBeforeThinking_no_tag _ _ Hno). cbv zeta.
  destruct (0 <? String.length (textBuffer p) - MAX_OPEN_TAG_LEN)%nat eqn:E.
  - pose proof (emitText_spec
                  (Js.take (String.length (textBuffer p) - MAX_OPEN_TAG_LEN)
                           (textBuffer p)) sh p) as H.
    cbv zeta in H.
    destruct H as ((idx & Hidx & Hpush) & Hb & Hi & He & Ht & Ha).
    simpl. unfold before_thinking. simpl.
    repeat split; try congruence.
    eexists. split; [exact Hpush|].
    destruct (textBlockIndex p); repeat split.
  - simpl. apply Nat.ltb_ge in E.
    replace (String.length (textBuffer p) - MAX_OPEN_TAG_LEN) with 0 by lia.
    rewrite JsFacts.drop_0. unfold before_thinking.
    repeat split; try assumption.
    exists []. unfold pushed. rewrite app_nil_r. repeat split.
Qed.

Lemma processInsideThinking_hold_back (sh : Shared) (p : ThinkingTagParser) :
  inside_thinking p -> no_tag p.(activeEndTag) p.(textBuffer) ->
  let buffer := p.(textBuffer) in
  let safeLen := String.length buffer - MAX_CLOSE_TAG_LEN in
  let st := processInsideThinking (sh, p) in
  (snd st).(textBuffer) = Js.drop safeLen buffer
  /\ inside_thinking (snd st)
  /\ (snd st).(textBlockIndex) = p.(textBlockIndex)
  /\ (snd st).(activeEndTag) = p.(activeEndTag)
  /\ exists events,
      pushed sh (fst st) events
      /\ thinking_deltas events
         = (if (0 <? safeLen)%nat then [Js.take safeLen buffer] else [])
      /\ text_deltas events = []
      /\ thinking_ends events = [].
Proof.
  intros [Hin Hex] Hno. cbv zeta.
  rewrite (processInsideThinking_no_tag _ _ Hno). cbv zeta.
  destruct (0 <? String.length (textBuffer p) - MAX_CLOSE_TAG_LEN)%nat eqn:E.
  - pose proof (emitThinking_spec
                  (Js.take (String.length (textBuffer p) - MAX_CLOSE_TAG_LEN)
                           (textBuffer p)) sh p) as H.
    cbv zeta in H.
    destruct H as ((idx & Hidx & Hpush) & Hb & Hi & He & Ht & Ha).
    simpl. unfold inside_thinking. simpl.
    repeat split; try congruence.
    eexists. split; [exact Hpush|].
    destruct (thinkingBlockIndex p); repeat split.
  - simpl. apply Nat.ltb_ge in E.
    replace (String.length (textBuffer p) - MAX_CLOSE_TAG_LEN) with 0 by lia.
    rewrite JsFacts.drop_0. unfold inside_thinking.
    repeat split; try assumption.
    exists []. unfold pushed. rewrite app_nil_r. repeat split.
Qed.

(** The loop of [processChunk], when the buffer holds no open tag: it
    comes to what one call of [processBeforeThinking] does. *)
Lemma loop_before (fuel : nat) (sh : Shared) (p : ThinkingTagParser) :
  before_thinking p -> no_open_tag p.(textBuffer) ->
  String.length p.(textBuffer) <= fuel ->
  processChunk_loop (S fuel) (sh, p) = processBeforeThinking (sh, p).
Proof.
  intros Hbefore Hno Hfuel.
  destruct (Nat.le_gt_cases (String.length (textBuffer p)) MAX_OPEN_TAG_LEN)
    as [Hshort|Hlong].
  - rewrite loop_before_short by assumption.
    rewrite (processBeforeThinking_no_tag _ _ Hno). cbv zeta.
    now replace (String.length (textBuffer p) - MAX_OPEN_TAG_LEN) with 0 by lia.
  - destruct (processBeforeThinking_hold_back sh p Hbefore Hno)
      as (Hbuf & Hb' & _).
    cbv zeta in Hbuf, Hb'.
    destruct (processBeforeThinking (sh, p)) as [sh1 p1] eqn:Hstep.
    simpl snd in *.
    assert (Hlen1 : String.length (textBuffer p1) = MAX_OPEN_TAG_LEN).
    { rewrite Hbuf, JsFacts.length_drop. lia. }
    destruct fuel as [|fuel]; [lia|].
    destruct Hbefore as [Hin Hex]. destruct Hb' as [Hin1 Hex1].
    change (processChunk_loop (S (S fuel)) (sh, p))
      with (if buffer_empty (sh, p) then (sh, p)
            else
              let prevLength := String.length (textBuffer p) in
              let before := negb (inThinking p) && negb (thinkingExtracted p) in
              let st1 := if before then processBeforeThinking (sh, p)
                         else (sh, p) in
              if before && buffer_empty st1 then st1
              else
                let inside := (snd st1).(inThinking) in
                let st2 := if inside then processInsideThinking st1 else st1 in
                if inside && buffer_empty st2 then st2
                else if (snd st2).(thinkingExtracted)
                     then processAfterThinking st2
                     else if (prevLength <=? String.length (snd st2).(textBuffer))%nat
                          then st2
                          else processChunk_loop (S fuel) st2).
    unfold buffer_empty. simpl snd.
    rewrite JsFacts.is_empty_length.
    replace (String.length (textBuffer p) =? 0)%nat with false
      by (symmetry; apply Nat.eqb_neq; unfold MAX_OPEN_TAG_LEN in Hlong;
          simpl in Hlong; lia).
    cbv zeta. rewrite Hin, Hex. simpl negb. simpl andb. cbv iota.
    rewrite Hstep. simpl snd. rewrite Hin1. cbv iota. simpl andb. cbv iota.
    simpl snd.
    rewrite Hex1, JsFacts.is_empty_length, Hlen1. simpl Nat.eqb. cbv iota.
    replace (String.length (textBuffer p) <=? MAX_OPEN_TAG_LEN)%nat with false
      by (symmetry; apply Nat.leb_gt; lia).
    apply loop_before_short.
    + now split.
    + rewrite Hbuf. now apply no_open_tag_drop.
    + lia.
Qed.

Lemma loop_inside (fuel : nat) (sh : Shared) (p : ThinkingTagParser) :
  inside_thinking p -> no_tag p.(activeEndTag) p.(textBuffer) ->
  String.length p.(textBuffer) <= fuel ->
  processChunk_loop (S fuel) (sh, p) = processInsideThinking (sh, p).
Proof.
  intros Hinside Hno Hfuel.
  destruct (Nat.le_gt_cases (String.length (textBuffer p)) MAX_CLOSE_TAG_LEN)
    as [Hshort|Hlong].
  - rewrite loop_inside_short by assumption.
    rewrite (processInsideThinking_no_tag _ _ Hno). cbv zeta.
    now replace (String.length (textBuffer p) - MAX_CLOSE_TAG_LEN) with 0 by lia.
  - destruct (processInsideThinking_hold_back sh p Hinside Hno)
      as (Hbuf & Hb' & _ & Htag & _).
    cbv zeta in Hbuf, Hb', Htag.
    destruct (processInsideThinking (sh, p)) as [sh1 p1] eqn:Hstep.
    simpl snd in *.
    assert (Hlen1 : String.length (textBuffer p1) = MAX_CLOSE_TAG_LEN).
    { rewrite Hbuf, JsFacts.length_drop. lia. }
    destruct fuel as [|fuel]; [lia|].
    destruct Hinside as [Hin Hex]. destruct Hb' as [Hin1 Hex1].
    change (processChunk_loop (S (S fuel)) (sh, p))
      with (if buffer_empty (sh, p) then (sh, p)
            else
              let prevLength := String.length (textBuffer p) in
              let before := negb (inThinking p) && negb (thinkingExtracted p) in
              let st1 := if before then processBeforeThinking (sh, p)
                         else (sh, p) in
              if before && buffer_empty st1 then st1
              else
                let inside := (snd st1).(inThinking) in
                let st2 := if inside then processInsideThinking st1 else st1 in
                if inside && buffer_empty st2 then st2
                else if (snd st2).(thinkingExtracted)
                     then processAfterThinking st2
                     else if (prevLength <=? String.length (snd st2).(textBuffer))%nat
                          then st2
                          else processChunk_loop (S fuel) st2).
    unfold buffer_empty. simpl snd.
    rewrite JsFacts.is_empty_length.
    replace (String.length (textBuffer p) =? 0)%nat with false
      by (symmetry; apply Nat.eqb_neq; unfold MAX_CLOSE_TAG_LEN in Hlong;
          simpl in Hlong; lia).
    cbv zeta. rewrite Hin. simpl negb. simpl andb. cbv iota. simpl snd.
    rewrite Hin. cbv iota.
    rewrite Hstep. simpl snd.
    rewrite Hex1, JsFacts.is_empty_length, Hlen1. simpl Nat.eqb.
    simpl andb. cbv iota.
    replace (String.length (textBuffer p) <=? MAX_CLOSE_TAG_LEN)%nat with false
      by (symmetry; apply Nat.leb_gt; lia).
    apply loop_inside_short.
    + now split.
    + rewrite Hbuf, Htag. now apply no_tag_drop.
    + lia.
Qed.

(** The fuel of [processChunk_loop] is never used up: any two amounts
    above the length of the buffer give the same result. *)
Lemma processChunk_loop_fuel (n m : nat) (st : state) :
  String.length (snd st).(textBuffer) < n ->
  String.length (snd st).(textBuffer) < m ->
  processChunk_loop n st = processChunk_loop m st.
Proof.
  revert m st; induction n as [|n IH]; intros m st Hn Hm; [lia|].
  destruct m as [|m]; [lia|].
  simpl processChunk_loop.
  destruct (buffer_empty st); [reflexivity|].
  set (st1 := if negb (inThinking (snd st)) && negb (thinkingExtracted (snd st))
              then processBeforeThinking st else st).
  destruct (negb (inThinking (snd st)) && negb (thinkingExtracted (snd st))
            && buffer_empty st1); [reflexivity|].
  set (st2 := if inThinking (snd st1) then processInsideThinking st1 else st1).
  destruct (inThinking (snd st1) && buffer_empty st2); [reflexivity|].
  destruct (thinkingExtracted (snd st2)); [reflexivity|].
  destruct (Nat.leb_spec (String.length (textBuffer (snd st)))
                         (String.length (textBuffer (snd st2))));
    [reflexivity|].
  apply IH; lia.
Qed.

(** C4, as the code has it.  When a chunk is processed in the
    BeforeThinking phase and the buffer (what was held back, then the
    chunk) holds no open tag, all of the buffer is emitted as one text
    delta except a held-back suffix of exactly the longest open tag
    length, 11 characters (the whole buffer when it is not longer than
    that, and then nothing is emitted).  In the InsideThinking phase,
    when the buffer does not hold the close tag, all but a held-back
    suffix of the longest close tag length, 12 characters, is emitted as
    one thinking delta.  The phase does not change. *)
Theorem hold_back (sh : Shared) (p : ThinkingTagParser) (chunk : string) :
  let buffer := p.(textBuffer) ++ chunk in
  let st := processChunk chunk (sh, p) in
  (before_thinking p -> no_open_tag buffer ->
   let safeLen := String.length buffer - MAX_OPEN_TAG_LEN in
   MAX_OPEN_TAG_LEN = 11
   /\ (snd st).(textBuffer) = Js.drop safeLen buffer
   /\ String.length (snd st).(textBuffer)
      = Nat.min (String.length buffer) MAX_OPEN_TAG_LEN
   /\ before_thinking (snd st)
   /\ exists events,
       pushed sh (fst st) events
       /\ text_deltas events
          = (if (0 <? safeLen)%nat then [JStr (Js.take safeLen buffer)] else [])
       /\ thinking_deltas events = []
       /\ thinking_ends events = [])
  /\ (inside_thinking p -> no_tag p.(activeEndTag) buffer ->
      let safeLen := String.length buffer - MAX_CLOSE_TAG_LEN in
      MAX_CLOSE_TAG_LEN = 12
      /\ (snd st).(textBuffer) = Js.drop safeLen buffer
      /\ String.length (snd st).(textBuffer)
         = Nat.min (String.length buffer) MAX_CLOSE_TAG_LEN
      /\ inside_thinking (snd st)
      /\ exists events,
          pushed sh (fst st) events
          /\ thinking_deltas events
             = (if (0 <? safeLen)%nat then [Js.take safeLen buffer] else [])
          /\ text_deltas events = []
          /\ thinking_ends events = []).
Proof.
  cbv zeta. unfold processChunk.
  set (q := set_textBuffer (textBuffer p ++ chunk) p).
  change (textBuffer p ++ chunk) with (textBuffer q).
  split.
  - intros Hbefore Hno.
    rewrite loop_before by (try assumption; lia).
    destruct (processBeforeThinking_hold_back sh q Hbefore Hno)
      as (Hbuf & Hb & _ & _ & Hev).
    cbv zeta in *.
    repeat split; try assumption; try apply Hb.
    rewrite Hbuf, JsFacts.length_drop. lia.
  - intros Hinside Hno.
    rewrite loop_inside by (try assumption; lia).
    destruct (processInsideThinking_hold_back sh q Hinside Hno)
      as (Hbuf & Hi & _ & _ & Hev).
    cbv zeta in *.
    repeat split; try assumption; try apply Hi.
    rewrite Hbuf, JsFacts.length_drop. lia.
Qed.

(** The claim as it is written fails: of twelve characters without an
    open tag, one is emitted and eleven are held back, not ten; of
    thirteen characters of thinking without the close tag, one is
    emitted and twelve are held back, not eleven. *)
Lemma hold_back_minus_one_fails :
  (let st := processChunk "abcdefghijkl" (emptyShared, new) in
   bestMatch "abcdefghijkl" = None
   /\ text_deltas (fst st).(stream_events) = [JStr "a"]
   /\ (snd st).(textBuffer) = "bcdefghijkl"
   /\ String.length (snd st).(textBuffer) <> MAX_OPEN_TAG_LEN - 1)
  /\ (let st0 := processChunk "<think>" (emptyShared, new) in
      let st := processChunk "abcdefghijklm" st0 in
      (snd st0).(inThinking) = true
      /\ Js.indexOf "abcdefghijklm" (snd st0).(activeEndTag) 0 = None
      /\ thinking_deltas (fst st).(stream_events) = ["a"]
      /\ (snd st).(textBuffer) = "bcdefghijklm"
      /\ String.length (snd st).(textBuffer) <> MAX_CLOSE_TAG_LEN - 1).
Proof. vm_compute. repeat split; discriminate. Qed.

Lemma hold_back_witness :
  let st := processChunk "Just plain text" (emptyShared, new) in
  (snd st).(textBuffer) = Js.drop 4 "Just plain text"
  /\ String.length (snd st).(textBuffer) = 11.
Proof.
  intros st.
  assert (Hno : no_open_tag "Just plain text").
  { intros v i Hv Hocc.
    assert (Hnone : Js.indexOf "Just plain text" v.(open) 0 = None)
      by (simpl in Hv; decompose [or] Hv; subst; try reflexivity; contradiction).
    apply (JsFacts.indexOf_None _ _ _ Hnone i); [lia | exact Hocc]. }
  destruct (proj1 (hold_back emptyShared new "Just plain text")
                  (conj eq_refl eq_refl) Hno) as (_ & H1 & H2 & _).
  split; [exact H1 | exact H2].
Defined.

(** ** Finalize *)

(** C5, as the code has it.  At finalize, nothing happens when the
    buffer is empty.  Otherwise the buffer is emptied, and: when the
    segmenter is in the InsideThinking phase and a thinking slot has
    been opened, the buffered text is emitted as thinking content and
    the thinking-closed boundary is emitted, though no close tag was
    seen; in every other case (another phase, or InsideThinking before
    any thinking content opened a slot) the buffered text is flushed as
    answer text. *)
Theorem finalize_flush (sh : Shared) (p : ThinkingTagParser) :
  let st := finalize (sh, p) in
  (p.(textBuffer) = EmptyString -> st = (sh, p))
  /\ (p.(textBuffer) <> EmptyString ->
      (snd st).(textBuffer) = EmptyString
      /\ (forall idx,
             p.(inThinking) = true -> p.(thinkingBlockIndex) = Some idx ->
             pushed sh (fst st)
                    [thinking_delta idx p.(textBuffer);
                     thinking_end idx (thinking_of idx (fst st))]
             /\ (fst st).(output_content)
                = (append_thinking idx p.(textBuffer) sh).(output_content))
      /\ (p.(inThinking) = false \/ p.(thinkingBlockIndex) = None ->
          exists idx,
            (snd st).(textBlockIndex) = Some idx
            /\ pushed sh (fst st)
                      (match p.(textBlockIndex) with
                       | Some _ => [text_delta idx (JStr p.(textBuffer))]
                       | None => [text_start idx;
                                  text_delta idx (JStr p.(textBuffer))]
                       end))).
Proof.
  cbv zeta. unfold finalize. split.
  - intros ->. reflexivity.
  - intros Hne.
    destruct (Js.is_empty (textBuffer p)) eqn:E;
      [apply JsFacts.is_empty_iff in E; contradiction|].
    pose proof (emitText_spec (textBuffer p) sh p) as Ht. cbv zeta in Ht.
    destruct Ht as ((tidx & Htidx & Htpush) & _).
    destruct (inThinking p) eqn:Hin;
      [destruct (thinkingBlockIndex p) as [idx|] eqn:Hidx|];
      (split; [|split]).
    + reflexivity.
    + intros idx' _ [= <-]. unfold pushed. simpl.
      split; [now rewrite <- app_assoc | reflexivity].
    + intros [H|H]; discriminate.
    + now destruct (emitText (textBuffer p) (sh, p)).
    + intros idx' _ H; discriminate.
    + intros _. exists tidx.
      destruct (emitText (textBuffer p) (sh, p)). simpl in *. now split.
    + now destruct (emitText (textBuffer p) (sh, p)).
    + intros idx' H; discriminate.
    + intros _. exists tidx.
      destruct (emitText (textBuffer p) (sh, p)). simpl in *. now split.
Qed.

(** The claim as it is written fails: the input ends inside a thinking
    block whose text is still held back whole, and finalize emits that
    text as answer text, with no thinking-closed boundary. *)
Lemma finalize_inside_thinking_fails :
  let st0 := processChunk "<thinking>short" (emptyShared, new) in
  let st := finalize st0 in
  (snd st0).(inThinking) = true
  /\ (snd st0).(textBuffer) = "short"
  /\ thinking_deltas (fst st).(stream_events) = []
  /\ thinking_ends (fst st).(stream_events) = []
  /\ (fst st).(stream_events) = [text_start 0; text_delta 0 (JStr "short")].
Proof. vm_compute. repeat split. Qed.

Lemma finalize_flush_witness :
  let st0 :=
    processChunk "<thinking>a thought that is cut off" (emptyShared, new) in
  let st := finalize st0 in
  (fst st).(stream_events)
  = [thinking_start 0; thinking_delta 0 "a thought tha";
     thinking_delta 0 "t is cut off";
     thinking_end 0 "a thought that is cut off"].
Proof.
  intros st0 st.
  destruct (proj2 (finalize_flush (fst st0) (snd st0)))
    as (_ & H & _); [vm_compute; discriminate|].
  destruct (H 0 eq_refl eq_refl) as [Hpush _].
  vm_compute in Hpush. vm_compute. exact Hpush.
Defined.

End ThinkingFacts.


(* ================================================================== *)
(** * The event classifier *)
(* ================================================================== *)

Module ClassifierFacts.
Import EventParser Spec.

Lemma if_truthy_Some (v : option json) (x : json) :
  if_truthy v = Some x <-> v = Some x /\ truthy x = true.
Proof.
  unfold if_truthy. destruct v as [y|]; [destruct (truthy y) eqn:E|];
    split; try discriminate; try (intros [H _]; discriminate).
  - intros [= ->]. now split.
  - intros [[= ->] _]. reflexivity.
  - intros [[= ->] H]. congruence.
Qed.

Lemma if_truthy_None (v : option json) :
  if_truthy v = None <-> truthy_opt v = false.
Proof.
  unfold if_truthy, truthy_opt. destruct v as [y|]; [destruct (truthy y)|];
    split; congruence.
Qed.

Lemma if_truthy_truthy (v : option json) :
  truthy_opt v = true -> if_truthy v = v.
Proof.
  unfold if_truthy, truthy_opt. destruct v as [y|]; [|discriminate].
  now intros ->.
Qed.

Section WithHost.
Context {host : Host}.

(** The second rule fails. *)
Lemma not_rule2 (o : object) :
  ~ rule2 o ->
  match if_truthy (prop o "name"), if_truthy (prop o "toolUseId") with
  | Some _, Some _ => False
  | _, _ => True
  end.
Proof.
  unfold rule2. intros H.
  destruct (if_truthy (prop o "name")) as [n|] eqn:En; [|exact I].
  destruct (if_truthy (prop o "toolUseId")) as [t|] eqn:Et; [|exact I].
  apply if_truthy_Some in En as [En Hn], Et as [Et Ht].
  apply H. rewrite En, Et. simpl. now split.
Qed.

Lemma not_rule1 (o : object) : ~ rule1 o -> prop o "content" = None.
Proof.
  unfold rule1. intros H. destruct (prop o "content"); [|reflexivity].
  exfalso. apply H. discriminate.
Qed.

Lemma not_rule2_cases (o : object) :
  ~ rule2 o ->
  if_truthy (prop o "name") = None \/ if_truthy (prop o "toolUseId") = None.
Proof.
  unfold rule2. intros H. rewrite !if_truthy_None.
  destruct (truthy_opt (prop o "name")); [|now left].
  destruct (truthy_opt (prop o "toolUseId")); [|now right].
  exfalso. now apply H.
Qed.

Lemma not_rule3_cases (o : object) :
  ~ rule3 o ->
  prop o "input" = None \/ exists n, if_truthy (prop o "name") = Some n.
Proof.
  unfold rule3. intros H.
  destruct (prop o "input"); [|now left]. right.
  destruct (if_truthy (prop o "name")) as [n|] eqn:E; [now exists n|].
  exfalso. apply H. split; [discriminate | now apply if_truthy_None].
Qed.

Lemma not_rule4_cases (o : object) :
  ~ rule4 o ->
  prop o "stop" = None \/ exists p, prop o "contextUsagePercentage" = Some p.
Proof.
  unfold rule4. intros H.
  destruct (prop o "stop"); [|now left]. right.
  destruct (prop o "contextUsagePercentage") as [p|]; [now exists p|].
  exfalso. apply H. split; [discriminate | reflexivity].
Qed.

Lemma not_present (v : option json) : ~ v <> None -> v = None.
Proof. destruct v; [intros H; exfalso; apply H; discriminate | reflexivity]. Qed.

Lemma rule2_cases (o : object) :
  rule2 o ->
  exists n t, if_truthy (prop o "name") = Some n
              /\ if_truthy (prop o "toolUseId") = Some t.
Proof.
  unfold rule2, truthy_opt, if_truthy. intros [Hn Ht].
  destruct (prop o "name") as [n|]; [|discriminate].
  destruct (prop o "toolUseId") as [t|]; [|discriminate].
  rewrite Hn, Ht. eauto.
Qed.

(** The hypotheses on the rules, as equations on what the classifier
    reads. *)
Ltac normalise_rules :=
  repeat match goal with
         | H : ~ rule1 _ |- _ => apply not_rule1 in H
         | H : ~ rule2 _ |- _ => apply not_rule2_cases in H; destruct H
         | H : ~ rule3 _ |- _ => apply not_rule3_cases in H; destruct H as [H|[? H]]
         | H : ~ rule4 _ |- _ => apply not_rule4_cases in H; destruct H as [H|[? H]]
         | H : ~ rule5 _ |- _ => apply not_present in H
         | H : ~ rule6 _ |- _ => apply not_present in H
         | H : ~ rule7 _ |- _ => apply not_present in H
         | H : rule2 _ |- _ => apply rule2_cases in H; destruct H as (? & ? & ? & ?)
         | H : truthy_opt _ = false |- _ => apply if_truthy_None in H
         | Hp : prop ?o "name" = Some ?n, Ht : truthy ?n = true |- _ =>
             pose proof (proj2 (if_truthy_Some _ _) (conj Hp Ht)); clear Ht
         | Hp : prop ?o "toolUseId" = Some ?n, Ht : truthy ?n = true |- _ =>
             pose proof (proj2 (if_truthy_Some _ _) (conj Hp Ht)); clear Ht
         | Hp : prop ?o "name" = None |- _ =>
             assert (if_truthy (prop o "name") = None) by (now rewrite Hp);
             clear Hp
         end.

(** The cases of the classifier that the hypotheses leave. *)
Ltac classify_cases :=
  repeat match goal with
         | |- context [match prop ?o "content" with _ => _ end] =>
             destruct (prop o "content") eqn:?; try congruence
         | |- context [match if_truthy ?v with _ => _ end] =>
             destruct (if_truthy v) eqn:?; try congruence
         | |- context [match prop ?o ?k with _ => _ end] =>
             destruct (prop o k) eqn:?; try congruence
         end.

(** C2, as the code has it.  The classifier follows the first-match
    precedence table, with three of its rules read as the code tests
    them: rule 2 applies when [name] and [toolUseId] are both truthy
    (present, and not an empty string, zero, [false] or [null]); rule 3
    when [input] is present and [name] is not truthy; rule 7 when
    [usage] is present, whatever it is ([null] makes the classifier
    throw).  In particular an object with truthy [name] and
    [toolUseId], no [content] and an empty-object [input] classifies as
    ToolUse with the empty string as input, and an object with no
    [name] never classifies as ToolUse: with [stop], and without
    [content], [input] and [contextUsagePercentage], it classifies as
    ToolUseStop, whether or not it carries [toolUseId]. *)
Theorem classifier_precedence (o : object) :
  (forall c, prop o "content" = Some c ->
             parseKiroEvent o = Returns (Some (content c)))
  /\ (~ rule1 o ->
      forall n t, prop o "name" = Some n -> prop o "toolUseId" = Some t ->
                  truthy n = true -> truthy t = true ->
                  parseKiroEvent o
                  = Returns (Some (toolUse n t (toolUse_input (prop o "input"))
                                           (prop o "stop"))))
  /\ (~ rule1 o -> ~ rule2 o ->
      forall i, prop o "input" = Some i ->
                truthy_opt (prop o "name") = false ->
                parseKiroEvent o
                = Returns (Some (toolUseInput
                                   match i with
                                   | JStr s => s
                                   | _ => JSON_stringify i
                                   end)))
  /\ (~ rule1 o -> ~ rule2 o -> ~ rule3 o ->
      forall s, prop o "stop" = Some s ->
                prop o "contextUsagePercentage" = None ->
                parseKiroEvent o = Returns (Some (toolUseStop s)))
  /\ (~ rule1 o -> ~ rule2 o -> ~ rule3 o -> ~ rule4 o ->
      forall p, prop o "contextUsagePercentage" = Some p ->
                parseKiroEvent o = Returns (Some (contextUsage p)))
  /\ (~ rule1 o -> ~ rule2 o -> ~ rule3 o -> ~ rule4 o -> ~ rule5 o ->
      forall f, prop o "followupPrompt" = Some f ->
                parseKiroEvent o = Returns (Some (followupPrompt f)))
  /\ (~ rule1 o -> ~ rule2 o -> ~ rule3 o -> ~ rule4 o -> ~ rule5 o ->
      ~ rule6 o ->
      forall u, prop o "usage" = Some u ->
                parseKiroEvent o
                = match u with
                  | JNull => Throws
                  | JObj fields =>
                      Returns (Some (usage (prop fields "inputTokens")
                                           (prop fields "outputTokens")))
                  | _ => Returns (Some (usage None None))
                  end)
  /\ (~ rule1 o -> ~ rule2 o -> ~ rule3 o -> ~ rule4 o -> ~ rule5 o ->
      ~ rule6 o -> ~ rule7 o ->
      parseKiroEvent o = Returns None)
  /\ (toolUse_input (Some (JObj [])) = EmptyString
      /\ (forall s, toolUse_input (Some (JStr s)) = s)
      /\ (forall f fs, toolUse_input (Some (JObj (f :: fs)))
                       = JSON_stringify (JObj (f :: fs))))
  /\ (~ rule1 o -> rule2 o -> prop o "input" = Some (JObj []) ->
      exists n t, parseKiroEvent o
                  = Returns (Some (toolUse n t EmptyString (prop o "stop"))))
  /\ (prop o "name" = None ->
      (forall n t i s, parseKiroEvent o <> Returns (Some (toolUse n t i s)))
      /\ (forall s, prop o "stop" = Some s ->
                    prop o "content" = None -> prop o "input" = None ->
                    prop o "contextUsagePercentage" = None ->
                    parseKiroEvent o = Returns (Some (toolUseStop s)))).
Proof.
  repeat match goal with
         | |- _ /\ _ => split
         | |- _ -> _ => intro
         | |- forall _, _ => intro
         end; normalise_rules.
  all: try reflexivity.
  all: unfold parseKiroEvent;
    repeat match goal with
           | H : prop ?o "input" = Some _ |- context [toolUse_input _] =>
               rewrite H
           end;
    classify_cases.
  all: repeat match goal with
              | H : Some _ = Some _ |- _ => injection H as ->
              end.
  all: try reflexivity.
  all: try (destruct u as [| | | | |fields]; reflexivity).
  all: try (do 2 eexists; reflexivity).
  match goal with |- context [member ?v _] => destruct v; discriminate end.
Qed.

End WithHost.

(** The claim as it is written fails where a rule of the table tests
    presence and the code tests truthiness: an empty [name] beside
    [toolUseId] and [stop] gives ToolUseStop, not ToolUse; an [input]
    beside an empty [name] gives ToolUseInput, not nothing; a [usage]
    that is not an object gives a Usage event, not nothing. *)
Lemma classify_by_presence_fails :
  let o1 := [("name", JStr EmptyString); ("toolUseId", JStr "tc1");
             ("stop", JBool true)] in
  let o2 := [("input", JStr "x"); ("name", JStr EmptyString)] in
  let o3 := [("usage", JNum "5")] in
  (@parseKiroEvent Hosts.sample o1 = Returns (Some (toolUseStop (JBool true)))
   /\ @classify_by_presence Hosts.sample o1
      = Some (toolUse (JStr EmptyString) (JStr "tc1") EmptyString
                      (Some (JBool true))))
  /\ (@parseKiroEvent Hosts.sample o2 = Returns (Some (toolUseInput "x"))
      /\ @classify_by_presence Hosts.sample o2 = None)
  /\ (@parseKiroEvent Hosts.sample o3 = Returns (Some (usage None None))
      /\ @classify_by_presence Hosts.sample o3 = None).
Proof. cbv zeta. repeat split. Qed.

Lemma classifier_precedence_witness :
  let o := [("name", JStr "write"); ("toolUseId", JStr "tc1");
            ("input", JObj [])] in
  exists n t,
    @parseKiroEvent Hosts.sample o
    = Returns (Some (toolUse n t EmptyString None)).
Proof.
  intros o.
  destruct (@classifier_precedence Hosts.sample o)
    as (_ & _ & _ & _ & _ & _ & _ & _ & _ & H & _).
  apply H.
  - unfold rule1. simpl. intros H1. now apply H1.
  - unfold rule2. simpl. now split.
  - reflexivity.
Defined.

End ClassifierFacts.


(* ================================================================== *)
(** * The frame scanner *)
(* ================================================================== *)

Module ScannerFacts.
Import EventParser Spec.

Lemma get_drop (s : string) (n i : nat) :
  String.get i (Js.drop n s) = String.get (n + i) s.
Proof.
  revert s; induction n as [|n IH]; intros s.
  - now rewrite JsFacts.drop_0.
  - destruct s as [|c s]; simpl; [now destruct i | apply IH].
Qed.

(** Where [findJsonEnd_loop] stops, there is a closing brace. *)
Lemma findJsonEnd_loop_Some (rest : string) (i : nat) (braceCount : Z)
      (inString escapeNext : bool) (e : nat) :
  findJsonEnd_loop rest i braceCount inString escapeNext = Some e ->
  i <= e /\ e < i + String.length rest
  /\ String.get (e - i) rest = Some Js.rbrace.
Proof.
  revert i braceCount inString escapeNext;
    induction rest as [|c rest IH]; intros i bc ins esc; simpl;
    [discriminate|].
  assert (Hrec : forall bc' ins' esc',
             findJsonEnd_loop rest (S i) bc' ins' esc' = Some e ->
             i <= e /\ e < i + S (String.length rest)
             /\ String.get (e - i) (String c rest) = Some Js.rbrace).
  { intros bc' ins' esc' H. apply IH in H as (H1 & H2 & H3).
    repeat split; try lia.
    replace (e - i) with (S (e - S i)) by lia. exact H3. }
  destruct esc; [apply Hrec|].
  destruct (Ascii.eqb c Js.backslash); [apply Hrec|].
  destruct (Ascii.eqb c Js.dquote); [apply Hrec|].
  destruct (negb ins); [|apply Hrec].
  destruct (Ascii.eqb c Js.lbrace); [apply Hrec|].
  destruct (Ascii.eqb_spec c Js.rbrace) as [->|]; [|apply Hrec].
  destruct (bc - 1 =? 0)%Z; [|apply Hrec].
  intros [= <-]. rewrite Nat.sub_diag. repeat split; lia.
Qed.

(** [findJsonEnd]: the end is at or after the start, inside the text,
    and a closing brace. *)
Lemma findJsonEnd_Some (text : string) (start e : nat) :
  findJsonEnd text start = Some e ->
  start <= e /\ e < String.length text
  /\ char_at text e = Some Js.rbrace.
Proof.
  unfold findJsonEnd, char_at. intros H.
  apply findJsonEnd_loop_Some in H as (H1 & H2 & H3).
  rewrite JsFacts.length_drop in H2. rewrite get_drop in H3.
  replace (start + (e - start)) with e in H3 by lia.
  repeat split; try assumption; lia.
Qed.

(** A pattern that occurs at [j] is found by [indexOf] at or before
    [j]. *)
Lemma indexOf_le (s p : string) (from j : nat) :
  from <= j -> Js.occurs_at p s j ->
  exists b, Js.indexOf s p from = Some b /\ b <= j.
Proof.
  intros Hj Hocc.
  destruct (Js.indexOf s p from) as [b|] eqn:E.
  - exists b. split; [reflexivity|].
    apply JsFacts.indexOf_Some in E as (Hmin & _ & _ & Hfirst).
    destruct (Nat.le_gt_cases b j) as [|Hlt]; [assumption|].
    exfalso. apply (Hfirst j); [lia | assumption | assumption].
  - exfalso. exact (JsFacts.indexOf_None _ _ _ E j Hj Hocc).
Qed.

(** The fold of [findNextEventStart] over some patterns keeps the least
    of the offsets found. *)
Lemma earliest_fold (buffer : string) (from : nat) (patterns : list string)
      (acc : option nat) :
  let step := fun earliest pattern =>
                match Js.indexOf buffer pattern from with
                | Some idx =>
                    match earliest with
                    | None => Some idx
                    | Some e => if (idx <? e)%nat then Some idx else earliest
                    end
                | None => earliest
                end in
  match fold_left step patterns acc with
  | None => acc = None
            /\ forall p, In p patterns -> Js.indexOf buffer p from = None
  | Some a =>
      (acc = Some a
       \/ exists p, In p patterns /\ Js.indexOf buffer p from = Some a)
      /\ (forall b, acc = Some b -> a <= b)
      /\ (forall p b, In p patterns -> Js.indexOf buffer p from = Some b ->
                      a <= b)
  end.
Proof.
  cbv zeta. revert acc; induction patterns as [|p l IH]; intros acc; simpl.
  - destruct acc as [a|].
    + split; [now left|]. split; [intros b [= <-]; lia | intros ? ? []].
    + split; [reflexivity | intros ? []].
  - match goal with
    | |- match fold_left _ l ?acc' with _ => _ end =>
        specialize (IH acc'); destruct (fold_left _ l acc') as [a|]
    end.
    + destruct IH as (Hsrc & Hacc & Hall).
      destruct (Js.indexOf buffer p from) as [idx|] eqn:Ep.
      * destruct acc as [e0|].
        -- destruct (Nat.ltb_spec idx e0).
           ++ split; [|split].
              ** destruct Hsrc as [[= <-]|[q [Hq Eq]]];
                   [right; exists p; auto | right; exists q; auto].
              ** intros b [= <-]. specialize (Hacc idx eq_refl). lia.
              ** intros q b [<-|Hq] Eq; [|eauto].
                 rewrite Ep in Eq. injection Eq as <-. now apply Hacc.
           ++ split; [|split].
              ** destruct Hsrc as [Hs|[q [Hq Eq]]];
                   [now left | right; exists q; auto].
              ** exact Hacc.
              ** intros q b [<-|Hq] Eq; [|eauto].
                 rewrite Ep in Eq. injection Eq as <-.
                 specialize (Hacc e0 eq_refl). lia.
        -- split; [|split].
           ++ destruct Hsrc as [[= <-]|[q [Hq Eq]]];
                [right; exists p; auto | right; exists q; auto].
           ++ intros b H; discriminate.
           ++ intros q b [<-|Hq] Eq; [|eauto].
              rewrite Ep in Eq. injection Eq as <-. now apply Hacc.
      * split; [|split].
        -- destruct Hsrc as [Hs|[q [Hq Eq]]];
             [now left | right; exists q; auto].
        -- exact Hacc.
        -- intros q b [<-|Hq] Eq; [congruence | eauto].
    + destruct IH as (Hacc & Hall).
      destruct (Js.indexOf buffer p from) as [idx|] eqn:Ep.
      * destruct acc as [e0|]; [destruct (idx <? e0)%nat|]; discriminate.
      * split; [assumption|]. intros q [<-|Hq]; auto.
Qed.

(** [findNextEventStart] finds the first anchor from [from] on. *)
Lemma findNextEventStart_Some (buffer : string) (from a : nat) :
  from <= String.length buffer ->
  findNextEventStart buffer from = Some a ->
  next_anchor buffer from a.
Proof.
  intros Hfrom H. unfold findNextEventStart in H.
  pose proof (earliest_fold buffer from EVENT_PATTERNS None) as F.
  cbv zeta in F. rewrite H in F.
  destruct F as ([Hs|[p [Hp Ep]]] & _ & Hall); [discriminate|].
  pose proof (JsFacts.indexOf_Some _ _ _ _ Ep) as (Hmin & _ & Hocc & _).
  rewrite Nat.min_l in Hmin by assumption.
  split; [assumption|]. split; [exists p; auto|].
  intros j Hj Hlt [q [Hq Hoccq]].
  destruct (indexOf_le buffer q from j Hj Hoccq) as [b [Eb Hb]].
  specialize (Hall q b Hq Eb). lia.
Qed.

Lemma findNextEventStart_None (buffer : string) (from : nat) :
  findNextEventStart buffer from = None ->
  no_anchor_from buffer from.
Proof.
  intros H. unfold findNextEventStart in H.
  pose proof (earliest_fold buffer from EVENT_PATTERNS None) as F.
  cbv zeta in F. rewrite H in F. destruct F as [_ Hall].
  intros j Hj [q [Hq Hocc]].
  exact (JsFacts.indexOf_None _ _ _ (Hall q Hq) j Hj Hocc).
Qed.

Lemma pattern_not_empty (p : string) :
  In p EVENT_PATTERNS -> 1 <= String.length p.
Proof.
  unfold EVENT_PATTERNS. simpl.
  intros H. decompose [or] H; subst; simpl; try lia; try contradiction.
Qed.

(** An anchor lies inside the buffer. *)
Lemma anchor_inside (buffer : string) (j : nat) :
  anchor_at buffer j -> j < String.length buffer.
Proof.
  intros [p [Hp Hocc]]. apply JsFacts.is_prefix_length in Hocc.
  rewrite JsFacts.length_drop in Hocc.
  pose proof (pattern_not_empty p Hp). lia.
Qed.

(** The first anchor from a position is unique, and so are the frames. *)
Lemma next_anchor_unique (buffer : string) (pos a b : nat) :
  next_anchor buffer pos a -> next_anchor buffer pos b -> a = b.
Proof.
  intros (Ha & Hanchor_a & Hfirst_a) (Hb & Hanchor_b & Hfirst_b).
  destruct (Nat.lt_trichotomy a b) as [Hlt|[Heq|Hgt]]; [|assumption|].
  - destruct (Hfirst_b a Ha Hlt Hanchor_a).
  - destruct (Hfirst_a b Hb Hgt Hanchor_b).
Qed.

Lemma Frames_unique (buffer : string) (pos : nat)
      (spans1 spans2 : list fragment_span) (trunc1 trunc2 : option nat) :
  Frames buffer pos spans1 trunc1 -> Frames buffer pos spans2 trunc2 ->
  spans1 = spans2 /\ trunc1 = trunc2.
Proof.
  intros H1. revert spans2 trunc2.
  induction H1 as [pos Hno | pos a Hnext Hend
                   | pos a e spans trunc Hnext Hend Hrest IH];
    intros spans2 trunc2 H2; inversion H2; subst.
  - now split.
  - match goal with H : next_anchor _ _ _ |- _ =>
      destruct H as (Hle & Hanchor & _) end.
    destruct (Hno _ Hle Hanchor).
  - match goal with H : next_anchor _ _ _ |- _ =>
      destruct H as (Hle & Hanchor & _) end.
    destruct (Hno _ Hle Hanchor).
  - destruct Hnext as (Hle & Hanchor & _).
    match goal with H : no_anchor_from _ _ |- _ =>
      destruct (H _ Hle Hanchor) end.
  - match goal with H : next_anchor _ _ ?b |- _ =>
      assert (a = b) by (eapply next_anchor_unique; eassumption) end.
    subst. now split.
  - match goal with H : next_anchor _ _ ?b |- _ =>
      assert (a = b) by (eapply next_anchor_unique; eassumption) end.
    subst. congruence.
  - destruct Hnext as (Hle & Hanchor & _).
    match goal with H : no_anchor_from _ _ |- _ =>
      destruct (H _ Hle Hanchor) end.
  - match goal with H : next_anchor _ _ ?b |- _ =>
      assert (a = b) by (eapply next_anchor_unique; eassumption) end.
    subst. congruence.
  - match goal with H : next_anchor _ _ ?b |- _ =>
      assert (a = b) by (eapply next_anchor_unique; eassumption) end.
    subst.
    match goal with H : findJsonEnd _ _ = Some ?e' |- _ =>
      assert (e = e') by congruence end.
    subst.
    match goal with H : Frames _ _ ?s ?t |- _ =>
      destruct (IH _ _ H) as [-> ->] end.
    now split.
Qed.

Section WithHost.
Context {host : Host}.

Lemma push_event_app (events : list KiroStreamEvent)
      (event : option KiroStreamEvent) :
  push_event events event
  = (events ++ match event with Some e => [e] | None => [] end)%list.
Proof. destruct event; simpl; [reflexivity | now rewrite app_nil_r]. Qed.


(** The fuel of the scanner is never used up: any two amounts above
    what is left of the buffer give the same result. *)
Lemma parseKiroEvents_loop_fuel (buffer : string) :
  forall n m pos events,
    String.length buffer - pos < n -> String.length buffer - pos < m ->
    parseKiroEvents_loop n buffer pos events
    = parseKiroEvents_loop m buffer pos events.
Proof.
  induction n as [|n IH]; intros m pos events Hn Hm; [lia|].
  destruct m as [|m]; [lia|]. simpl.
  destruct (Nat.ltb_spec pos (String.length buffer)); [|reflexivity].
  destruct (findNextEventStart buffer pos) as [a|] eqn:Ea; [|reflexivity].
  apply findNextEventStart_Some in Ea as (Hpa & _); [|lia].
  destruct (findJsonEnd buffer a) as [e|] eqn:Ee; [|reflexivity].
  apply findJsonEnd_Some in Ee as (Hae & _).
  apply IH; lia.
Qed.





End WithHost.

End ScannerFacts.


(* ================================================================== *)
(** * The bracket fallback extractor *)
(* ================================================================== *)

Module BracketFacts.
Import EventParser BracketToolParser Spec.

Lemma strip_literal_Some (lit s t : string) :
  strip_literal lit s = Some t -> s = lit ++ t.
Proof.
  revert s; induction lit as [|a lit IH]; intros s; simpl.
  - now intros [= ->].
  - destruct s as [|b s]; [discriminate|].
    destruct (Ascii.eqb_spec a b) as [->|]; [|discriminate].
    intros H. now rewrite (IH _ H).
Qed.

Lemma span_spec (f : ascii -> bool) (s a b : string) :
  span f s = (a, b) ->
  s = a ++ b /\ all_chars f a = true
  /\ match b with
     | String c _ => f c = false
     | EmptyString => True
     end.
Proof.
  revert a b; induction s as [|c s IH]; intros a b; simpl.
  - intros [= <- <-]. auto.
  - destruct (f c) eqn:Ec.
    + destruct (span f s) as [a' b'] eqn:E. intros [= <- <-].
      destruct (IH a' b' eq_refl) as (-> & Hall & Hb).
      simpl. rewrite Ec. auto.
    + intros [= <- <-]. simpl. rewrite Ec. auto.
Qed.

Lemma plus_spec (f : ascii -> bool) (s a b : string) :
  plus f s = Some (a, b) ->
  s = a ++ b /\ all_chars f a = true /\ a <> EmptyString.
Proof.
  unfold plus. destruct (span f s) as [a' b'] eqn:E.
  destruct (Js.is_empty a') eqn:Ea; [discriminate|].
  intros [= <- <-]. apply span_spec in E as (-> & Hall & _).
  repeat split; [assumption|]. intros ->. discriminate.
Qed.

(** What [BRACKET_PATTERN] matches is an anchor with the captured
    name; the match is not empty and lies in the text. *)
Lemma match_BRACKET_PATTERN_spec (s name : string) (len : nat) :
  match_BRACKET_PATTERN s = Some (name, len) ->
  anchor_text (Js.take len s) name
  /\ 1 <= len /\ len <= String.length s.
Proof.
  unfold match_BRACKET_PATTERN.
  destruct (strip_literal "[Called" s) as [s1|] eqn:E1; [|discriminate].
  destruct (plus Js.is_space s1) as [[ws1 s2]|] eqn:E2; [|discriminate].
  destruct (plus Js.is_word_or_dash s2) as [[nm s3]|] eqn:E3; [|discriminate].
  destruct (plus Js.is_space s3) as [[ws2 s4]|] eqn:E4; [|discriminate].
  destruct (strip_literal "with" s4) as [s5|] eqn:E5; [|discriminate].
  destruct (plus Js.is_space s5) as [[ws3 s6]|] eqn:E6; [|discriminate].
  destruct (strip_literal "args:" s6) as [s7|] eqn:E7; [|discriminate].
  destruct (span Js.is_space s7) as [ws4 s8] eqn:E8.
  intros [= <- <-].
  apply strip_literal_Some in E1, E5, E7.
  apply plus_spec in E2 as (-> & H2 & N2), E3 as (-> & H3 & N3),
                     E4 as (-> & H4 & N4), E6 as (-> & H6 & N6).
  apply span_spec in E8 as (-> & H8 & _).
  subst s6 s4 s.
  set (anchor := "[Called" ++ ws1 ++ nm ++ ws2 ++ "with" ++ ws3 ++ "args:" ++ ws4).
  assert (Hs : "[Called" ++ (ws1 ++ nm ++ ws2 ++ "with" ++ ws3 ++ "args:" ++ ws4 ++ s8)
               = anchor ++ s8).
  { unfold anchor. now rewrite !JsFacts.append_assoc. }
  rewrite Hs. rewrite JsFacts.length_append.
  replace (String.length anchor + String.length s8 - String.length s8)
    with (String.length anchor) by lia.
  rewrite JsFacts.take_append.
  split; [|split].
  - exists ws1, ws2, ws3, ws4. repeat split; assumption.
  - unfold anchor. simpl. lia.
  - lia.
Qed.

#[local] Arguments match_BRACKET_PATTERN : simpl never.

(** A match that [exec] finds is a match of the pattern at its index,
    at or after the cursor. *)
Lemma exec_from_Some (s : string) (i : nat) (m : RegExpExecArray) :
  exec_from s i = Some m ->
  exists k, m.(index) = i + k
            /\ match_BRACKET_PATTERN (Js.drop k s)
               = Some (m.(group1), m.(length0)).
Proof.
  revert i; induction s as [|c s IH]; intros i.
  - vm_compute. discriminate.
  - simpl. destruct (match_BRACKET_PATTERN (String c s)) as [[nm len]|] eqn:E.
    + intros [= <-]. exists 0. simpl. split; [lia | assumption].
    + intros H. apply IH in H as [k [Hk Hm]].
      exists (S k). simpl. split; [lia | assumption].
Qed.

Lemma exec_Some (text : string) (lastIndex : nat) (m : RegExpExecArray) :
  exec text lastIndex = Some m ->
  lastIndex <= m.(index)
  /\ match_BRACKET_PATTERN (Js.drop m.(index) text)
     = Some (m.(group1), m.(length0)).
Proof.
  unfold exec. intros H. apply exec_from_Some in H as [k [Hk Hm]].
  rewrite JsFacts.drop_drop in Hm. rewrite Hk. split; [lia | assumption].
Qed.

(** [trim] leaves nothing exactly when every character is white
    space. *)
Lemma trimStart_empty (s : string) :
  Js.is_empty (Js.trimStart s) = all_chars Js.is_space s.
Proof.
  induction s as [|c s IH]; simpl; [reflexivity|].
  destruct (Js.is_space c); [assumption | reflexivity].
Qed.

Lemma trimStart_head (s : string) :
  match Js.trimStart s with
  | String c _ => Js.is_space c = false
  | EmptyString => True
  end.
Proof.
  induction s as [|c s IH]; simpl; [exact I|].
  destruct (Js.is_space c) eqn:E; [assumption | simpl; assumption].
Qed.

Lemma trim_empty (s : string) :
  Js.is_empty (Js.trim s) = all_chars Js.is_space s.
Proof.
  unfold Js.trim. rewrite <- trimStart_empty.
  pose proof (trimStart_head s) as H.
  destruct (Js.trimStart s) as [|c t]; [reflexivity|]. simpl.
  destruct (Js.trimEnd t); [now rewrite H | reflexivity].
Qed.

(** [indexOf] of one character at the offset asked for: the character
    is there. *)
Lemma indexOf_here (s : string) (c : ascii) (from : nat) :
  Js.indexOf s (String c EmptyString) from = Some from ->
  char_at s from = Some c.
Proof.
  intros H. apply JsFacts.indexOf_Some in H as (_ & _ & Hocc & _).
  unfold Js.occurs_at in Hocc. unfold char_at.
  replace from with (from + 0) by lia. rewrite <- ScannerFacts.get_drop.
  destruct (Js.drop from s) as [|b t]; [discriminate|]. simpl in *.
  destruct (Ascii.eqb_spec c b) as [->|]; [reflexivity | discriminate].
Qed.

(** A match is not empty and lies in the text: the cursor moves
    forward. *)
Lemma exec_progress (text : string) (lastIndex : nat) (m : RegExpExecArray) :
  exec text lastIndex = Some m ->
  lastIndex < m.(index) + m.(length0)
  /\ m.(index) + m.(length0) <= String.length text.
Proof.
  intros H. apply exec_Some in H as [Hle Hm].
  apply match_BRACKET_PATTERN_spec in Hm as (_ & H1 & H2).
  rewrite JsFacts.length_drop in H2. lia.
Qed.

Section WithHost.
Context {host : Host}.

(** The fuel of [scan] is never used up. *)
Lemma scan_fuel (text : string) :
  forall n m lastIndex acc,
    String.length text - lastIndex < n ->
    String.length text - lastIndex < m ->
    scan n text lastIndex acc = scan m text lastIndex acc.
Proof.
  induction n as [|n IH]; intros m lastIndex acc Hn Hm; [lia|].
  destruct m as [|m]; [lia|]. simpl.
  destruct (exec text lastIndex) as [mt|] eqn:E; [|reflexivity].
  apply exec_progress in E as [H1 H2]. apply IH; lia.
Qed.

(** What the loop does for a match keeps every recorded tool call, with
    its removal, an accepted match. *)
Lemma on_match_accepted (text : string) (lastIndex : nat)
      (m : RegExpExecArray)
      (acc : list BracketToolCall * list removal) :
  exec text lastIndex = Some m ->
  Forall2 (accepted_match text) (fst acc) (snd acc) ->
  Forall2 (accepted_match text)
          (fst (on_match text m acc)) (snd (on_match text m acc)).
Proof.
  intros Hexec Hacc. unfold on_match.
  destruct (Js.indexOf text "{" (index m + length0 m)) as [braceIdx|] eqn:Eb;
    [|assumption].
  destruct (Nat.eqb_spec braceIdx (index m + length0 m)) as [->|];
    [|assumption].
  simpl negb. cbv iota.
  destruct (findJsonEnd text (index m + length0 m)) as [e|] eqn:Ee;
    [|assumption].
  destruct (Js.indexOf text "]" (e + 1)) as [r|] eqn:Er; [|assumption].
  destruct (Js.is_empty (Js.trim (Js.substring text (e + 1) r))) eqn:Et;
    [|assumption].
  simpl negb. cbv iota.
  destruct (JSON_parse (Js.substring text (index m + length0 m) (e + 1)))
    as [args|] eqn:Ep; [|assumption].
  simpl. apply Forall2_app; [assumption|].
  constructor; [|constructor].
  exists (index m), (length0 m), e, r. simpl.
  apply exec_Some in Hexec as [_ Hm].
  apply match_BRACKET_PATTERN_spec in Hm as (Hanchor & _).
  rewrite trim_empty in Et.
  repeat split; try assumption.
  now apply indexOf_here.
Qed.

Lemma scan_accepted (text : string) :
  forall fuel lastIndex acc,
    Forall2 (accepted_match text) (fst acc) (snd acc) ->
    Forall2 (accepted_match text)
            (fst (scan fuel text lastIndex acc))
            (snd (scan fuel text lastIndex acc)).
Proof.
  induction fuel as [|fuel IH]; intros lastIndex acc Hacc; simpl;
    [assumption|].
  destruct (exec text lastIndex) as [m|] eqn:E; [|assumption].
  apply IH. eapply on_match_accepted; eassumption.
Qed.

(** The extractor records a tool call only for an accepted match: an
    anchor [[Called <name> with args: ] whose end is exactly where the
    opening brace is, with the brace-balanced text from there parsing
    as JSON, and only white space between the closing brace and the
    next closing bracket.  A rejected match adds no removal, and when
    no match is accepted the cleaned text is the input text.  The
    removals are applied from the last to the first, each with the
    offsets it has in the input text. *)
Theorem bracket_extraction (text : string) :
  let result := parseBracketToolCalls text in
  exists removals,
    Forall2 (accepted_match text) result.(toolCalls) removals
    /\ result.(cleanedText) = remove_all text removals
    /\ (result.(toolCalls) = [] -> result.(cleanedText) = text).
Proof.
  cbv zeta. unfold parseBracketToolCalls.
  pose proof (scan_accepted text (S (String.length text)) 0 ([], [])
                            (Forall2_nil _)) as H.
  destruct (scan (S (String.length text)) text 0 ([], []))
    as [calls removals].
  simpl in *. exists removals.
  split; [assumption|]. split; [reflexivity|].
  intros ->. inversion H. reflexivity.
Qed.

End WithHost.

(** C8. An accepted call inside the arguments of an accepted call makes
    the removals overlap, and the text of a rejected match is cut.  The
    pattern resumes behind the anchor, so the call [b] in the arguments
    of [a] is matched and accepted as well; its removal, applied first,
    shortens the text by 24 characters, and the removal of [a], with
    its offsets in the input text, then cuts 60 characters of the
    shortened text: all of [a] and the first 24 characters of the
    rejected match that follows. *)
Lemma nested_call_cuts_rejected_match :
  let inner := "[Called b with args: {}]" in
  let rejected := "[Called c with args: {bad}]" in
  let text := "[Called a with args: " ++ key_pattern "content" ++ Js.quote
              ++ inner ++ Js.quote ++ "}]" ++ rejected ++ " tail" in
  let result := @parseBracketToolCalls Readers.content_reader text in
  (exists m,
      exec text 54 = Some m
      /\ Js.substring text m.(index) (m.(index) + String.length rejected)
         = rejected
      /\ forall acc, @on_match Readers.content_reader text m acc = acc)
  /\ map name result.(toolCalls) = ["a"; "b"]
  /\ @scan Readers.content_reader (S (String.length text)) text 0 ([], [])
     = (result.(toolCalls), [(0, 60); (33, 57)])
  /\ result.(cleanedText) = "d}] tail"
  /\ Js.includes result.(cleanedText) rejected = false.
Proof.
  intros inner rejected text result.
  split; [|repeat split; vm_compute; reflexivity].
  eexists. split; [vm_compute; reflexivity|].
  split; [vm_compute; reflexivity|].
  intros acc. reflexivity.
Qed.

End BracketFacts.


(* ================================================================== *)
(** * More on the retry decision engine *)
(* ================================================================== *)

Module RetryLaws.
Import Retry Spec.

Lemma pow2_pos (n : nat) : (0 < 2 ^ Z.of_nat n)%Z.
Proof. apply Z.pow_pos_nonneg; lia. Qed.

Lemma pow2_le (a b : nat) : a <= b -> (2 ^ Z.of_nat a <= 2 ^ Z.of_nat b)%Z.
Proof. intros H. apply Z.pow_le_mono_r; lia. Qed.

(** X1. With a positive base, the backoff delay never decreases from
    one attempt to a later one and never exceeds the cap; once
    [baseMs * 2 ^ a] has reached the cap, every attempt from [a] on
    waits exactly the cap.  (With the base 0 the source computes
    [0 * Infinity] from the attempt 1024 on, which is not a number.) *)
Theorem exponentialBackoff_monotone (a b : nat) (baseMs maxMs : Z) :
  (0 < baseMs)%Z -> a <= b ->
  (exponentialBackoff a baseMs maxMs <= exponentialBackoff b baseMs maxMs)%Z
  /\ (exponentialBackoff b baseMs maxMs <= maxMs)%Z
  /\ (maxMs <= baseMs * 2 ^ Z.of_nat a ->
      exponentialBackoff b baseMs maxMs = maxMs)%Z.
Proof.
  intros Hbase Hab. unfold exponentialBackoff.
  pose proof (pow2_le a b Hab) as Hpow.
  assert (baseMs * 2 ^ Z.of_nat a <= baseMs * 2 ^ Z.of_nat b)%Z
    by (apply Z.mul_le_mono_nonneg_l; [lia | assumption]).
  split; [|split].
  - apply Z.min_le_compat_r. assumption.
  - apply Z.le_min_r.
  - intros Hcap. apply Z.min_r. lia.
Qed.

Lemma exponentialBackoff_monotone_witness :
  (exponentialBackoff 2 1000 30000 <= exponentialBackoff 5 1000 30000)%Z
  /\ exponentialBackoff 5 1000 30000 = 30000%Z.
Proof.
  destruct (exponentialBackoff_monotone 2 5 1000 30000) as (H1 & _ & _);
    [lia | lia |].
  split; [exact H1 | reflexivity].
Defined.

Lemma backoff_bounds (attempt : nat) (baseMs : Z) :
  (0 < baseMs <= 30000)%Z ->
  (0 < exponentialBackoff attempt baseMs 30000 <= 30000)%Z.
Proof.
  intros H. unfold exponentialBackoff. pose proof (pow2_pos attempt).
  split; [apply Z.min_glb_lt; nia | apply Z.le_min_r].
Qed.

(** X2. Every decision of [decideRetry] is well formed: it asks for a
    retry exactly when its strategy is not [none], and only while the
    attempt index is below the budget; [reduce] and [none] come with
    the delay 0, [backoff] with a delay that is positive and at most
    30000 ms, so that the orchestrator waits before every backoff
    retry; a status from 200 to 299 is never retried. *)
Theorem decideRetry_wellformed (status : Z) (errorText : string)
        (attempt maxRetries : nat) :
  let d := decideRetry status errorText attempt maxRetries in
  (d.(shouldRetry) = true <-> d.(strategy) <> none)
  /\ (d.(shouldRetry) = true -> attempt < maxRetries)
  /\ (d.(strategy) = reduce -> d.(delayMs) = 0%Z)
  /\ (d.(strategy) = backoff -> (0 < d.(delayMs) <= 30000)%Z)
  /\ (d.(strategy) = none -> d.(delayMs) = 0%Z)
  /\ ((200 <= status <= 299)%Z -> d = no_retry).
Proof.
  cbv zeta. unfold decideRetry.
  pose proof (backoff_bounds attempt 1000 ltac:(lia)) as B1.
  pose proof (backoff_bounds attempt 500 ltac:(lia)) as B2.
  destruct (Nat.leb_spec maxRetries attempt) as [Hge|Hlt].
  { simpl. repeat split; try congruence; try discriminate; try lia. }
  destruct ((status =? 413)%Z
            || (status =? 400)%Z
               && existsb (fun p => Js.includes errorText p) TOO_BIG_PATTERNS)
    eqn:Hred.
  { simpl. repeat split; try congruence; try discriminate; try lia. }
  destruct (Z.eqb_spec status 429).
  { simpl. repeat split; try congruence; try discriminate; try lia. }
  destruct (Z.leb_spec 500 status), (Z.ltb_spec status 600); simpl;
    try (repeat split; try congruence; try discriminate; lia);
    destruct (Z.eqb_spec status 403); simpl;
      repeat split; try congruence; try discriminate; try lia.
Qed.

End RetryLaws.


(* ================================================================== *)
(** * More on the frame scanner *)
(* ================================================================== *)

Module StringLaws.
Import Js.

Lemma drop_app_le (n : nat) (a b : string) :
  n <= String.length a -> drop n (a ++ b) = drop n a ++ b.
Proof.
  revert a; induction n as [|n IH]; intros a H.
  - now rewrite !JsFacts.drop_0.
  - destruct a as [|c a]; simpl in *; [lia|]. apply IH. lia.
Qed.

Lemma take_app_le (n : nat) (a b : string) :
  n <= String.length a -> take n (a ++ b) = take n a.
Proof.
  revert a; induction n as [|n IH]; intros a H.
  - now rewrite !JsFacts.take_0.
  - destruct a as [|c a]; simpl in *; [lia|]. rewrite IH; [reflexivity|lia].
Qed.

Lemma is_prefix_app (p s t : string) :
  is_prefix p s = true -> is_prefix p (s ++ t) = true.
Proof.
  intros H. apply JsFacts.is_prefix_iff in H as [u ->].
  apply JsFacts.is_prefix_iff. exists (u ++ t). apply JsFacts.append_assoc.
Qed.

Lemma is_prefix_app_inv (p s t : string) :
  String.length p <= String.length s ->
  is_prefix p (s ++ t) = true -> is_prefix p s = true.
Proof.
  revert s; induction p as [|a p IH]; intros s Hlen; simpl; [reflexivity|].
  destruct s as [|b s]; simpl in *; [lia|].
  destruct (Ascii.eqb a b); simpl; [|discriminate].
  apply IH. lia.
Qed.

Lemma is_prefix_get (p s : string) (k : nat) :
  is_prefix p s = true -> k < String.length p ->
  String.get k s = String.get k p.
Proof.
  revert s k; induction p as [|a p IH]; intros s k H Hk; simpl in *; [lia|].
  destruct s as [|b s]; [discriminate|].
  apply andb_true_iff in H as [Hab H]. apply Ascii.eqb_eq in Hab as ->.
  destruct k as [|k]; simpl; [reflexivity|]. apply IH; [assumption|lia].
Qed.

Lemma get_app_l (a b : string) (i : nat) :
  i < String.length a -> String.get i (a ++ b) = String.get i a.
Proof.
  revert i; induction a as [|c a IH]; intros i H; simpl in *; [lia|].
  destruct i as [|i]; [reflexivity|]. apply IH. lia.
Qed.

Lemma find_from_offset (p s : string) (k off : nat) :
  find_from p s (k + off) = option_map (Nat.add k) (find_from p s off).
Proof.
  revert off; induction s as [|c s IH]; intros off; simpl.
  - now destruct (is_prefix p EmptyString).
  - destruct (is_prefix p (String c s)); [reflexivity|].
    rewrite <- IH. f_equal. lia.
Qed.

Lemma indexOf_drop (s p : string) (k from : nat) :
  k <= String.length s ->
  indexOf s p (k + from) = option_map (Nat.add k) (indexOf (drop k s) p from).
Proof.
  intros Hk. unfold indexOf. cbv zeta.
  rewrite JsFacts.length_drop.
  replace (Nat.min (k + from) (String.length s))
    with (k + Nat.min from (String.length s - k)) by lia.
  rewrite JsFacts.drop_drop. apply find_from_offset.
Qed.

Lemma substring_drop (s : string) (k a b : nat) :
  substring s (k + a) (k + b) = substring (drop k s) a b.
Proof.
  unfold substring. rewrite JsFacts.drop_drop.
  replace (Nat.max (k + a) (k + b) - Nat.min (k + a) (k + b))
    with (Nat.max a b - Nat.min a b) by lia.
  replace (Nat.min (k + a) (k + b)) with (k + Nat.min a b) by lia.
  reflexivity.
Qed.

Lemma substring_app_le (s t : string) (a b : nat) :
  a <= b -> b <= String.length s ->
  substring (s ++ t) a b = substring s a b.
Proof.
  intros Hab Hb. unfold substring.
  replace (Nat.min a b) with a by lia. replace (Nat.max a b) with b by lia.
  rewrite drop_app_le by lia. apply take_app_le.
  rewrite JsFacts.length_drop. lia.
Qed.

End StringLaws.

Module ScannerLaws.
Import EventParser Spec Notions.

Lemma findJsonEnd_loop_app (rest more : string) :
  forall i braceCount inString escapeNext e,
    findJsonEnd_loop rest i braceCount inString escapeNext = Some e ->
    findJsonEnd_loop (rest ++ more) i braceCount inString escapeNext = Some e.
Proof.
  induction rest as [|c rest IH]; intros i bc inS esc e; simpl;
    [discriminate|].
  destruct esc; [apply IH|].
  destruct (Ascii.eqb c Js.backslash); [apply IH|].
  destruct (Ascii.eqb c Js.dquote); [apply IH|].
  destruct (negb inS); [|apply IH].
  destruct (Ascii.eqb c Js.lbrace); [apply IH|].
  destruct (Ascii.eqb c Js.rbrace); [|apply IH].
  destruct (bc - 1 =? 0)%Z; [auto | apply IH].
Qed.

Lemma findJsonEnd_loop_app_inv (rest more : string) :
  forall i braceCount inString escapeNext e,
    findJsonEnd_loop (rest ++ more) i braceCount inString escapeNext = Some e ->
    e < i + String.length rest ->
    findJsonEnd_loop rest i braceCount inString escapeNext = Some e.
Proof.
  induction rest as [|c rest IH]; intros i bc inS esc e; simpl.
  - intros H Hlt. apply ScannerFacts.findJsonEnd_loop_Some in H. lia.
  - assert (Hnext : forall bc' inS' esc',
               findJsonEnd_loop (rest ++ more) (S i) bc' inS' esc' = Some e ->
               e < i + S (String.length rest) ->
               findJsonEnd_loop rest (S i) bc' inS' esc' = Some e).
    { intros bc' inS' esc' H Hlt. apply IH; [assumption|lia]. }
    destruct esc; [apply Hnext|].
    destruct (Ascii.eqb c Js.backslash); [apply Hnext|].
    destruct (Ascii.eqb c Js.dquote); [apply Hnext|].
    destruct (negb inS); [|apply Hnext].
    destruct (Ascii.eqb c Js.lbrace); [apply Hnext|].
    destruct (Ascii.eqb c Js.rbrace); [|apply Hnext].
    destruct (bc - 1 =? 0)%Z; [auto | apply Hnext].
Qed.

Lemma findJsonEnd_loop_offset (rest : string) (k : nat) :
  forall i braceCount inString escapeNext,
    findJsonEnd_loop rest (k + i) braceCount inString escapeNext
    = option_map (Nat.add k)
        (findJsonEnd_loop rest i braceCount inString escapeNext).
Proof.
  induction rest as [|c rest IH]; intros i bc inS esc; simpl; [reflexivity|].
  replace (S (k + i)) with (k + S i) by lia.
  destruct esc; [apply IH|].
  destruct (Ascii.eqb c Js.backslash); [apply IH|].
  destruct (Ascii.eqb c Js.dquote); [apply IH|].
  destruct (negb inS); [|apply IH].
  destruct (Ascii.eqb c Js.lbrace); [apply IH|].
  destruct (Ascii.eqb c Js.rbrace); [|apply IH].
  destruct (bc - 1 =? 0)%Z; [reflexivity | apply IH].
Qed.

Lemma findJsonEnd_app (text more : string) (start e : nat) :
  findJsonEnd text start = Some e ->
  findJsonEnd (text ++ more) start = Some e.
Proof.
  unfold findJsonEnd. intros H.
  destruct (Nat.le_gt_cases start (String.length text)) as [Hle|Hgt].
  - rewrite StringLaws.drop_app_le by assumption.
    now apply findJsonEnd_loop_app.
  - rewrite JsFacts.drop_all in H by lia. discriminate.
Qed.

Lemma findJsonEnd_app_inv (text more : string) (start e : nat) :
  findJsonEnd (text ++ more) start = Some e -> e < String.length text ->
  findJsonEnd text start = Some e.
Proof.
  unfold findJsonEnd. intros H He.
  assert (start <= e)
    by (apply ScannerFacts.findJsonEnd_loop_Some in H; lia).
  rewrite StringLaws.drop_app_le in H by lia.
  apply findJsonEnd_loop_app_inv in H; [assumption|].
  rewrite JsFacts.length_drop. lia.
Qed.

Lemma findJsonEnd_drop (s : string) (k a : nat) :
  findJsonEnd s (k + a) = option_map (Nat.add k) (findJsonEnd (Js.drop k s) a).
Proof.
  unfold findJsonEnd. rewrite JsFacts.drop_drop. apply findJsonEnd_loop_offset.
Qed.

(** X3. Where [findJsonEnd] finds the end of a fragment, the end is a
    closing brace at or after the start and inside the text; it stays
    where it is when more text follows the text (a fragment that is
    complete in a buffer is complete, with the same end, in every
    longer buffer), and it moves with the text when a prefix that ends
    at or before the start is cut off. *)
Theorem findJsonEnd_stable (text : string) (start e : nat) :
  findJsonEnd text start = Some e ->
  (start <= e /\ e < String.length text
   /\ char_at text e = Some Js.rbrace)
  /\ (forall more, findJsonEnd (text ++ more) start = Some e)
  /\ (forall k, k <= start ->
                findJsonEnd (Js.drop k text) (start - k) = Some (e - k)).
Proof.
  intros H. pose proof (ScannerFacts.findJsonEnd_Some _ _ _ H) as Hb.
  split; [exact Hb|]. split.
  - intros more. now apply findJsonEnd_app.
  - intros k Hk.
    replace start with (k + (start - k)) in H by lia.
    rewrite findJsonEnd_drop in H.
    destruct (findJsonEnd (Js.drop k text) (start - k)) as [e'|];
      [|discriminate].
    simpl in H. injection H as <-. f_equal. lia.
Qed.

Lemma findJsonEnd_stable_witness :
  findJsonEnd ("{" ++ Js.quote ++ "a" ++ Js.quote ++ ":{}} tail") 0 = Some 7.
Proof.
  destruct (findJsonEnd_stable ("{" ++ Js.quote ++ "a" ++ Js.quote ++ ":{}}")
                               0 7 eq_refl) as (_ & H & _).
  exact (H " tail").
Defined.

(** ** Anchors *)

Lemma patterns_brace_then_none :
  forallb brace_then_none EVENT_PATTERNS = true.
Proof. reflexivity. Qed.

Lemma all_chars_get (f : ascii -> bool) (s : string) (k : nat) (c : ascii) :
  all_chars f s = true -> String.get k s = Some c -> f c = true.
Proof.
  revert k; induction s as [|a s IH]; intros k H Hk; simpl in *;
    [discriminate|].
  apply andb_true_iff in H as [Ha H].
  destruct k as [|k]; [now injection Hk as <- | now apply (IH k)].
Qed.

Lemma pattern_shape (p : string) :
  In p EVENT_PATTERNS ->
  String.get 0 p = Some Js.lbrace
  /\ forall k, 1 <= k -> String.get k p <> Some Js.lbrace.
Proof.
  intros Hin.
  pose proof (proj1 (forallb_forall _ _) patterns_brace_then_none p Hin) as H.
  destruct p as [|c t]; simpl in H; [discriminate|].
  apply andb_true_iff in H as [Hc Ht]. apply Ascii.eqb_eq in Hc as ->.
  split; [reflexivity|].
  intros [|k] Hk Hget; [lia|]. simpl in Hget.
  pose proof (all_chars_get _ _ _ _ Ht Hget) as E.
  cbv in E. discriminate.
Qed.

Lemma anchor_brace (buffer : string) (a : nat) :
  anchor_at buffer a -> String.get a buffer = Some Js.lbrace.
Proof.
  intros [p [Hin Hocc]]. unfold Js.occurs_at in Hocc.
  pose proof (pattern_shape p Hin) as [H0 _].
  pose proof (ScannerFacts.pattern_not_empty p Hin) as Hlen.
  rewrite <- (StringLaws.is_prefix_get p (Js.drop a buffer) 0 Hocc) in H0
    by lia.
  rewrite ScannerFacts.get_drop in H0. now rewrite Nat.add_0_r in H0.
Qed.

Lemma anchor_at_app (buffer more : string) (j : nat) :
  anchor_at buffer j -> anchor_at (buffer ++ more) j.
Proof.
  intros H. pose proof (ScannerFacts.anchor_inside _ _ H) as Hj.
  destruct H as [p [Hin Hocc]]. exists p. split; [assumption|].
  unfold Js.occurs_at in *. rewrite StringLaws.drop_app_le by lia.
  now apply StringLaws.is_prefix_app.
Qed.

(** Before an anchor of the buffer, what follows the buffer makes no new
    anchor: a pattern that ran over the end would have a brace inside. *)
Lemma anchor_at_app_inv (buffer more : string) (j a : nat) :
  anchor_at buffer a -> j < a -> anchor_at (buffer ++ more) j ->
  anchor_at buffer j.
Proof.
  intros Ha Hja [p [Hin Hocc]].
  pose proof (ScannerFacts.anchor_inside _ _ Ha) as Hlen.
  pose proof (anchor_brace _ _ Ha) as Hbrace.
  exists p. split; [assumption|].
  unfold Js.occurs_at in *.
  rewrite StringLaws.drop_app_le in Hocc by lia.
  destruct (Nat.le_gt_cases (String.length p)
                            (String.length (Js.drop j buffer))) as [Hfit|Hover].
  - now apply StringLaws.is_prefix_app_inv in Hocc.
  - exfalso. rewrite JsFacts.length_drop in Hover.
    pose proof (pattern_shape p Hin) as [_ Hno].
    apply (Hno (a - j)); [lia|].
    rewrite <- (StringLaws.is_prefix_get p _ (a - j) Hocc) by lia.
    rewrite StringLaws.get_app_l by (rewrite JsFacts.length_drop; lia).
    rewrite ScannerFacts.get_drop.
    now replace (j + (a - j)) with a by lia.
Qed.

Lemma next_anchor_app (buffer more : string) (pos a : nat) :
  next_anchor buffer pos a -> next_anchor (buffer ++ more) pos a.
Proof.
  intros (Hpos & Ha & Hmin). split; [assumption|].
  split; [now apply anchor_at_app|].
  intros j Hj Hja Hanchor. apply (Hmin j Hj Hja).
  now apply (anchor_at_app_inv buffer more j a).
Qed.

Lemma findNextEventStart_complete (buffer : string) (from a : nat) :
  from <= String.length buffer ->
  next_anchor buffer from a -> findNextEventStart buffer from = Some a.
Proof.
  intros Hfrom Hnext.
  destruct (findNextEventStart buffer from) as [b|] eqn:E.
  - apply ScannerFacts.findNextEventStart_Some in E; [|assumption].
    f_equal. now apply (ScannerFacts.next_anchor_unique buffer from).
  - apply ScannerFacts.findNextEventStart_None in E.
    destruct Hnext as (Hle & Ha & _). destruct (E a Hle Ha).
Qed.

(** X4. For a start within the buffer, [findNextEventStart] returns the
    least position from the start on at which one of the key patterns
    occurs, and -1 (here [None]) exactly when none occurs from there
    on. *)
Theorem findNextEventStart_least (buffer : string) (from : nat) :
  from <= String.length buffer ->
  (forall a, findNextEventStart buffer from = Some a
             <-> next_anchor buffer from a)
  /\ (findNextEventStart buffer from = None <-> no_anchor_from buffer from).
Proof.
  intros Hfrom. split.
  - intros a. split.
    + now apply ScannerFacts.findNextEventStart_Some.
    + now apply findNextEventStart_complete.
  - split; [apply ScannerFacts.findNextEventStart_None|].
    intros Hno. destruct (findNextEventStart buffer from) as [a|] eqn:E;
      [|reflexivity].
    apply ScannerFacts.findNextEventStart_Some in E as (Hle & Ha & _);
      [|assumption].
    destruct (Hno a Hle Ha).
Qed.

End ScannerLaws.

Module ResumeLaws.
Import EventParser Spec.

Lemma findNextEventStart_app (buffer more : string) (pos a : nat) :
  pos <= String.length buffer ->
  findNextEventStart buffer pos = Some a ->
  findNextEventStart (buffer ++ more) pos = Some a.
Proof.
  intros Hpos H. apply ScannerFacts.findNextEventStart_Some in H; [|assumption].
  apply ScannerLaws.findNextEventStart_complete.
  - rewrite JsFacts.length_append. lia.
  - now apply ScannerLaws.next_anchor_app.
Qed.

Lemma findNextEventStart_here (buffer : string) (a : nat) :
  anchor_at buffer a -> findNextEventStart buffer a = Some a.
Proof.
  intros Ha. pose proof (ScannerFacts.anchor_inside _ _ Ha).
  apply ScannerLaws.findNextEventStart_complete; [lia|].
  split; [lia|]. split; [assumption|]. intros j; lia.
Qed.

Lemma earliest_shift (s : string) (k from : nat) (patterns : list string) :
  k <= String.length s ->
  forall acc,
    fold_left
      (fun earliest pattern =>
         match Js.indexOf s pattern (k + from) with
         | Some idx =>
             match earliest with
             | None => Some idx
             | Some e => if (idx <? e)%nat then Some idx else earliest
             end
         | None => earliest
         end) patterns (option_map (Nat.add k) acc)
    = option_map (Nat.add k)
        (fold_left
           (fun earliest pattern =>
              match Js.indexOf (Js.drop k s) pattern from with
              | Some idx =>
                  match earliest with
                  | None => Some idx
                  | Some e => if (idx <? e)%nat then Some idx else earliest
                  end
              | None => earliest
              end) patterns acc).
Proof.
  intros Hk. induction patterns as [|p patterns IH]; intros acc; simpl;
    [reflexivity|].
  rewrite StringLaws.indexOf_drop by assumption.
  destruct (Js.indexOf (Js.drop k s) p from) as [idx|]; simpl; [|apply IH].
  destruct acc as [e|]; simpl; [|apply (IH (Some idx))].
  destruct (Nat.ltb_spec idx e), (Nat.ltb_spec (k + idx) (k + e)); try lia.
  - apply (IH (Some idx)).
  - apply (IH (Some e)).
Qed.

Lemma findNextEventStart_drop (s : string) (k from : nat) :
  k <= String.length s ->
  findNextEventStart s (k + from)
  = option_map (Nat.add k) (findNextEventStart (Js.drop k s) from).
Proof.
  intros Hk. unfold findNextEventStart.
  apply (earliest_shift s k from EVENT_PATTERNS Hk None).
Qed.

Section WithHost.
Context {host : Host}.

(** The events found so far are only added to. *)
Lemma loop_events (buffer : string) :
  forall fuel pos events,
    parseKiroEvents_loop fuel buffer pos events
    = ((events ++ fst (parseKiroEvents_loop fuel buffer pos []))%list,
       snd (parseKiroEvents_loop fuel buffer pos [])).
Proof.
  induction fuel as [|fuel IH]; intros pos events; simpl.
  - now rewrite app_nil_r.
  - destruct (pos <? String.length buffer)%nat; simpl;
      [|now rewrite app_nil_r].
    destruct (findNextEventStart buffer pos) as [a|]; simpl;
      [|now rewrite app_nil_r].
    destruct (findJsonEnd buffer a) as [e|]; simpl; [|now rewrite app_nil_r].
    rewrite (IH _ (push_event events _)), (IH _ (push_event [] _)).
    rewrite !ScannerFacts.push_event_app. simpl.
    now rewrite <- app_assoc.
Qed.

(** Scanning from [k + pos] is scanning what is left from [k] on. *)
Lemma loop_drop (s : string) (k : nat) :
  k <= String.length s ->
  forall fuel pos events,
    parseKiroEvents_loop fuel s (k + pos) events
    = parseKiroEvents_loop fuel (Js.drop k s) pos events.
Proof.
  intros Hk. induction fuel as [|fuel IH]; intros pos events; simpl;
    [reflexivity|].
  rewrite JsFacts.length_drop.
  destruct (Nat.ltb_spec (k + pos) (String.length s)),
           (Nat.ltb_spec pos (String.length s - k)); try lia;
    [|reflexivity].
  rewrite findNextEventStart_drop by assumption.
  destruct (findNextEventStart (Js.drop k s) pos) as [a|]; simpl;
    [|reflexivity].
  rewrite ScannerLaws.findJsonEnd_drop.
  destruct (findJsonEnd (Js.drop k s) a) as [e|]; simpl.
  - replace (k + e + 1) with (k + (e + 1)) by lia.
    rewrite StringLaws.substring_drop. apply IH.
  - now rewrite JsFacts.drop_drop.
Qed.

(** A scan that stops at a truncated fragment goes the same way, up to
    that fragment, when more text follows the buffer. *)
Lemma loop_app (buffer more : string) :
  forall fuel pos events evs rem,
    parseKiroEvents_loop fuel buffer pos events = (evs, rem) ->
    rem <> EmptyString ->
    exists a,
      pos <= a /\ a < String.length buffer /\ rem = Js.drop a buffer
      /\ forall n, String.length (buffer ++ more) - pos < n ->
                   parseKiroEvents_loop n (buffer ++ more) pos events
                   = parseKiroEvents_loop n (buffer ++ more) a evs.
Proof.
  induction fuel as [|fuel IH]; intros pos events evs rem; simpl.
  { intros [= _ <-] H. congruence. }
  destruct (Nat.ltb_spec pos (String.length buffer)) as [Hpos|Hpos];
    [|intros [= _ <-] H; congruence].
  destruct (findNextEventStart buffer pos) as [a|] eqn:Ea;
    [|intros [= _ <-] H; congruence].
  pose proof (ScannerFacts.findNextEventStart_Some buffer pos a
                ltac:(lia) Ea) as (Hle & Hanchor & Hmin).
  pose proof (ScannerFacts.anchor_inside _ _ Hanchor) as Ha.
  pose proof (findNextEventStart_app buffer more pos a ltac:(lia) Ea) as Ea'.
  pose proof (findNextEventStart_here (buffer ++ more) a
                (ScannerLaws.anchor_at_app _ more _ Hanchor)) as Eh.
  assert (Hlen : String.length (buffer ++ more)
                 = String.length buffer + String.length more)
    by apply JsFacts.length_append.
  destruct (findJsonEnd buffer a) as [e|] eqn:Ee.
  - intros Hrun Hrem.
    pose proof (ScannerFacts.findJsonEnd_Some _ _ _ Ee) as (Hae & He & _).
    destruct (IH _ _ _ _ Hrun Hrem) as (a' & H1 & H2 & H3 & H4).
    exists a'. split; [lia|]. split; [assumption|]. split; [assumption|].
    intros [|n] Hn; [lia|].
    rewrite <- (ScannerFacts.parseKiroEvents_loop_fuel (buffer ++ more)
                  n (S n) a' evs) by lia.
    rewrite <- H4 by lia. simpl.
    destruct (Nat.ltb_spec pos (String.length (buffer ++ more))); [|lia].
    rewrite Ea', (ScannerLaws.findJsonEnd_app _ more _ _ Ee).
    now rewrite StringLaws.substring_app_le by lia.
  - intros [= <- <-] Hrem.
    exists a. split; [assumption|]. split; [assumption|].
    split; [reflexivity|].
    intros [|n] Hn; [lia|]. simpl.
    destruct (Nat.ltb_spec pos (String.length (buffer ++ more))); [|lia].
    destruct (Nat.ltb_spec a (String.length (buffer ++ more))); [|lia].
    now rewrite Ea', Eh.
Qed.

Lemma parseKiroEvents_resume_eq (buffer more : string) :
  snd (parseKiroEvents buffer) <> EmptyString ->
  parseKiroEvents (buffer ++ more)
  = ((fst (parseKiroEvents buffer)
      ++ fst (parseKiroEvents (snd (parseKiroEvents buffer) ++ more)))%list,
     snd (parseKiroEvents (snd (parseKiroEvents buffer) ++ more))).
Proof.
  intros Hrem. unfold parseKiroEvents in *.
  destruct (parseKiroEvents_loop (S (String.length buffer)) buffer 0 [])
    as [evs rem] eqn:E.
  simpl in Hrem. simpl fst. simpl snd.
  destruct (loop_app buffer more _ _ _ _ _ E Hrem)
    as (a & _ & Ha & -> & Hrun).
  rewrite Hrun by lia.
  assert (Hlen : String.length (buffer ++ more)
                 = String.length buffer + String.length more)
    by apply JsFacts.length_append.
  replace a with (a + 0) at 1 by lia.
  rewrite loop_drop by lia.
  rewrite StringLaws.drop_app_le by lia.
  rewrite loop_events.
  rewrite (ScannerFacts.parseKiroEvents_loop_fuel (Js.drop a buffer ++ more)
             (S (String.length (buffer ++ more)))
             (S (String.length (Js.drop a buffer ++ more))) 0 []);
    [reflexivity | |];
    rewrite ?JsFacts.length_append, ?JsFacts.length_drop; lia.
Qed.

(** X5. Resuming the scan loses nothing.  When the scan of a buffer
    stops at a fragment that is not complete (the remaining text is not
    empty), the scan of the buffer followed by more text finds the
    events of the buffer, then the events that the scan of the
    remaining text followed by that text finds, and leaves what that
    second scan leaves. *)
Theorem parseKiroEvents_resume (buffer more : string) :
  snd (parseKiroEvents buffer) <> EmptyString ->
  let first := parseKiroEvents buffer in
  let second := parseKiroEvents (snd first ++ more) in
  parseKiroEvents (buffer ++ more)
  = ((fst first ++ fst second)%list, snd second).
Proof. intros H. cbv zeta. now apply parseKiroEvents_resume_eq. Qed.

(** X26. A buffer in which no key pattern occurs yields no event and
    an empty remaining text, whatever it holds; the next scan sees the
    next chunk alone.  So the start of a fragment whose key pattern is
    cut by the end of the buffer is dropped. *)
Theorem no_anchor_nothing (buffer more : string) :
  no_anchor_from buffer 0 ->
  parseKiroEvents buffer = ([], EmptyString)
  /\ parseKiroEvents (snd (parseKiroEvents buffer) ++ more)
     = parseKiroEvents more.
Proof.
  intros Hno.
  assert (H : parseKiroEvents buffer = ([], EmptyString)).
  { unfold parseKiroEvents. simpl.
    destruct (0 <? String.length buffer)%nat; [|reflexivity].
    destruct (findNextEventStart buffer 0) as [a|] eqn:E; [|reflexivity].
    apply ScannerFacts.findNextEventStart_Some in E as (Hle & Ha & _);
      [|lia].
    destruct (Hno a Hle Ha). }
  split; [exact H|]. now rewrite H.
Qed.

End WithHost.
End ResumeLaws.


(* ================================================================== *)
(** * More on the thinking segmenter *)
(* ================================================================== *)

Module SegmenterLaws.
Import Output ThinkingParser Spec Notions.

(** ** Lists of blocks and of events *)

Lemma nth_error_update_at_other (l : list ContentBlock) (i j : nat)
      (f : ContentBlock -> ContentBlock) :
  i <> j -> nth_error (update_at i f l) j = nth_error l j.
Proof.
  revert i j; induction l as [|x l IH]; intros [|i] [|j] H; simpl;
    try reflexivity; try lia.
  apply IH. lia.
Qed.

Lemma firstn_update_at (l : list ContentBlock) (n i : nat)
      (f : ContentBlock -> ContentBlock) :
  n <= i -> firstn n (update_at i f l) = firstn n l.
Proof.
  revert n i; induction l as [|x l IH]; intros [|n] [|i] H; simpl;
    try reflexivity; try lia.
  f_equal. apply IH. lia.
Qed.

Lemma firstn_all_le (l l0 : list ContentBlock) :
  firstn (List.length l0) l = l0 -> List.length l0 <= List.length l.
Proof.
  intros H. apply (f_equal (@List.length _)) in H.
  rewrite length_firstn in H. lia.
Qed.

Lemma firstn_app_le (l more : list ContentBlock) (n : nat) :
  n <= List.length l -> firstn n (l ++ more) = firstn n l.
Proof.
  intros H. rewrite firstn_app.
  replace (n - List.length l) with 0 by lia. simpl. apply app_nil_r.
Qed.

Lemma nth_error_app_le (l more : list ContentBlock) (j : nat) (b : ContentBlock) :
  nth_error l j = Some b -> nth_error (l ++ more) j = Some b.
Proof.
  intros H. rewrite nth_error_app1; [assumption|].
  apply nth_error_Some. congruence.
Qed.

Lemma concat_all_app (l1 l2 : list string) :
  concat_all (l1 ++ l2) = concat_all l1 ++ concat_all l2.
Proof.
  induction l1 as [|x l1 IH]; simpl; [reflexivity|].
  now rewrite IH, JsFacts.append_assoc.
Qed.

Lemma delta_text_app (l1 l2 : list AssistantMessageEvent) :
  delta_text (l1 ++ l2) = delta_text l1 ++ delta_text l2.
Proof.
  unfold delta_text, text_deltas.
  now rewrite flat_map_app, map_app, concat_all_app.
Qed.

Lemma delta_thinking_app (l1 l2 : list AssistantMessageEvent) :
  delta_thinking (l1 ++ l2) = delta_thinking l1 ++ delta_thinking l2.
Proof.
  unfold delta_thinking, thinking_deltas.
  now rewrite flat_map_app, concat_all_app.
Qed.

Lemma text_starts_app (l1 l2 : list AssistantMessageEvent) :
  text_starts (l1 ++ l2) = (text_starts l1 ++ text_starts l2)%list.
Proof. apply flat_map_app. Qed.

Lemma thinking_starts_app (l1 l2 : list AssistantMessageEvent) :
  thinking_starts (l1 ++ l2) = (thinking_starts l1 ++ thinking_starts l2)%list.
Proof. apply flat_map_app. Qed.

Lemma thinking_deltas_app (l1 l2 : list AssistantMessageEvent) :
  thinking_deltas (l1 ++ l2)
  = (thinking_deltas l1 ++ thinking_deltas l2)%list.
Proof. apply flat_map_app. Qed.

Lemma thinking_ends_app (l1 l2 : list AssistantMessageEvent) :
  thinking_ends (l1 ++ l2) = (thinking_ends l1 ++ thinking_ends l2)%list.
Proof. apply flat_map_app. Qed.

Lemma delta_text_nil (l : list AssistantMessageEvent) :
  text_deltas l = [] -> delta_text l = EmptyString.
Proof. unfold delta_text. now intros ->. Qed.

Lemma delta_thinking_nil (l : list AssistantMessageEvent) :
  thinking_deltas l = [] -> delta_thinking l = EmptyString.
Proof. unfold delta_thinking. now intros ->. Qed.

(** ** The two emitters *)

Ltac events_app :=
  rewrite ?text_starts_app, ?thinking_starts_app,
    ?StreamFacts.text_deltas_app,
    ?thinking_deltas_app, ?thinking_ends_app, ?delta_text_app,
    ?delta_thinking_app, ?forallb_app.

(** The projections of a few events, computed. *)
Ltac compute_more more :=
  let go f :=
    (let v := eval cbv [delta_text delta_thinking text_starts thinking_starts
                        text_deltas thinking_deltas thinking_ends flat_map
                        map app concat_all fold_right toString forallb
                        is_segment_event andb] in (f more) in
     change (f more) with v) in
  try go text_starts; try go thinking_starts; try go text_deltas;
  try go thinking_deltas; try go thinking_ends; try go delta_text;
  try go delta_thinking; try go (forallb is_segment_event).

Ltac after_more more :=
  events_app; compute_more more;
  rewrite ?app_nil_r, ?JsFacts.append_empty_r, ?andb_true_r.

Lemma emitText_agrees (sh0 sh : Shared) (p : ThinkingTagParser)
      (events : list AssistantMessageEvent) (text : string) :
  slots_agree sh0 sh p events ->
  let st := emitText text (sh, p) in
  (exists more,
      slots_agree sh0 (fst st) (snd st) (events ++ more)
      /\ thinking_deltas more = [] /\ thinking_ends more = []
      /\ delta_text more = text)
  /\ (snd st).(textBuffer) = p.(textBuffer)
  /\ (snd st).(inThinking) = p.(inThinking)
  /\ (snd st).(thinkingExtracted) = p.(thinkingExtracted)
  /\ (snd st).(thinkingBlockIndex) = p.(thinkingBlockIndex)
  /\ (snd st).(activeEndTag) = p.(activeEndTag).
Proof.
  intros (Hev & Hseg & Hfirst & Htext & Hthinking).
  pose proof (firstn_all_le _ _ Hfirst) as Hlen.
  unfold emitText, slot_agrees in *.
  destruct (textBlockIndex p) as [i|] eqn:Ei; cbn [fst snd];
    (split; [|now repeat split]).
  - destruct Htext as (Hi & Hstarts & Hblock).
    exists [text_delta i (JStr text)].
    split; [|repeat split; apply JsFacts.append_empty_r].
    unfold slots_agree, slot_agrees. rewrite Ei. simpl.
    after_more [text_delta i (JStr text)].
    split; [now rewrite Hev, <- app_assoc|].
    split; [assumption|].
    split; [now rewrite firstn_update_at|].
    split; [repeat split; try assumption;
            now rewrite (StreamFacts.nth_error_update_at _ _ _ _ Hblock)|].
    destruct (thinkingBlockIndex p) as [j|]; [|assumption].
    destruct Hthinking as (Hj & Hs & Hb). repeat split; try assumption.
    rewrite nth_error_update_at_other; [assumption | congruence].
  - destruct Htext as (Hstarts & Hdeltas).
    set (idx := List.length (output_content sh)).
    exists [text_start idx; text_delta idx (JStr text)].
    split; [|repeat split; apply JsFacts.append_empty_r].
    unfold slots_agree, slot_agrees. simpl.
    after_more [text_start idx; text_delta idx (JStr text)].
    split; [now rewrite Hev, <- !app_assoc|].
    split; [assumption|].
    split; [rewrite firstn_update_at by assumption;
            now rewrite firstn_app_le|].
    split.
    { rewrite Hstarts, (delta_text_nil _ Hdeltas).
      repeat split; try assumption. unfold idx.
      now rewrite (StreamFacts.nth_error_update_at _ _ _ _
                     (StreamFacts.nth_error_last _ _)). }
    destruct (thinkingBlockIndex p) as [j|]; [|assumption].
    destruct Hthinking as (Hj & Hs & Hb). repeat split; try assumption.
    assert (j < idx) by (apply nth_error_Some; congruence).
    rewrite nth_error_update_at_other by lia.
    now apply nth_error_app_le.
Qed.

Lemma emitThinking_agrees (sh0 sh : Shared) (p : ThinkingTagParser)
      (events : list AssistantMessageEvent) (thinking : string) :
  slots_agree sh0 sh p events ->
  let st := emitThinking thinking (sh, p) in
  (exists more,
      slots_agree sh0 (fst st) (snd st) (events ++ more)
      /\ thinking_ends more = []
      /\ delta_thinking more = thinking)
  /\ (snd st).(textBuffer) = p.(textBuffer)
  /\ (snd st).(inThinking) = p.(inThinking)
  /\ (snd st).(thinkingExtracted) = p.(thinkingExtracted)
  /\ (snd st).(textBlockIndex) = p.(textBlockIndex)
  /\ (snd st).(activeEndTag) = p.(activeEndTag).
Proof.
  intros (Hev & Hseg & Hfirst & Htext & Hthinking).
  pose proof (firstn_all_le _ _ Hfirst) as Hlen.
  unfold emitThinking, slot_agrees in *.
  destruct (thinkingBlockIndex p) as [i|] eqn:Ei; cbn [fst snd];
    (split; [|now repeat split]).
  - destruct Hthinking as (Hi & Hstarts & Hblock).
    exists [thinking_delta i thinking].
    split; [|repeat split; apply JsFacts.append_empty_r].
    unfold slots_agree, slot_agrees. rewrite Ei. simpl.
    after_more [thinking_delta i thinking].
    split; [now rewrite Hev, <- app_assoc|].
    split; [assumption|].
    split; [now rewrite firstn_update_at|].
    split.
    { destruct (textBlockIndex p) as [j|]; [|assumption].
      destruct Htext as (Hj & Hs & Hb). repeat split; try assumption.
      rewrite nth_error_update_at_other; [assumption | congruence]. }
    repeat split; try assumption.
    now rewrite (StreamFacts.nth_error_update_at _ _ _ _ Hblock).
  - destruct Hthinking as (Hstarts & Hdeltas).
    set (idx := List.length (output_content sh)).
    exists [thinking_start idx; thinking_delta idx thinking].
    split; [|repeat split; apply JsFacts.append_empty_r].
    unfold slots_agree, slot_agrees. simpl.
    after_more [thinking_start idx; thinking_delta idx thinking].
    split; [now rewrite Hev, <- !app_assoc|].
    split; [assumption|].
    split; [rewrite firstn_update_at by assumption;
            now rewrite firstn_app_le|].
    split.
    { destruct (textBlockIndex p) as [j|]; [|assumption].
      destruct Htext as (Hj & Hs & Hb). repeat split; try assumption.
      assert (j < idx) by (apply nth_error_Some; congruence).
      rewrite nth_error_update_at_other by lia.
      now apply nth_error_app_le. }
    rewrite Hstarts, (delta_thinking_nil _ Hdeltas).
    repeat split; try assumption. unfold idx.
    now rewrite (StreamFacts.nth_error_update_at _ _ _ _
                   (StreamFacts.nth_error_last _ _)).
Qed.

(** ** The phases *)

Lemma slots_agree_indices (sh0 sh : Shared) (p p' : ThinkingTagParser)
      (events : list AssistantMessageEvent) :
  p'.(textBlockIndex) = p.(textBlockIndex) ->
  p'.(thinkingBlockIndex) = p.(thinkingBlockIndex) ->
  slots_agree sh0 sh p events -> slots_agree sh0 sh p' events.
Proof. unfold slots_agree. now intros -> ->. Qed.

Lemma ok_transfer (sh0 sh : Shared) (p p' : ThinkingTagParser) :
  p'.(textBlockIndex) = p.(textBlockIndex) ->
  p'.(thinkingBlockIndex) = p.(thinkingBlockIndex) ->
  p'.(thinkingExtracted) = p.(thinkingExtracted) ->
  (p'.(inThinking) = true -> p'.(thinkingExtracted) = false) ->
  segmenter_ok sh0 (sh, p) -> segmenter_ok sh0 (sh, p').
Proof.
  intros H1 H2 H3 H4 (events & Hs & _ & He & Hc). cbn [fst snd] in *.
  exists events. cbn [fst snd].
  split; [now apply (slots_agree_indices sh0 sh p)|].
  split; [exact H4|]. split; [rewrite H3; exact He | exact Hc].
Qed.

Lemma ok_emitText (sh0 sh : Shared) (p : ThinkingTagParser) (text : string) :
  segmenter_ok sh0 (sh, p) ->
  let st := emitText text (sh, p) in
  segmenter_ok sh0 st
  /\ (snd st).(inThinking) = p.(inThinking)
  /\ (snd st).(thinkingExtracted) = p.(thinkingExtracted)
  /\ (snd st).(thinkingBlockIndex) = p.(thinkingBlockIndex).
Proof.
  intros (events & Hs & Hp & He & Hc). cbn [fst snd] in *. cbv zeta.
  destruct (emitText_agrees sh0 sh p events text Hs)
    as ((more & Hs' & Hd & Hends & _) & _ & H2 & H3 & H4 & _).
  split; [|auto].
  exists (events ++ more)%list. rewrite H2, H3.
  split; [assumption|]. split; [assumption|].
  unfold closed_once. events_app.
  rewrite (delta_thinking_nil _ Hd), Hends, !app_nil_r,
    JsFacts.append_empty_r.
  split; assumption.
Qed.

Lemma ok_emitThinking (sh0 sh : Shared) (p : ThinkingTagParser)
      (thinking : string) :
  segmenter_ok sh0 (sh, p) -> p.(thinkingExtracted) = false ->
  let st := emitThinking thinking (sh, p) in
  segmenter_ok sh0 st
  /\ (snd st).(inThinking) = p.(inThinking)
  /\ (snd st).(thinkingExtracted) = p.(thinkingExtracted)
  /\ (snd st).(textBlockIndex) = p.(textBlockIndex).
Proof.
  intros (events & Hs & Hp & He & Hc) Hex. cbn [fst snd] in *. cbv zeta.
  destruct (emitThinking_agrees sh0 sh p events thinking Hs)
    as ((more & Hs' & Hends & _) & _ & H2 & H3 & H4 & _).
  split; [|auto].
  exists (events ++ more)%list. rewrite H2, H3.
  split; [assumption|]. split; [assumption|].
  unfold closed_once. events_app. rewrite Hends, (He Hex). simpl. auto.
Qed.

Lemma ok_before (sh0 : Shared) (st : state) :
  before_thinking (snd st) -> segmenter_ok sh0 st ->
  segmenter_ok sh0 (processBeforeThinking st).
Proof.
  destruct st as [sh p]. cbn [snd]. intros [Hin Hex] Hok.
  unfold processBeforeThinking.
  destruct (bestMatch (textBuffer p)) as [[bestPos bestVariant]|].
  - destruct (0 <? bestPos)%nat.
    + destruct (ok_emitText sh0 sh p (Js.take bestPos (textBuffer p)) Hok)
        as (Hok' & H1 & H2 & H3).
      destruct (emitText _ (sh, p)) as [sh' p']. cbn [fst snd] in *.
      apply (ok_transfer sh0 sh' p'); try reflexivity; try assumption.
      cbn. congruence.
    + apply (ok_transfer sh0 sh p); try reflexivity; try assumption.
      cbn. congruence.
  - cbv zeta. destruct (0 <? _)%nat; [|assumption].
    destruct (ok_emitText sh0 sh p
                (Js.take (String.length (textBuffer p) - MAX_OPEN_TAG_LEN)
                         (textBuffer p)) Hok) as (Hok' & H1 & H2 & H3).
    destruct (emitText _ (sh, p)) as [sh' p']. cbn [fst snd] in *.
    apply (ok_transfer sh0 sh' p'); try reflexivity; try assumption.
    cbn. congruence.
Qed.

(** Closing the thinking block: the boundary carries the block. *)
Lemma close_agrees (sh0 sh : Shared) (p p' : ThinkingTagParser) :
  segmenter_ok sh0 (sh, p) -> p.(thinkingExtracted) = false ->
  p'.(textBlockIndex) = p.(textBlockIndex) ->
  p'.(thinkingBlockIndex) = p.(thinkingBlockIndex) ->
  exists events,
    slots_agree sh0
      (match p.(thinkingBlockIndex) with
       | Some idx => push (thinking_end idx (thinking_of idx sh)) sh
       | None => sh
       end) p' events
    /\ closed_once events.
Proof.
  intros (events & Hs & Hp & He & Hc) Hex H1 H2. cbn [fst snd] in *.
  specialize (He Hex).
  destruct (thinkingBlockIndex p) as [idx|] eqn:Ei.
  - exists (events ++ [thinking_end idx (thinking_of idx sh)])%list.
    destruct Hs as (Hev & Hseg & Hfirst & Htext & Hthinking).
    unfold slot_agrees in Hthinking. rewrite Ei in Hthinking.
    destruct Hthinking as (Hi & Hstarts & Hblock).
    assert (Hof : thinking_of idx sh = delta_thinking events)
      by (unfold thinking_of; now rewrite Hblock).
    split.
    + unfold slots_agree, slot_agrees. rewrite H1, H2. simpl.
      after_more [thinking_end idx (thinking_of idx sh)].
      split; [now rewrite Hev, <- app_assoc|].
      split; [assumption|]. split; [assumption|].
      split; [assumption|]. auto.
    + right.
      after_more [thinking_end idx (thinking_of idx sh)].
      now rewrite He, Hof.
  - exists events.
    split; [apply (slots_agree_indices sh0 sh p);
            [assumption | congruence | assumption]|assumption].
Qed.

Lemma ok_close (sh0 sh : Shared) (p p' : ThinkingTagParser) :
  segmenter_ok sh0 (sh, p) -> p.(thinkingExtracted) = false ->
  p'.(textBlockIndex) = p.(textBlockIndex) ->
  p'.(thinkingBlockIndex) = p.(thinkingBlockIndex) ->
  p'.(inThinking) = false -> p'.(thinkingExtracted) = true ->
  segmenter_ok sh0
    (match p.(thinkingBlockIndex) with
     | Some idx => push (thinking_end idx (thinking_of idx sh)) sh
     | None => sh
     end, p').
Proof.
  intros Hok Hex H1 H2 H3 H4.
  destruct (close_agrees sh0 sh p p' Hok Hex H1 H2) as (events & Hs & Hc).
  exists events. cbn [fst snd].
  split; [assumption|]. split; [congruence|]. split; [congruence|assumption].
Qed.

Lemma ok_inside (sh0 : Shared) (st : state) :
  (snd st).(inThinking) = true -> segmenter_ok sh0 st ->
  segmenter_ok sh0 (processInsideThinking st).
Proof.
  destruct st as [sh p]. cbn [snd]. intros Hin Hok.
  assert (Hex : thinkingExtracted p = false)
    by (destruct Hok as (events & _ & Hp & _); now apply Hp).
  unfold processInsideThinking.
  destruct (Js.indexOf (textBuffer p) (activeEndTag p) 0) as [endPos|].
  - destruct (0 <? endPos)%nat.
    + destruct (ok_emitThinking sh0 sh p (Js.take endPos (textBuffer p))
                                Hok Hex) as (Hok' & H1 & H2 & H3).
      destruct (emitThinking _ (sh, p)) as [sh' p']. cbn [fst snd] in *.
      apply (ok_close sh0 sh' p'); try reflexivity; try assumption.
      congruence.
    + apply (ok_close sh0 sh p); try reflexivity; assumption.
  - cbv zeta. destruct (0 <? _)%nat; [|assumption].
    destruct (ok_emitThinking sh0 sh p
                (Js.take (String.length (textBuffer p) - MAX_CLOSE_TAG_LEN)
                         (textBuffer p)) Hok Hex) as (Hok' & H1 & H2 & H3).
    destruct (emitThinking _ (sh, p)) as [sh' p']. cbn [fst snd] in *.
    apply (ok_transfer sh0 sh' p'); try reflexivity; try assumption.
    cbn. congruence.
Qed.

Lemma ok_after (sh0 : Shared) (st : state) :
  segmenter_ok sh0 st -> segmenter_ok sh0 (processAfterThinking st).
Proof.
  destruct st as [sh p]. intros Hok. unfold processAfterThinking.
  cbn [snd].
  destruct (ok_emitText sh0 sh p (textBuffer p) Hok) as (Hok' & H1 & H2 & H3).
  destruct (emitText _ (sh, p)) as [sh' p']. cbn [fst snd] in *.
  apply (ok_transfer sh0 sh' p'); try reflexivity; try assumption.
  destruct Hok' as (events & _ & Hp & _). exact Hp.
Qed.

Lemma ok_loop (sh0 : Shared) :
  forall fuel st,
    segmenter_ok sh0 st -> segmenter_ok sh0 (processChunk_loop fuel st).
Proof.
  induction fuel as [|fuel IH]; intros st Hok; simpl; [assumption|].
  destruct (buffer_empty st); [assumption|].
  set (before := negb (inThinking (snd st))
                 && negb (thinkingExtracted (snd st))).
  assert (Hok1 : segmenter_ok sh0
                   (if before then processBeforeThinking st else st)).
  { destruct before eqn:Eb; [|assumption].
    apply ok_before; [|assumption].
    apply andb_true_iff in Eb as [E1 E2].
    apply negb_true_iff in E1, E2. now split. }
  set (st1 := if before then processBeforeThinking st else st) in *.
  destruct (before && buffer_empty st1); [assumption|].
  assert (Hok2 : segmenter_ok sh0
                   (if inThinking (snd st1) then processInsideThinking st1
                    else st1)).
  { destruct (inThinking (snd st1)) eqn:Ei; [|assumption].
    now apply ok_inside. }
  set (st2 := if inThinking (snd st1) then processInsideThinking st1
              else st1) in *.
  destruct (inThinking (snd st1) && buffer_empty st2); [assumption|].
  destruct (thinkingExtracted (snd st2)); [now apply ok_after|].
  destruct (_ <=? _)%nat; [assumption | now apply IH].
Qed.

Lemma ok_processChunk (sh0 : Shared) (chunk : string) (st : state) :
  segmenter_ok sh0 st -> segmenter_ok sh0 (processChunk chunk st).
Proof.
  destruct st as [sh p]. intros Hok. unfold processChunk.
  apply ok_loop.
  apply (ok_transfer sh0 sh p); try reflexivity; try assumption.
  destruct Hok as (events & _ & Hp & _). exact Hp.
Qed.

Lemma ok_new (sh0 : Shared) : segmenter_ok sh0 (sh0, new).
Proof.
  exists []. cbn [fst snd]. unfold slots_agree, slot_agrees, closed_once.
  simpl. rewrite app_nil_r, firstn_all. auto 10.
Qed.

Lemma ok_chunks (sh0 : Shared) (chunks : list string) :
  forall st, segmenter_ok sh0 st -> segmenter_ok sh0 (feed chunks st).
Proof.
  induction chunks as [|c chunks IH]; intros st Hok; simpl; [assumption|].
  apply IH. now apply ok_processChunk.
Qed.

(** When the segmenter is finalized its events still agree with its
    slots, and the boundary has come at most once. *)
Lemma finalize_agrees (sh0 : Shared) (st : state) :
  segmenter_ok sh0 st ->
  exists events,
    slots_agree sh0 (fst (finalize st)) (snd (finalize st)) events
    /\ closed_once events.
Proof.
  destruct st as [sh p]. intros Hok. unfold finalize.
  destruct (Js.is_empty (textBuffer p)).
  { destruct Hok as (events & Hs & _ & _ & Hc). now exists events. }
  assert (Htext : forall st',
             st' = emitText (textBuffer p) (sh, p) ->
             exists events,
               slots_agree sh0 (fst st')
                           (set_textBuffer EmptyString (snd st')) events
               /\ closed_once events).
  { intros st' ->.
    destruct (ok_emitText sh0 sh p (textBuffer p) Hok)
      as ((events & Hs & _ & _ & Hc) & _).
    exists events. split; [|assumption].
    now apply (slots_agree_indices sh0 _ (snd (emitText (textBuffer p) (sh, p)))). }
  destruct (inThinking p) eqn:Hin.
  - destruct (thinkingBlockIndex p) as [idx|] eqn:Ei.
    + assert (Hex : thinkingExtracted p = false)
        by (destruct Hok as (events & _ & Hp & _); now apply Hp).
      destruct (ok_emitThinking sh0 sh p (textBuffer p) Hok Hex)
        as (Hok' & H1 & H2 & H3).
      assert (Hemit : emitThinking (textBuffer p) (sh, p)
                      = (push (thinking_delta idx (textBuffer p))
                              (append_thinking idx (textBuffer p) sh), p))
        by (unfold emitThinking; now rewrite Ei).
      rewrite Hemit in *. cbn [fst snd] in *.
      pose proof (close_agrees sh0 _ p (set_textBuffer EmptyString p)
                    Hok' Hex eq_refl eq_refl) as Hclose.
      rewrite Ei in Hclose. exact Hclose.
    + destruct (emitText (textBuffer p) (sh, p)) as [sh' p'] eqn:E.
      apply (Htext (sh', p')). first [reflexivity | now rewrite E].
  - destruct (thinkingBlockIndex p);
      destruct (emitText (textBuffer p) (sh, p)) as [sh' p'] eqn:E;
      apply (Htext (sh', p')); first [reflexivity | now rewrite E].
Qed.

(** X19. The events of the segmenter and the output agree, while it is
    fed chunks and when it is finalized: the segmenter pushes nothing
    but text and thinking starts and deltas and the thinking end; the
    blocks that were in the output before are untouched; a slot (text,
    thinking) that is not open has no start and no delta; an open slot
    was started exactly once, with its own index, which lies after the
    blocks from before, and its block holds the concatenation of its
    deltas; the thinking end comes at most once and carries all the
    thinking. *)
Theorem segmenter_output_agrees (sh0 : Shared) (chunks : list string) :
  let st := feed chunks (sh0, new) in
  (exists events,
      slots_agree sh0 (fst st) (snd st) events /\ closed_once events)
  /\ (exists events,
         slots_agree sh0 (fst (finalize st)) (snd (finalize st)) events
         /\ closed_once events).
Proof.
  cbv zeta. pose proof (ok_chunks sh0 chunks _ (ok_new sh0)) as Hok.
  split; [|now apply finalize_agrees].
  destruct Hok as (events & Hs & _ & _ & Hc). now exists events.
Qed.

(** ** Past the thinking block *)

#[local] Arguments processBeforeThinking : simpl never.
#[local] Arguments processInsideThinking : simpl never.
#[local] Arguments processAfterThinking : simpl never.
#[local] Arguments emitText : simpl never.
#[local] Arguments emitThinking : simpl never.

Lemma loop_after (fuel : nat) (sh : Shared) (p : ThinkingTagParser) :
  p.(thinkingExtracted) = true -> p.(inThinking) = false ->
  p.(textBuffer) <> EmptyString ->
  processChunk_loop (S fuel) (sh, p) = processAfterThinking (sh, p).
Proof.
  intros Hex Hin Hbuf. simpl. unfold buffer_empty. cbn [snd].
  destruct (textBuffer p) eqn:Eb; [congruence|]. simpl.
  rewrite Hin, Hex. cbn [negb andb snd]. rewrite Hin.
  cbn [andb snd]. now rewrite Hex.
Qed.

(** X17. Once the thinking block has been extracted the segmenter
    passes everything on as text: a chunk (with whatever the buffer
    held) is one text delta, verbatim, even if it holds a thinking tag;
    the buffer is left empty, the phase and the thinking slot stay as
    they are, and the text slot is opened if it was not. *)
Theorem after_thinking_verbatim (sh : Shared) (p : ThinkingTagParser)
        (chunk : string) :
  p.(thinkingExtracted) = true -> p.(inThinking) = false ->
  p.(textBuffer) ++ chunk <> EmptyString ->
  let st := processChunk chunk (sh, p) in
  (snd st).(textBuffer) = EmptyString
  /\ (snd st).(thinkingExtracted) = true
  /\ (snd st).(inThinking) = false
  /\ (snd st).(thinkingBlockIndex) = p.(thinkingBlockIndex)
  /\ exists idx,
      (snd st).(textBlockIndex) = Some idx
      /\ pushed sh (fst st)
                (match p.(textBlockIndex) with
                 | Some _ => [text_delta idx (JStr (p.(textBuffer) ++ chunk))]
                 | None => [text_start idx;
                            text_delta idx (JStr (p.(textBuffer) ++ chunk))]
                 end).
Proof.
  intros Hex Hin Hbuf. cbv zeta. unfold processChunk.
  rewrite loop_after by assumption.
  unfold processAfterThinking. cbn [snd set_textBuffer textBuffer].
  pose proof (ThinkingFacts.emitText_spec (textBuffer p ++ chunk) sh
                (set_textBuffer (textBuffer p ++ chunk) p))
    as ((idx & Hidx & Hpushed) & _ & H2 & H3 & H4 & _).
  cbv zeta in *.
  destruct (emitText _ _) as [sh' p']. cbn [fst snd] in *.
  cbn [set_textBuffer textBuffer inThinking thinkingExtracted
       thinkingBlockIndex textBlockIndex] in *.
  repeat split; try congruence.
  exists idx. split; assumption.
Qed.

Lemma after_thinking_verbatim_witness :
  let st0 := processChunk "<think>x</think>" (emptyShared, new) in
  let st := processChunk "<think>y</think>" st0 in
  (fst st).(stream_events)
  = ((fst st0).(stream_events)
     ++ [text_start 1; text_delta 1 (JStr "<think>y</think>")])%list.
Proof.
  intros st0 st.
  destruct (after_thinking_verbatim (fst st0) (snd st0) "<think>y</think>"
              eq_refl eq_refl ltac:(discriminate))
    as (_ & _ & _ & _ & idx & Hidx & Hpushed).
  vm_compute in Hidx. injection Hidx as <-. exact Hpushed.
Defined.

(** ** Text without tags *)

Lemma no_open_tag_of_bool (s : string) :
  has_open_tag s = false -> no_open_tag s.
Proof.
  unfold has_open_tag, no_open_tag. intros H v i Hin Hocc.
  assert (existsb (fun v => Js.includes s (open v)) THINKING_TAG_VARIANTS
          = true); [|congruence].
  apply existsb_exists. exists v. split; [assumption|].
  apply JsFacts.includes_iff.
  apply JsFacts.occurs_at_iff in Hocc as (pre & post & Hs & _). eauto.
Qed.

(** A tag that occurs in a part of a text occurs in the text. *)
Lemma no_open_tag_part (x y z : string) :
  no_open_tag (x ++ y ++ z) -> no_open_tag y.
Proof.
  intros H v i Hin Hocc. 
  apply JsFacts.occurs_at_iff in Hocc as (pre & post & -> & _).
  apply (H v (String.length (x ++ pre)) Hin).
  apply JsFacts.occurs_at_iff. exists (x ++ pre), (post ++ z).
  split; [now rewrite !JsFacts.append_assoc|].
  rewrite !JsFacts.length_append. lia.
Qed.

Lemma plain_step (sh0 : Shared) (seen chunk : string) (st : state) :
  plain_so_far sh0 seen st ->
  no_open_tag ((snd st).(textBuffer) ++ chunk) ->
  plain_so_far sh0 (seen ++ chunk) (processChunk chunk st).
Proof.
  destruct st as [sh p]. unfold plain_so_far. cbn [fst snd].
  intros (Hbefore & Hnone & events & Hpushed & Hd & He & Hseen) Hno.
  unfold processChunk.
  set (p1 := set_textBuffer (textBuffer p ++ chunk) p).
  assert (Hb1 : before_thinking p1) by exact Hbefore.
  rewrite (ThinkingFacts.loop_before _ sh p1 Hb1 Hno (Nat.le_refl _)).
  destruct (ThinkingFacts.processBeforeThinking_hold_back sh p1 Hb1 Hno)
    as (Hbuf & Hb & Hidx & _ & events' & Hp' & Hd' & Hth' & He').
  cbv zeta in *. cbn [textBuffer p1 set_textBuffer] in *.
  split; [assumption|]. split; [now rewrite Hidx|].
  exists (events ++ events')%list.
  unfold pushed in *. rewrite Hp', Hpushed, app_assoc.
  split; [reflexivity|]. events_app. rewrite Hd, Hth', He, He'.
  split; [reflexivity|]. split; [reflexivity|].
  rewrite Hbuf. unfold delta_text at 2. rewrite Hd'.
  rewrite <- Hseen, !JsFacts.append_assoc. f_equal.
  destruct (Nat.ltb_spec 0 (String.length (textBuffer p ++ chunk)
                            - MAX_OPEN_TAG_LEN)) as [Hpos|Hzero]; simpl.
  - now rewrite JsFacts.append_empty_r, JsFacts.take_drop.
  - replace (String.length (textBuffer p ++ chunk) - MAX_OPEN_TAG_LEN)
      with 0 by lia.
    now rewrite JsFacts.drop_0.
Qed.

Lemma plain_chunks (sh0 : Shared) (chunks : list string) :
  forall seen st,
    plain_so_far sh0 seen st ->
    no_open_tag (seen ++ concat_all chunks) ->
    plain_so_far sh0 (seen ++ concat_all chunks) (feed chunks st).
Proof.
  induction chunks as [|c chunks IH]; intros seen st Hst Hno; simpl.
  - now rewrite JsFacts.append_empty_r.
  - rewrite <- JsFacts.append_assoc. apply IH.
    + apply plain_step; [assumption|].
      destruct Hst as (_ & _ & events & _ & _ & _ & <-).
      simpl in Hno. rewrite !JsFacts.append_assoc in Hno.
      rewrite <- (JsFacts.append_assoc (textBuffer (snd st))) in Hno.
      now apply no_open_tag_part in Hno.
    + now rewrite JsFacts.append_assoc.
Qed.

(** X18. Text in which no open tag occurs is conserved, however it is
    cut into chunks: after the chunks and [finalize] the text deltas
    add up to the whole text, nothing is held back, no thinking event
    is pushed and, unless the text is empty, the text block holds the
    whole text. *)
Theorem plain_text_conserved (sh0 : Shared) (chunks : list string) :
  has_open_tag (concat_all chunks) = false ->
  let st := finalize (feed chunks (sh0, new)) in
  (snd st).(textBuffer) = EmptyString
  /\ exists events,
      pushed sh0 (fst st) events
      /\ delta_text events = concat_all chunks
      /\ thinking_starts events = []
      /\ thinking_deltas events = []
      /\ thinking_ends events = []
      /\ (concat_all chunks <> EmptyString ->
          exists idx,
            (snd st).(textBlockIndex) = Some idx
            /\ nth_error (fst st).(output_content) idx
               = Some (TextContent (concat_all chunks))).
Proof.
  intros Hno. apply no_open_tag_of_bool in Hno. cbv zeta.
  assert (H0 : plain_so_far sh0 EmptyString (sh0, new)).
  { split; [now split|]. split; [reflexivity|]. exists [].
    unfold pushed. simpl. now rewrite app_nil_r. }
  pose proof (plain_chunks sh0 chunks EmptyString _ H0 Hno) as Hplain.
  simpl in Hplain.
  pose proof (finalize_agrees sh0 _ (ok_chunks sh0 chunks _ (ok_new sh0)))
    as (events' & Hs & _).
  destruct (feed chunks (sh0, new)) as [sh p].
  destruct Hplain
    as ((Hin & Hex) & Hnone & events & Hpushed & Hd & He & Hseen).
  cbn [fst snd] in *.
  assert (Hfin : (snd (finalize (sh, p))).(textBuffer) = EmptyString
                 /\ (snd (finalize (sh, p))).(thinkingBlockIndex) = None
                 /\ exists more,
                     pushed sh (fst (finalize (sh, p))) more
                     /\ delta_text more = textBuffer p
                     /\ thinking_deltas more = []
                     /\ thinking_ends more = []).
  { unfold finalize. destruct (textBuffer p) as [|c b] eqn:Eb.
    - simpl. split; [assumption|]. split; [assumption|].
      exists []. unfold pushed. simpl. now rewrite app_nil_r.
    - cbn [Js.is_empty]. rewrite Hin.
      pose proof (ThinkingFacts.emitText_spec (String c b) sh p)
        as ((idx & _ & Hp) & _ & _ & _ & Hidx & _).
      cbv zeta in Hp, Hidx.
      destruct (emitText (String c b) (sh, p)) as [sh' p'].
      cbn [fst snd set_textBuffer textBuffer thinkingBlockIndex] in *.
      split; [reflexivity|]. split; [congruence|].
      eexists. split; [exact Hp|].
      destruct (textBlockIndex p); unfold delta_text; simpl;
        now rewrite JsFacts.append_empty_r. }
  destruct Hfin as (Hbuf & Hnone' & more & Hmore & Hdm & Htm & Hem).
  split; [assumption|].
  assert (Hall : pushed sh0 (fst (finalize (sh, p))) (events ++ more)).
  { unfold pushed in *. now rewrite Hmore, Hpushed, app_assoc. }
  exists (events ++ more)%list. split; [assumption|].
  assert (Htotal : delta_text (events ++ more) = concat_all chunks)
    by (rewrite delta_text_app, Hdm; assumption).
  split; [assumption|].
  destruct Hs as (Hev & _ & _ & Htext & Hthinking).
  unfold pushed in Hall. rewrite Hall in Hev.
  apply app_inv_head in Hev. subst events'.
  unfold slot_agrees in Hthinking. rewrite Hnone' in Hthinking.
  split; [apply Hthinking|].
  events_app. rewrite Hd, He, Htm, Hem.
  split; [reflexivity|]. split; [reflexivity|].
  intros Hne. unfold slot_agrees in Htext.
  { 
    destruct (textBlockIndex (snd (finalize (sh, p)))) as [i|].
    + exists i. split; [reflexivity|]. rewrite <- Htotal. apply Htext.
    + destruct Htext as (_ & Hnodelta).
      rewrite (delta_text_nil _ Hnodelta) in Htotal. congruence. }
Qed.

Lemma plain_text_conserved_witness :
  let st := finalize (feed ["Just plain "; "text"; ", with no tag at all"]
                           (emptyShared, new)) in
  (fst st).(output_content)
  = [TextContent "Just plain text, with no tag at all"].
Proof.
  intros st.
  destruct (plain_text_conserved
              emptyShared ["Just plain "; "text"; ", with no tag at all"]
              eq_refl)
    as (_ & events & _ & _ & _ & _ & _ & Hblock).
  destruct (Hblock ltac:(discriminate)) as (idx & Hidx & Hnth).
  vm_compute in Hidx. injection Hidx as <-.
  fold st in Hnth.
  destruct (output_content (fst st)) as [|b [|b' l]] eqn:E;
    try (vm_compute in E; discriminate).
  simpl in Hnth. now injection Hnth as ->.
Defined.

End SegmenterLaws.


(* ================================================================== *)
(** * More on the stream orchestrator *)
(* ================================================================== *)

Module ChunkLaws.
Import Output EventParser Stream Spec.

Lemma set_buffer_set_buffer (r1 r2 : string) (a : Attempt) :
  set_buffer r2 (set_buffer r1 a) = set_buffer r2 a.
Proof. reflexivity. Qed.

(** The event loop neither reads nor writes the buffer. *)
Lemma handleEvent_set_buffer (r : string) (a : Attempt) (e : KiroStreamEvent) :
  handleEvent (set_buffer r a) e = set_buffer r (handleEvent a e).
Proof.
  destruct a as [sh w b tot last us rc tp tbi tcs cur].
  destruct e;
    repeat (unfold onContent;
            cbn [handleEvent set_buffer set_tools shared warnings
                 buffer totalContent lastContentData usageEvent
                 receivedContextUsage thinkingParser textBlockIndex toolCalls
                 currentToolCall];
            match goal with
            | |- context [if ?c then _ else _] => destruct c
            | |- context [match ?x with _ => _ end] => destruct x
            end);
    reflexivity.
Qed.

Lemma handleEvents_set_buffer (r : string) (events : list KiroStreamEvent) :
  forall a, handleEvents (set_buffer r a) events
            = set_buffer r (handleEvents a events).
Proof.
  induction events as [|e events IH]; intros a; simpl; [reflexivity|].
  rewrite handleEvent_set_buffer. apply IH.
Qed.

Lemma handleEvents_buffer (events : list KiroStreamEvent) (a : Attempt) :
  (handleEvents a events).(buffer) = a.(buffer).
Proof.
  assert (H : set_buffer (buffer a) a = a) by now destruct a.
  transitivity (buffer (handleEvents (set_buffer (buffer a) a) events)).
  - now rewrite H.
  - now rewrite handleEvents_set_buffer.
Qed.

Section WithHost.
Context {host : Host}.

Lemma onChunk_buffer (value : string) (a : Attempt) :
  (onChunk value a).(buffer) = snd (parseKiroEvents (a.(buffer) ++ value)).
Proof.
  unfold onChunk. destruct (parseKiroEvents (buffer a ++ value)) as [evs rem].
  now rewrite handleEvents_buffer.
Qed.

Lemma onChunk_split_eq (c1 c2 : string) (a : Attempt) :
  (onChunk c1 a).(buffer) <> EmptyString ->
  onChunk c2 (onChunk c1 a) = onChunk (c1 ++ c2) a.
Proof.
  intros Hrem. rewrite onChunk_buffer in Hrem.
  unfold onChunk at 1. rewrite onChunk_buffer.
  unfold onChunk. rewrite <- JsFacts.append_assoc.
  rewrite (ResumeLaws.parseKiroEvents_resume_eq _ c2 Hrem).
  destruct (parseKiroEvents (buffer a ++ c1)) as [evs1 rem1].
  simpl fst. simpl snd.
  destruct (parseKiroEvents (rem1 ++ c2)) as [evs2 rem2].
  cbn [fst snd].
  rewrite StreamFacts.handleEvents_app, !handleEvents_set_buffer.
  reflexivity.
Qed.

(** X6. The orchestrator does not depend on where the network cuts a
    fragment: if reading a chunk leaves the buffer not empty (the chunk
    ends inside a fragment), reading a second chunk after it leaves the
    attempt in the state in which reading the two chunks in one piece
    leaves it, and the rest of the read loop goes the same way. *)
Theorem onChunk_split (c1 c2 : string) (a : Attempt) :
  (onChunk c1 a).(buffer) <> EmptyString ->
  onChunk c2 (onChunk c1 a) = onChunk (c1 ++ c2) a
  /\ forall rest,
      readTail (TailChunk c1 (TailChunk c2 rest)) a
      = readTail (TailChunk (c1 ++ c2) rest) a.
Proof.
  intros H. pose proof (onChunk_split_eq c1 c2 a H) as E.
  split; [exact E|]. intros rest. simpl. now rewrite E.
Qed.

End WithHost.
End ChunkLaws.

Module AssemblerLaws.
Import Output EventParser Stream Spec Notions.

Ltac step_cases :=
  repeat (unfold onContent;
          cbn [handleEvent set_buffer set_tools shared warnings
               buffer totalContent lastContentData usageEvent
               receivedContextUsage thinkingParser textBlockIndex toolCalls
               currentToolCall tool_state text_state is_tool is_content
               is_contextUsage];
          match goal with
          | |- context [match ?x with _ => _ end] => is_var x; destruct x
          | |- context [if ?c then _ else _] => destruct c
          | |- context [match ?x with _ => _ end] => destruct x
          end).

Lemma handleEvents_cons (a : Attempt) (e : KiroStreamEvent)
      (events : list KiroStreamEvent) :
  handleEvents a (e :: events) = handleEvents (handleEvent a e) events.
Proof. reflexivity. Qed.

(** An event that is not a tool event leaves the assembler as it is. *)
Lemma tool_state_other (a : Attempt) (e : KiroStreamEvent) :
  is_tool e = false -> tool_state (handleEvent a e) = tool_state a.
Proof.
  destruct a as [sh w b tot last us rc tp tbi tcs cur].
  destruct e; try discriminate; intros _; step_cases; reflexivity.
Qed.

(** What a tool event does depends on the assembler only. *)
Lemma tool_state_step (a1 a2 : Attempt) (e : KiroStreamEvent) :
  tool_state a1 = tool_state a2 ->
  tool_state (handleEvent a1 e) = tool_state (handleEvent a2 e).
Proof.
  destruct (is_tool e) eqn:He.
  - destruct a1 as [sh1 w1 b1 tot1 last1 us1 rc1 tp1 tbi1 tcs1 cur1].
    destruct a2 as [sh2 w2 b2 tot2 last2 us2 rc2 tp2 tbi2 tcs2 cur2].
    unfold tool_state at 1 2. cbn [toolCalls currentToolCall].
    intros [= -> ->].
    destruct e; try discriminate; step_cases; reflexivity.
  - intros H. now rewrite !tool_state_other.
Qed.

Lemma text_state_other (a : Attempt) (e : KiroStreamEvent) :
  is_content e = false -> text_state (handleEvent a e) = text_state a.
Proof.
  destruct a as [sh w b tot last us rc tp tbi tcs cur].
  destruct e; try discriminate; intros _; step_cases; reflexivity.
Qed.

Lemma text_state_step (a1 a2 : Attempt) (e : KiroStreamEvent) :
  text_state a1 = text_state a2 ->
  text_state (handleEvent a1 e) = text_state (handleEvent a2 e).
Proof.
  destruct (is_content e) eqn:He.
  - destruct a1 as [sh1 w1 b1 tot1 last1 us1 rc1 tp1 tbi1 tcs1 cur1].
    destruct a2 as [sh2 w2 b2 tot2 last2 us2 rc2 tp2 tbi2 tcs2 cur2].
    unfold text_state at 1 2.
    cbn [shared totalContent lastContentData thinkingParser textBlockIndex].
    intros [= -> -> -> -> ->].
    destruct e; try discriminate; step_cases; reflexivity.
  - intros H. now rewrite !text_state_other.
Qed.

Lemma tool_state_filter (events : list KiroStreamEvent) :
  forall a1 a2,
    tool_state a1 = tool_state a2 ->
    tool_state (handleEvents a1 events)
    = tool_state (handleEvents a2 (filter is_tool events)).
Proof.
  induction events as [|e events IH]; intros a1 a2 H; simpl; [assumption|].
  destruct (is_tool e) eqn:He; simpl.
  - apply IH. now apply tool_state_step.
  - apply IH. now rewrite tool_state_other.
Qed.

Lemma text_state_filter (events : list KiroStreamEvent) :
  forall a1 a2,
    text_state a1 = text_state a2 ->
    text_state (handleEvents a1 events)
    = text_state (handleEvents a2 (filter is_content events)).
Proof.
  induction events as [|e events IH]; intros a1 a2 H; simpl; [assumption|].
  destruct (is_content e) eqn:He; simpl.
  - apply IH. now apply text_state_step.
  - apply IH. now rewrite text_state_other.
Qed.

Lemma receivedContextUsage_step (a : Attempt) (e : KiroStreamEvent) :
  (handleEvent a e).(receivedContextUsage)
  = a.(receivedContextUsage) || is_contextUsage e.
Proof.
  destruct a as [sh w b tot last us rc tp tbi tcs cur].
  destruct e; step_cases;
    cbn [receivedContextUsage];
    rewrite ?orb_false_r, ?orb_true_r; reflexivity.
Qed.

(** No event changes the warnings. *)
Lemma handleEvents_warnings (events : list KiroStreamEvent) :
  forall a, (handleEvents a events).(warnings) = a.(warnings).
Proof.
  induction events as [|e events IH]; intros a; [reflexivity|].
  rewrite handleEvents_cons, IH.
  destruct a as [sh w b tot last us rc tp tbi tcs cur].
  destruct e; step_cases; reflexivity.
Qed.

(** X8. The tool call assembler and the content branch do not
    interfere.  After any sequence of events the assembler (the
    archived calls and the open call) is as if the tool events alone
    had come, and the text side (the shared output and stream, the text
    counted for tokens, the comparison value, the segmenter and the
    text slot) is as if the content events alone had come; the
    context-usage flag is set exactly if it was set or such an event
    came; the warnings and the buffer are as before. *)
Theorem handleEvents_independent (a : Attempt) (events : list KiroStreamEvent) :
  tool_state (handleEvents a events)
  = tool_state (handleEvents a (filter is_tool events))
  /\ text_state (handleEvents a events)
     = text_state (handleEvents a (filter is_content events))
  /\ (handleEvents a events).(receivedContextUsage)
     = a.(receivedContextUsage) || existsb is_contextUsage events
  /\ (handleEvents a events).(warnings) = a.(warnings)
  /\ (handleEvents a events).(buffer) = a.(buffer).
Proof.
  split; [now apply tool_state_filter|].
  split; [now apply text_state_filter|].
  split; [|split].
  - revert a; induction events as [|e events IH]; intros a.
    + simpl. now rewrite orb_false_r.
    + rewrite handleEvents_cons, IH, receivedContextUsage_step. simpl.
      now rewrite orb_assoc.
  - apply handleEvents_warnings.
  - apply ChunkLaws.handleEvents_buffer.
Qed.

(** An open tool call takes the fragments that continue it. *)
Lemma continue_call (id : json) (frags : list (option json * string)) :
  strict_eq id id = true ->
  forall a c,
    a.(currentToolCall) = Some c -> c.(toolUseId) = id ->
    tool_state (handleEvents a (map (continuation id) frags))
    = (a.(toolCalls),
       Some (append_input (concat_all (map snd frags)) c)).
Proof.
  intros Hid. induction frags as [|[n i] frags IH]; intros a c Hc Hcid.
  - simpl. unfold tool_state, append_input. rewrite Hc.
    rewrite JsFacts.append_empty_r. now destruct c.
  - rewrite map_cons, handleEvents_cons.
    assert (Hstep : tool_state (handleEvent a (continuation id (n, i)))
                    = (toolCalls a, Some (append_input i c))).
    { destruct a as [sh w b tot last us rc tp tbi tcs cur].
      cbn [currentToolCall] in Hc. subst cur.
      destruct n as [n|]; unfold continuation; cbn [fst snd handleEvent
        currentToolCall toolCalls truthy_opt set_tools];
        rewrite ?Hcid, ?Hid; reflexivity. }
    unfold tool_state in Hstep. injection Hstep as H1 H2.
    rewrite (IH _ (append_input i c) H2 Hcid), H1.
    unfold append_input. simpl. now rewrite JsFacts.append_assoc.
Qed.

(** X9. A tool call that comes in fragments is assembled whole.  With
    no call open, a [toolUse] event without stop flag, then any number
    of continuations ([toolUse] events with the same identifier under
    whatever name, or [toolUseInput] events), then a closing event
    ([toolUseStop], or a [toolUse] event with the same identifier that
    carries a last fragment), with a truthy stop flag, archive exactly
    one call: the identifier and the name of the first event, and the
    fragments concatenated in order.  No call is left open, and events
    that are not tool events may come in between.  The identifier is
    one that [===] finds equal to itself: a primitive. *)
Theorem tool_call_assembly (a : Attempt) (events : list KiroStreamEvent)
        (name id stop : json) (first : string)
        (frags : list (option json * string))
        (last : option (json * string)) :
  a.(currentToolCall) = None ->
  strict_eq id id = true ->
  truthy stop = true ->
  filter is_tool events
  = (toolUse name id first None
     :: map (continuation id) frags ++ [closing id stop last])%list ->
  let a' := handleEvents a events in
  a'.(toolCalls)
  = (a.(toolCalls)
     ++ [ {| toolUseId := id; name := name;
             input := first ++ concat_all (map snd frags)
                            ++ closing_input last |} ])%list
  /\ a'.(currentToolCall) = None.
Proof.
  intros Hcur Hid Hstop Hevents. cbv zeta.
  pose proof (tool_state_filter events a a eq_refl) as H.
  rewrite Hevents in H. unfold tool_state at 1 in H.
  rewrite handleEvents_cons, StreamFacts.handleEvents_app in H.
  set (a1 := handleEvent a (toolUse name id first None)) in H.
  assert (H1 : a1.(currentToolCall)
               = Some {| toolUseId := id; name := name; input := first |}
               /\ a1.(toolCalls) = a.(toolCalls)).
  { subst a1. simpl. now rewrite Hcur. }
  destruct H1 as [H1 H1'].
  pose proof (continue_call id frags Hid a1 _ H1 eq_refl) as H2.
  set (a2 := handleEvents a1 (map (continuation id) frags)) in *.
  unfold tool_state in H2. injection H2 as H2 H3.
  assert (H4 : tool_state (handleEvents a2 [closing id stop last])
               = ((a.(toolCalls)
                   ++ [ {| toolUseId := id; name := name;
                           input := first ++ concat_all (map snd frags)
                                          ++ closing_input last |} ])%list,
                  None)).
  { simpl. unfold tool_state.
    destruct last as [[n i]|]; simpl; rewrite H3; simpl;
      rewrite ?Hid, ?Hstop; simpl; rewrite H2, H1';
      unfold append_input; simpl;
      rewrite ?JsFacts.append_empty_r, ?JsFacts.append_assoc; reflexivity. }
  rewrite H4 in H. now injection H as -> ->.
Qed.

(** X10. Archived tool calls are never changed or removed by later
    events: the list grows at its end only, by at most two calls for
    each tool event. *)
Theorem toolCalls_append_only (a : Attempt) (events : list KiroStreamEvent) :
  exists archived,
    (handleEvents a events).(toolCalls) = (a.(toolCalls) ++ archived)%list
    /\ List.length archived <= 2 * List.length (filter is_tool events).
Proof.
  revert a; induction events as [|e events IH]; intros a.
  - exists []. split; [now rewrite app_nil_r | simpl; lia].
  - rewrite handleEvents_cons.
    destruct (IH (handleEvent a e)) as (more & Hmore & Hlen).
    assert (Hstep : exists l, (handleEvent a e).(toolCalls)
                              = (a.(toolCalls) ++ l)%list
                              /\ List.length l
                                 <= if is_tool e then 2 else 0).
    { destruct a as [sh w b tot last us rc tp tbi tcs cur].
      destruct e; step_cases; cbn [toolCalls];
        try (exists []; split; [now rewrite app_nil_r | simpl; lia]);
        try (eexists; split; [reflexivity | simpl; lia]);
        try (rewrite <- app_assoc; eexists; split; [reflexivity|simpl; lia]). }
    destruct Hstep as (l & Hl & Hll).
    exists (l ++ more)%list. rewrite Hmore, Hl, <- app_assoc.
    split; [reflexivity|]. rewrite length_app. simpl.
    destruct (is_tool e); simpl; lia.
Qed.

End AssemblerLaws.

Module ReadingLaws.
Import Output EventParser Stream Spec Notions.
Import SegmenterLaws.

(** The content branch without segmenter does to the text slot what the
    segmenter does when it emits text. *)
Lemma onContent_plain_agrees (sh0 : Shared) (a : Attempt) (data : json)
      (events : list AssistantMessageEvent) :
  a.(thinkingParser) = None ->
  slots_agree sh0 a.(shared) (attempt_slots a) events ->
  exists more,
    slots_agree sh0 (onContent data a).(shared)
                (attempt_slots (onContent data a)) (events ++ more)
    /\ thinking_ends more = [].
Proof.
  intros Hp (Hev & Hseg & Hfirst & Htext & Hthinking).
  pose proof (firstn_all_le _ _ Hfirst) as Hlen.
  unfold attempt_slots in *. unfold onContent. rewrite Hp in *.
  unfold slot_agrees in *.
  cbn [ThinkingParser.textBlockIndex ThinkingParser.thinkingBlockIndex] in *.
  destruct Hthinking as (Hths & Hthd).
  destruct (textBlockIndex a) as [i|] eqn:Ei;
    cbn [shared thinkingParser textBlockIndex].
  - destruct Htext as (Hi & Hstarts & Hblock).
    exists [text_delta i data]. split; [|reflexivity].
    unfold slots_agree, slot_agrees.
    cbn [ThinkingParser.textBlockIndex ThinkingParser.thinkingBlockIndex].
    simpl stream_events. simpl output_content.
    events_app.
    change (delta_text [text_delta i data]) with (toString data ++ EmptyString).
    change (delta_thinking [text_delta i data]) with EmptyString.
    simpl. rewrite ?app_nil_r, ?JsFacts.append_empty_r, ?andb_true_r.
    split; [now rewrite Hev, <- app_assoc|].
    split; [assumption|].
    split; [now rewrite firstn_update_at|].
    split; [|now split].
    repeat split; try assumption.
    now rewrite (StreamFacts.nth_error_update_at _ _ _ _ Hblock).
  - destruct Htext as (Hstarts & Hdeltas).
    set (idx := List.length (output_content (shared a))).
    exists [text_start idx; text_delta idx data]. split; [|reflexivity].
    unfold slots_agree, slot_agrees.
    cbn [ThinkingParser.textBlockIndex ThinkingParser.thinkingBlockIndex].
    simpl stream_events. simpl output_content.
    events_app.
    change (delta_text [text_start idx; text_delta idx data])
      with (toString data ++ EmptyString).
    change (delta_thinking [text_start idx; text_delta idx data])
      with EmptyString.
    simpl. rewrite ?app_nil_r, ?JsFacts.append_empty_r, ?andb_true_r.
    split; [now rewrite Hev, <- !app_assoc|].
    split; [assumption|].
    split; [rewrite firstn_update_at by assumption;
            now rewrite firstn_app_le|].
    split; [|now split].
    rewrite Hstarts, (delta_text_nil _ Hdeltas).
    repeat split; try assumption. unfold idx.
    now rewrite (StreamFacts.nth_error_update_at _ _ _ _
                   (StreamFacts.nth_error_last _ _)).
Qed.

Lemma onContent_ok (sh0 : Shared) (a : Attempt) (data : json) :
  attempt_ok sh0 a -> attempt_ok sh0 (onContent data a).
Proof.
  unfold attempt_ok. intros Hok.
  destruct (thinkingParser a) as [p|] eqn:Hp.
  - assert (Hslots : attempt_slots a = p)
      by (unfold attempt_slots; now rewrite Hp).
    rewrite Hslots in Hok.
    pose proof (ok_processChunk sh0 (toString data) _ Hok) as Hok'.
    unfold onContent. rewrite Hp.
    destruct (ThinkingParser.processChunk (toString data) (shared a, p))
      as [sh' p'].
    exact Hok'.
  - destruct Hok as (events & Hs & Hph & He & Hc). cbn [fst snd] in *.
    destruct (onContent_plain_agrees sh0 a data events Hp Hs)
      as (more & Hs' & Hends).
    assert (Hp' : thinkingParser (onContent data a) = None).
    { unfold onContent. rewrite Hp. now destruct (textBlockIndex a). }
    assert (Hflags : forall a',
               thinkingParser a' = None ->
               ThinkingParser.inThinking (attempt_slots a') = false
               /\ ThinkingParser.thinkingExtracted (attempt_slots a') = false
               /\ ThinkingParser.thinkingBlockIndex (attempt_slots a') = None).
    { intros a' H. unfold attempt_slots. now rewrite H. }
    destruct (Hflags a Hp) as (F1 & F2 & F3).
    destruct (Hflags _ Hp') as (G1 & G2 & G3).
    exists (events ++ more)%list. cbn [fst snd].
    split; [assumption|]. split; [congruence|].
    specialize (He F2).
    destruct Hs' as (_ & _ & _ & _ & Hth). unfold slot_agrees in Hth.
    rewrite G3 in Hth. destruct Hth as (_ & Hnd).
    unfold closed_once. events_app.
    rewrite He, Hends. split; [reflexivity | now left].
Qed.

Lemma handleEvent_ok (sh0 : Shared) (a : Attempt) (e : KiroStreamEvent) :
  attempt_ok sh0 a -> attempt_ok sh0 (handleEvent a e).
Proof.
  intros Hok. destruct (is_content e) eqn:He.
  - destruct e; try discriminate. simpl.
    destruct (strict_eq data (lastContentData a)); [assumption|].
    now apply onContent_ok.
  - pose proof (AssemblerLaws.text_state_other a e He) as H.
    unfold text_state in H. injection H as H1 H2 H3 H4 H5.
    unfold attempt_ok, attempt_slots in *. now rewrite H1, H4, H5.
Qed.

Lemma handleEvents_ok (sh0 : Shared) (events : list KiroStreamEvent) :
  forall a, attempt_ok sh0 a -> attempt_ok sh0 (handleEvents a events).
Proof.
  induction events as [|e events IH]; intros a Hok; [assumption|].
  rewrite AssemblerLaws.handleEvents_cons. apply IH.
  now apply handleEvent_ok.
Qed.

Lemma newAttempt_ok (thinking : bool) (sh : Shared) (w : list Diagnostic) :
  attempt_ok sh (newAttempt thinking sh w).
Proof.
  unfold attempt_ok, attempt_slots. destruct thinking; simpl.
  - apply ok_new.
  - exists []. cbn [fst snd].
    unfold slots_agree, slot_agrees, closed_once. simpl.
    rewrite app_nil_r, firstn_all. auto 10.
Qed.

Section WithHost.
Context {host : Host}.

Lemma onChunk_ok (sh0 : Shared) (value : string) (a : Attempt) :
  attempt_ok sh0 a -> attempt_ok sh0 (onChunk value a).
Proof.
  intros Hok. unfold onChunk.
  destruct (parseKiroEvents (buffer a ++ value)) as [events remaining].
  apply handleEvents_ok. exact Hok.
Qed.

Lemma readTail_ok (sh0 : Shared) (t : Tail) :
  forall a, attempt_ok sh0 a -> attempt_ok sh0 (snd (readTail t a)).
Proof.
  induction t as [| | |value rest IH]; intros a Hok; simpl; try assumption.
  apply IH. now apply onChunk_ok.
Qed.

Lemma readBody_ok (sh0 : Shared) (b : Body) (a : Attempt) :
  attempt_ok sh0 a -> attempt_ok sh0 (snd (readBody b a)).
Proof.
  destruct b as [| | |value rest]; intros Hok; simpl; try assumption.
  apply readTail_ok. now apply onChunk_ok.
Qed.

Lemma readTail_end (t : Tail) :
  forall a, fst (readTail t a) = tail_end t.
Proof. induction t; intros a; simpl; auto. Qed.

Lemma readBody_end (b : Body) (a : Attempt) :
  fst (readBody b a) = body_end b.
Proof. destruct b; simpl; auto using readTail_end. Qed.

Lemma onChunk_warnings (value : string) (a : Attempt) :
  (onChunk value a).(warnings) = a.(warnings).
Proof.
  unfold onChunk.
  destruct (parseKiroEvents (buffer a ++ value)) as [events remaining].
  now rewrite AssemblerLaws.handleEvents_warnings.
Qed.

Lemma readTail_warnings (t : Tail) :
  forall a, (snd (readTail t a)).(warnings) = a.(warnings).
Proof.
  induction t as [| | |value rest IH]; intros a; simpl; try reflexivity.
  now rewrite IH, onChunk_warnings.
Qed.

Lemma readBody_warnings (b : Body) (a : Attempt) :
  (snd (readBody b a)).(warnings) = a.(warnings).
Proof.
  destruct b as [| | |value rest]; simpl; try reflexivity.
  now rewrite readTail_warnings, onChunk_warnings.
Qed.

(** X12. Reading a body, however it ends, keeps the stream and the
    output in step, with or without segmenter.  How the reading ends
    depends on the body alone; the warnings are as before; the events
    pushed are text and thinking starts and deltas and the thinking
    end; the blocks that were in the output before are untouched; a
    slot that is not open has no start and no delta; an open slot was
    started exactly once and its block holds the concatenation of its
    deltas; the thinking end comes at most once and carries all the
    thinking. *)
Theorem reading_agrees (thinking : bool) (sh : Shared) (w : list Diagnostic)
        (b : Body) :
  let a := snd (readBody b (newAttempt thinking sh w)) in
  fst (readBody b (newAttempt thinking sh w)) = body_end b
  /\ a.(warnings) = w
  /\ exists events,
      slots_agree sh a.(shared) (attempt_slots a) events
      /\ closed_once events.
Proof.
  cbv zeta. split; [apply readBody_end|].
  split; [apply readBody_warnings|].
  destruct (readBody_ok sh b _ (newAttempt_ok thinking sh w))
    as (events & Hs & _ & _ & Hc).
  now exists events.
Qed.


Lemma emitToolCall_fold (calls : list KiroToolCallState)
      (sh : Shared) (w : list Diagnostic) :
  let r := fold_left emitToolCall calls (sh, w) in
  (fst r).(output_content)
  = (sh.(output_content) ++ flat_map block_of calls)%list
  /\ exists events skipped,
      (fst r).(stream_events) = (sh.(stream_events) ++ events)%list
      /\ snd r = (w ++ skipped)%list
      /\ forallb is_toolcall_event events = true
      /\ List.length events = 3 * List.length (flat_map block_of calls)
      /\ List.length skipped + List.length (flat_map block_of calls)
         = List.length calls
      /\ forall idx b,
          In (toolcall_end idx b) events ->
          nth_error (fst r).(output_content) idx = Some b.
Proof.
  cbv zeta. revert sh w.
  induction calls as [|tc calls IH]; intros sh w.
  - simpl. split; [now rewrite app_nil_r|].
    exists [], []. simpl. rewrite !app_nil_r. repeat split. intros ? ? [].
  - cbn [fold_left flat_map].
    destruct (Js.is_empty (Js.trim (input tc))) eqn:Hblank;
      [|destruct (JSON_parse (input tc)) as [args|] eqn:Hparse].
    + assert (Hstep : emitToolCall (sh, w) tc
                      = (sh, (w ++ [EmptyInput (name tc) (toolUseId tc)])%list))
        by (unfold emitToolCall; now rewrite Hblank).
      assert (Hblock : block_of tc = [])
        by (unfold block_of; now rewrite Hblank).
      rewrite Hstep, Hblock.
      destruct (IH sh (w ++ [EmptyInput (name tc) (toolUseId tc)])%list)
        as (Hc & events & skipped & He & Hw & Ht & Hn & Hs & Hidx).
      split; [exact Hc|].
      exists events, (EmptyInput (name tc) (toolUseId tc) :: skipped).
      rewrite Hw, <- app_assoc. simpl in *.
      repeat split; try assumption. lia.
    + set (b := ToolCall (toolUseId tc) (name tc) args).
      set (idx := List.length (output_content sh)).
      assert (Hstep : emitToolCall (sh, w) tc
                      = (push (toolcall_end idx b)
                           (push (toolcall_delta idx (input tc))
                              (push (toolcall_start idx) (push_content b sh))),
                         w))
        by (unfold emitToolCall; now rewrite Hblank, Hparse).
      assert (Hblock : block_of tc = [b])
        by (unfold block_of; now rewrite Hblank, Hparse).
      rewrite Hstep, Hblock.
      destruct (IH (push (toolcall_end idx b)
                      (push (toolcall_delta idx (input tc))
                         (push (toolcall_start idx) (push_content b sh))))
                   w)
        as (Hc & events & skipped & He & Hw & Ht & Hn & Hs & Hidx).
      simpl in Hc, He.
      split; [now rewrite Hc, <- app_assoc|].
      exists ([toolcall_start idx; toolcall_delta idx (input tc);
               toolcall_end idx b] ++ events)%list, skipped.
      split; [rewrite He, <- !app_assoc; reflexivity|].
      split; [assumption|]. split; [simpl; assumption|].
      split; [simpl in *; lia|]. split; [simpl in *; lia|].
      intros i b' [H|[H|[H|H]]]; try discriminate.
      * injection H as <- <-. rewrite Hc.
        rewrite nth_error_app1
          by (rewrite length_app; simpl; unfold idx; lia).
        apply StreamFacts.nth_error_last.
      * now apply Hidx.
    + assert (Hstep : emitToolCall (sh, w) tc
                      = (sh, (w ++ [ParseFailure (name tc) (toolUseId tc)
                                      (String.length (input tc))
                                      (Js.substring (input tc) 0 200)])%list))
        by (unfold emitToolCall; now rewrite Hblank, Hparse).
      assert (Hblock : block_of tc = [])
        by (unfold block_of; now rewrite Hblank, Hparse).
      rewrite Hstep, Hblock.
      destruct (IH sh (w ++ [ParseFailure (name tc) (toolUseId tc)
                                (String.length (input tc))
                                (Js.substring (input tc) 0 200)])%list)
        as (Hc & events & skipped & He & Hw & Ht & Hn & Hs & Hidx).
      split; [exact Hc|].
      exists events, (ParseFailure (name tc) (toolUseId tc)
                        (String.length (input tc))
                        (Js.substring (input tc) 0 200) :: skipped).
      rewrite Hw, <- app_assoc. simpl in *.
      repeat split; try assumption. lia.
Qed.

(** X11. The loop over the tool calls pushes, for each call whose input
    is not blank and parses, one tool call block at the end of the
    output and three events (start, delta, end); the end event names
    the position of the block in the output and carries the block.
    Every other call gives one warning and nothing else.  What was in
    the output, on the stream and among the warnings stays as it
    was. *)
Theorem emitToolCall_accounting (calls : list KiroToolCallState)
        (sh : Shared) (w : list Diagnostic) :
  let r := fold_left emitToolCall calls (sh, w) in
  (fst r).(output_content)
  = (sh.(output_content) ++ flat_map block_of calls)%list
  /\ exists events skipped,
      (fst r).(stream_events) = (sh.(stream_events) ++ events)%list
      /\ snd r = (w ++ skipped)%list
      /\ forallb is_toolcall_event events = true
      /\ List.length events = 3 * List.length (flat_map block_of calls)
      /\ List.length skipped + List.length (flat_map block_of calls)
         = List.length calls
      /\ forall idx b,
          In (toolcall_end idx b) events ->
          nth_error (fst r).(output_content) idx = Some b.
Proof. apply emitToolCall_fold. Qed.

End WithHost.

End ReadingLaws.

Module OrchestratorLaws.
Import Output EventParser Stream Spec Notions.

Lemma no_terminal_app (l1 l2 : list AssistantMessageEvent) :
  no_terminal l1 -> no_terminal l2 -> no_terminal (l1 ++ l2).
Proof. unfold no_terminal. intros H1 H2. now rewrite forallb_app, H1, H2. Qed.

Lemma no_terminal_of (f : AssistantMessageEvent -> bool)
      (l : list AssistantMessageEvent) :
  (forall e, f e = true -> is_terminal e = false) ->
  forallb f l = true -> no_terminal l.
Proof.
  intros Hf H. unfold no_terminal. apply forallb_forall. intros e He.
  rewrite forallb_forall in H. now rewrite (Hf e (H e He)).
Qed.

Lemma no_terminal_segment (l : list AssistantMessageEvent) :
  forallb is_segment_event l = true -> no_terminal l.
Proof. apply no_terminal_of. now intros []. Qed.

Lemma no_terminal_toolcall (l : list AssistantMessageEvent) :
  forallb is_toolcall_event l = true -> no_terminal l.
Proof. apply no_terminal_of. now intros []. Qed.

(** The segmenter, when it is finalized, pushes segment events. *)
Lemma finalize_pushes (sh : Shared) (p : ThinkingParser.ThinkingTagParser) :
  exists events,
    pushed sh (fst (ThinkingParser.finalize (sh, p))) events
    /\ forallb is_segment_event events = true.
Proof.
  unfold ThinkingParser.finalize.
  destruct (Js.is_empty (ThinkingParser.textBuffer p)).
  { exists []. unfold pushed. simpl. now rewrite app_nil_r. }
  assert (Htext : exists events,
             pushed sh (fst (ThinkingParser.emitText
                               (ThinkingParser.textBuffer p) (sh, p))) events
             /\ forallb is_segment_event events = true).
  { pose proof (ThinkingFacts.emitText_spec (ThinkingParser.textBuffer p) sh p)
      as ((idx & _ & Hp) & _).
    eexists. split; [exact Hp|].
    now destruct (ThinkingParser.textBlockIndex p). }
  destruct (ThinkingParser.inThinking p);
    [destruct (ThinkingParser.thinkingBlockIndex p) as [idx|]|].
  - eexists. unfold pushed. simpl. rewrite <- app_assoc. simpl.
    split; reflexivity.
  - destruct (ThinkingParser.emitText _ _) as [sh' p']. exact Htext.
  - destruct (ThinkingParser.thinkingBlockIndex p);
      destruct (ThinkingParser.emitText _ _) as [sh' p']; exact Htext.
Qed.

Section WithHost.
Context {host : Host}.

Lemma bracketFallback_events (calls : list KiroToolCallState)
      (idx : option nat) (sh : Shared) :
  (snd (bracketFallback calls idx sh)).(stream_events) = sh.(stream_events).
Proof.
  unfold bracketFallback.
  destruct calls; [|reflexivity]. destruct idx as [i|]; [|reflexivity].
  now destruct (BracketToolParser.toolCalls _).
Qed.

Lemma decideStopReason_cases (received : bool)
      (calls : list KiroToolCallState) :
  decideStopReason received calls = reason_stop
  \/ decideStopReason received calls = reason_toolUse
  \/ decideStopReason received calls = reason_length.
Proof.
  unfold decideStopReason.
  destruct (negb received && _); [auto|]. destruct (0 <? _)%nat; auto.
Qed.

(** What finalizing an attempt adds to the stream: events that are not
    terminal, and then [done]. *)
Lemma finalizeAttempt_events (a : Attempt) :
  let f := finalizeAttempt a in
  (exists events,
      no_terminal events
      /\ f.(final_shared).(stream_events)
         = (a.(shared).(stream_events) ++ events
            ++ [done f.(final_stopReason)])%list)
  /\ (f.(final_stopReason) = reason_stop
      \/ f.(final_stopReason) = reason_toolUse
      \/ f.(final_stopReason) = reason_length).
Proof.
  cbv zeta. unfold finalizeAttempt.
  set (calls0 := archiveCurrent a).
  assert (Hseg : exists events,
             no_terminal events
             /\ (fst (match thinkingParser a with
                      | Some p =>
                          (fst (ThinkingParser.finalize (shared a, p)),
                           ThinkingParser.getTextBlockIndex
                             (ThinkingParser.finalize (shared a, p)))
                      | None => (shared a, textBlockIndex a)
                      end)).(stream_events)
                = (a.(shared).(stream_events) ++ events)%list).
  { destruct (thinkingParser a) as [p|]; cbn [fst].
    - destruct (finalize_pushes (shared a) p) as (events & Hp & Hs).
      exists events. split; [now apply no_terminal_segment | exact Hp].
    - exists []. split; [reflexivity | now rewrite app_nil_r]. }
  destruct (match thinkingParser a with
            | Some p => _
            | None => _
            end) as [sh1 tbi].
  cbn [fst] in Hseg. destruct Hseg as (seg & Hseg & Hev1).
  pose proof (bracketFallback_events calls0 tbi sh1) as Hev2.
  destruct (bracketFallback calls0 tbi sh1) as [calls sh2]. cbn [snd] in Hev2.
  set (sh3 := match tbi with
              | Some idx => push (text_end idx (text_of idx sh2)) sh2
              | None => sh2
              end).
  assert (Hev3 : exists events,
             no_terminal events
             /\ sh3.(stream_events)
                = (a.(shared).(stream_events) ++ events)%list).
  { subst sh3. destruct tbi as [idx|].
    - exists (seg ++ [text_end idx (text_of idx sh2)])%list.
      split; [apply no_terminal_app; [assumption | reflexivity]|].
      simpl. now rewrite Hev2, Hev1, <- app_assoc.
    - exists seg. split; [assumption | now rewrite Hev2]. }
  destruct Hev3 as (ev3 & Hno3 & Hev3).
  destruct (ReadingLaws.emitToolCall_fold calls sh3 (warnings a))
    as (_ & tool & skipped & Hev4 & _ & Htool & _).
  destruct (fold_left emitToolCall calls (sh3, warnings a)) as [sh4 w4].
  cbn [fst snd final_shared final_stopReason] in *.
  split; [|apply decideStopReason_cases].
  exists (ev3 ++ tool)%list.
  split; [apply no_terminal_app;
          [assumption | now apply no_terminal_toolcall]|].
  simpl. now rewrite Hev4, Hev3, <- !app_assoc.
Qed.

(** What reading a body adds to the stream: [start], and then segment
    events. *)
Lemma readBody_extends (thinking : bool) (sh : Shared)
      (w : list Diagnostic) (b : Body) :
  exists segment,
    (snd (readBody b (newAttempt thinking (push start sh) w)))
      .(shared).(stream_events)
    = (sh.(stream_events) ++ start :: segment)%list
    /\ forallb is_segment_event segment = true.
Proof.
  destruct (ReadingLaws.readBody_ok (push start sh) b _
              (ReadingLaws.newAttempt_ok thinking (push start sh) w))
    as (events & (Hev & Hseg & _) & _).
  cbn [fst] in Hev. exists events. split; [|assumption].
  rewrite Hev. simpl. now rewrite <- app_assoc.
Qed.

Lemma starts_first_app (l more : list AssistantMessageEvent) :
  starts_first l -> no_terminal l -> l <> [] -> starts_first (l ++ more).
Proof.
  destruct l as [|e l]; [congruence|]. intros H Hno _.
  destruct e; try discriminate Hno; simpl in *;
    destruct l; simpl; try assumption; try reflexivity; discriminate.
Qed.

Lemma starts_first_start (l more : list AssistantMessageEvent) :
  starts_first l -> no_terminal l -> starts_first (l ++ start :: more).
Proof.
  intros H Hno. destruct l as [|e l]; [reflexivity|].
  now apply starts_first_app.
Qed.

Lemma starts_first_error (l : list AssistantMessageEvent)
      (r : StopReason) (e : Failure) :
  starts_first l -> no_terminal l -> starts_first (l ++ [error r e]).
Proof.
  intros H Hno. destruct l as [|x l]; [exact I|].
  now apply starts_first_app.
Qed.

Lemma fail_ends (env : Env) (e : Failure) (sh : Shared)
      (w : list Diagnostic) (fetches : nat) (delays : list Z)
      (reductions : nat) :
  no_terminal sh.(stream_events) -> starts_first sh.(stream_events) ->
  ends_with_terminal env.(signal_aborted)
                     (fail env e sh w fetches delays reductions)
  /\ starts_first
       (fail env e sh w fetches delays reductions)
         .(run_shared).(stream_events).
Proof.
  intros Hno Hfirst. split.
  - unfold ends_with_terminal, fail, terminal_of. simpl.
    split; [reflexivity|]. split; [|reflexivity].
    exists (stream_events sh). now split.
  - simpl. now apply starts_first_error.
Qed.

(** A caller whose requests are all built runs as [Stream.attemptLoop]
    says. *)
Lemma attemptLoop_built (c : Request.Caller) (m : nat) :
  (forall n, c.(Request.request_throws) n = false) ->
  forall fuel retryCount sh w fetches delays reductions,
    Request.attemptLoop fuel c m retryCount sh w fetches delays reductions
    = attemptLoop fuel c.(Request.caller_env) m retryCount sh w fetches
                  delays reductions.
Proof.
  intros Hbuilt.
  induction fuel as [|fuel IH];
    intros retryCount sh w fetches delays reductions; [reflexivity|].
  simpl. rewrite Hbuilt.
  destruct (negb (retryCount <=? m)%nat); [reflexivity|].
  destruct (fetch _ fetches) as [|response]; [reflexivity|].
  destruct (negb (ok response)).
  - destruct (Retry.shouldRetry _); [|reflexivity].
    destruct (Retry.strategy _); apply IH.
  - destruct (body response) as [b|]; [|reflexivity].
    destruct (readBody b _) as [how a].
    destruct how; try reflexivity;
      destruct (retryCount <? m)%nat; try reflexivity; apply IH.
Qed.

Lemma streamKiro_built (c : Request.Caller) :
  (forall n, c.(Request.request_throws) n = false) ->
  Request.streamKiro c = streamKiro c.(Request.caller_env).
Proof.
  intros Hbuilt. unfold Request.streamKiro, streamKiro.
  destruct (apiKey _) as [[|? ?]|]; try reflexivity.
  now apply attemptLoop_built.
Qed.

Lemma attemptLoop_ends (c : Request.Caller) (m : nat) :
  forall fuel retryCount sh w fetches delays reductions,
    retryCount <= m -> m - retryCount < fuel ->
    no_terminal sh.(stream_events) -> starts_first sh.(stream_events) ->
    let env := c.(Request.caller_env) in
    let run := Request.attemptLoop fuel c m retryCount sh w fetches delays
                                   reductions in
    (ends_with_terminal env.(signal_aborted) run
     /\ starts_first run.(run_shared).(stream_events))
    /\ (if c.(Request.request_throws) fetches
        then run = fail env RequestFailed sh w fetches delays reductions
        else fetches < run.(Stream.fetches))
    /\ run.(Stream.fetches) <= fetches + (m - retryCount) + 1.
Proof.
  induction fuel as [|fuel IH];
    intros retryCount sh w fetches delays reductions Hle Hfuel Hno Hfirst;
    [lia|].
  cbv zeta. simpl Request.attemptLoop. set (env := Request.caller_env c).
  replace (retryCount <=? m)%nat with true by (symmetry; apply Nat.leb_le; lia).
  simpl negb. cbv iota.
  destruct (Request.request_throws c fetches) eqn:Hthrows.
  { split; [now apply fail_ends|]. split; [reflexivity|]. simpl. lia. }
  assert (Hfail : forall e sh' w' d r,
             no_terminal sh'.(stream_events) ->
             starts_first sh'.(stream_events) ->
             (ends_with_terminal env.(signal_aborted)
                                 (fail env e sh' w' (S fetches) d r)
              /\ starts_first
                   (fail env e sh' w' (S fetches) d r)
                     .(run_shared).(stream_events))
             /\ fetches < (fail env e sh' w' (S fetches) d r).(Stream.fetches)
             /\ (fail env e sh' w' (S fetches) d r).(Stream.fetches)
                <= fetches + (m - retryCount) + 1).
  { intros e sh' w' d r H H'. split; [now apply fail_ends|]. simpl. lia. }
  assert (Hnext : forall sh' w' d r,
             retryCount < m -> no_terminal sh'.(stream_events) ->
             starts_first sh'.(stream_events) ->
             let run := Request.attemptLoop fuel c m (S retryCount) sh' w'
                                            (S fetches) d r in
             (ends_with_terminal env.(signal_aborted) run
              /\ starts_first run.(run_shared).(stream_events))
             /\ fetches < run.(Stream.fetches)
             /\ run.(Stream.fetches) <= fetches + (m - retryCount) + 1).
  { intros sh' w' d r Hlt H H'.
    destruct (IH (S retryCount) sh' w' (S fetches) d r) as (H1 & H2 & H3);
      [lia | lia | assumption | assumption |].
    cbv zeta. split; [exact H1|].
    destruct (Request.request_throws c (S fetches));
      [rewrite H2; simpl; lia | lia]. }
  assert (Hstart : no_terminal (push start sh).(stream_events)
                   /\ starts_first (push start sh).(stream_events)).
  { simpl. split; [apply no_terminal_app; [assumption | reflexivity]|].
    now apply starts_first_start. }
  destruct Hstart as [Hstart Hstart'].
  destruct (fetch env fetches) as [|response]; [now apply Hfail|].
  destruct (ok response); simpl negb; cbv iota.
  - destruct (body response) as [b|]; [|now apply Hfail].
    destruct (readBody_extends (thinkingEnabled env) sh w b)
      as (segment & Hread & Hseg).
    destruct (readBody b _) as [how a]. cbn [snd] in Hread.
    assert (Hno' : no_terminal (stream_events (shared a))).
    { rewrite Hread. apply no_terminal_app; [assumption|].
      apply (no_terminal_app [start]); [reflexivity|].
      now apply no_terminal_segment. }
    assert (Hfirst' : starts_first (stream_events (shared a)))
      by (rewrite Hread; now apply starts_first_start).
    destruct how.
    + destruct (finalizeAttempt_events a) as ((events & Hev & Hfinal) & Hr).
      cbv zeta in *. unfold ends_with_terminal, terminal_of. simpl.
      split; [|lia]. split.
      * split; [reflexivity|]. split; [|exact Hr].
        exists (stream_events (shared a) ++ events)%list.
        split; [now apply no_terminal_app | now rewrite Hfinal, app_assoc].
      * rewrite Hfinal. apply starts_first_app; try assumption.
        rewrite Hread. now destruct (stream_events sh).
    + destruct (Nat.ltb_spec retryCount m);
        [now apply Hnext | now apply Hfail].
    + destruct (Nat.ltb_spec retryCount m);
        [now apply Hnext | now apply Hfail].
    + now apply Hfail.
  - destruct (Nat.le_gt_cases m retryCount) as [Hge|Hlt].
    + rewrite RetryFacts.decideRetry_exhausted by assumption. simpl.
      now apply Hfail.
    + destruct (Retry.shouldRetry _); [|now apply Hfail].
      destruct (Retry.strategy _); now apply Hnext.
Qed.

(** ** The text that [text_end] carries *)

(** The text slot of an attempt when it is finalized, with the events
    that the segmenter has pushed by then. *)
Lemma finalized_slot (sh0 : Shared) (a : Attempt) :
  attempt_ok sh0 a ->
  let r := match thinkingParser a with
           | Some p =>
               (fst (ThinkingParser.finalize (shared a, p)),
                ThinkingParser.getTextBlockIndex
                  (ThinkingParser.finalize (shared a, p)))
           | None => (shared a, textBlockIndex a)
           end in
  exists events,
    (fst r).(stream_events) = (sh0.(stream_events) ++ events)%list
    /\ forallb is_segment_event events = true
    /\ match snd r with
       | Some i =>
           nth_error (fst r).(output_content) i
           = Some (TextContent (delta_text events))
       | None => text_deltas events = []
       end.
Proof.
  unfold attempt_ok, attempt_slots. intros Hok. cbv zeta.
  destruct (thinkingParser a) as [p|].
  - destruct (SegmenterLaws.finalize_agrees sh0 _ Hok)
      as (events & (Hev & Hseg & _ & Htext & _) & _).
    exists events. cbn [fst snd]. unfold ThinkingParser.getTextBlockIndex.
    split; [assumption|]. split; [assumption|].
    unfold slot_agrees in Htext.
    destruct (ThinkingParser.textBlockIndex _); apply Htext.
  - destruct Hok as (events & (Hev & Hseg & _ & Htext & _) & _).
    exists events. cbn [fst snd] in *.
    split; [assumption|]. split; [assumption|].
    unfold slot_agrees in Htext.
    cbn [ThinkingParser.textBlockIndex] in Htext.
    destruct (textBlockIndex a); apply Htext.
Qed.

Lemma bracketFallback_text (calls : list KiroToolCallState) (i : nat)
      (sh : Shared) (full : string) :
  nth_error sh.(output_content) i = Some (TextContent full) ->
  nth_error (snd (bracketFallback calls (Some i) sh)).(output_content) i
  = Some (TextContent (text_after_fallback calls full)).
Proof.
  intros H. unfold bracketFallback, text_after_fallback.
  destruct calls; [|assumption].
  assert (Hof : text_of i sh = full) by (unfold text_of; now rewrite H).
  rewrite Hof.
  destruct (BracketToolParser.toolCalls _); [assumption|].
  cbn [snd set_text output_content].
  now rewrite (StreamFacts.nth_error_update_at _ _ _ _ H).
Qed.

(** X20. The event log of an attempt that is read to the end and
    finalized: the events from before, the segment events of the
    attempt, [text_end] if the text slot is open, the events of the
    tool call blocks, and [done].  The content of [text_end] is the
    final text of the text block: the concatenation of the text deltas,
    or, when no tool call was assembled and the bracket fallback finds
    calls in that text, the text that the fallback leaves.  If the text
    slot is not open there was no text delta. *)
Theorem attempt_event_log (thinking : bool) (sh : Shared)
        (w : list Diagnostic) (b : Body) :
  let a := snd (readBody b (newAttempt thinking sh w)) in
  let f := finalizeAttempt a in
  exists segment tool,
    f.(final_shared).(stream_events)
    = (sh.(stream_events) ++ segment
       ++ match f.(final_textBlockIndex) with
          | Some i =>
              [text_end i (text_after_fallback (archiveCurrent a)
                                               (delta_text segment))]
          | None => []
          end
       ++ tool ++ [done f.(final_stopReason)])%list
    /\ forallb is_segment_event segment = true
    /\ forallb is_toolcall_event tool = true
    /\ match f.(final_textBlockIndex) with
       | Some i =>
           nth_error f.(final_shared).(output_content) i
           = Some (TextContent (text_after_fallback (archiveCurrent a)
                                                    (delta_text segment)))
       | None => text_deltas segment = []
       end.
Proof.
  cbv zeta.
  pose proof (ReadingLaws.readBody_ok sh b _
                (ReadingLaws.newAttempt_ok thinking sh w)) as Hok.
  set (a := snd (readBody b (newAttempt thinking sh w))) in *.
  pose proof (finalized_slot sh a Hok) as Hslot. cbv zeta in Hslot.
  unfold finalizeAttempt.
  destruct (match thinkingParser a with
            | Some p => _
            | None => _
            end) as [sh1 tbi].
  cbn [fst snd] in Hslot. destruct Hslot as (segment & Hev1 & Hseg & Htext).
  pose proof (bracketFallback_events (archiveCurrent a) tbi sh1) as Hev2.
  assert (Htext2 : match tbi with
                   | Some i =>
                       nth_error
                         (snd (bracketFallback (archiveCurrent a) tbi sh1))
                           .(output_content) i
                       = Some (TextContent
                                 (text_after_fallback (archiveCurrent a)
                                                      (delta_text segment)))
                   | None => text_deltas segment = []
                   end).
  { destruct tbi as [i|]; [|assumption]. now apply bracketFallback_text. }
  destruct (bracketFallback (archiveCurrent a) tbi sh1) as [calls sh2].
  cbn [snd] in Hev2, Htext2.
  set (sh3 := match tbi with
              | Some idx => push (text_end idx (text_of idx sh2)) sh2
              | None => sh2
              end).
  assert (Hc3 : sh3.(output_content) = sh2.(output_content))
    by (subst sh3; now destruct tbi).
  destruct (ReadingLaws.emitToolCall_fold calls sh3 (warnings a))
    as (Hc4 & tool & skipped & Hev4 & _ & Htool & _).
  destruct (fold_left emitToolCall calls (sh3, warnings a)) as [sh4 w4].
  cbn [fst snd final_shared final_stopReason final_textBlockIndex
       stream_events output_content push] in *.
  exists segment, tool.
  split; [|split; [assumption|split; [assumption|]]].
  - rewrite Hev4. subst sh3. destruct tbi as [i|].
    + cbn [stream_events push]. rewrite Hev2, Hev1.
      unfold text_of. rewrite Htext2. now rewrite <- !app_assoc.
    + rewrite Hev2, Hev1. now rewrite <- !app_assoc.
  - destruct tbi as [i|]; [|assumption].
    rewrite Hc4, Hc3. now apply SegmenterLaws.nth_error_app_le.
Qed.

(** ** What a run keeps *)

Lemma keeps_refl (sh : Shared) : keeps sh sh.
Proof.
  split; [exists []; now rewrite app_nil_r | apply firstn_all].
Qed.

Lemma keeps_trans (sh1 sh2 sh3 : Shared) :
  keeps sh1 sh2 -> keeps sh2 sh3 -> keeps sh1 sh3.
Proof.
  intros [[e1 H1] F1] [[e2 H2] F2]. split.
  - exists (e1 ++ e2)%list. now rewrite H2, H1, app_assoc.
  - pose proof (SegmenterLaws.firstn_all_le _ _ F1) as Hle.
    rewrite <- F1 at 2. rewrite <- F2, firstn_firstn.
    now rewrite Nat.min_l by assumption.
Qed.

Lemma keeps_push (e : AssistantMessageEvent) (sh : Shared) :
  keeps sh (push e sh).
Proof. split; [now exists [e] | apply firstn_all]. Qed.

Lemma keeps_of_ok (sh0 : Shared) (a : Attempt) :
  attempt_ok sh0 a -> keeps sh0 a.(shared).
Proof.
  intros (events & (Hev & _ & Hfirst & _) & _). cbn [fst] in *.
  split; [now exists events | assumption].
Qed.

Lemma finalizeAttempt_keeps (sh0 : Shared) (a : Attempt) :
  attempt_ok sh0 a -> keeps sh0 (finalizeAttempt a).(final_shared).
Proof.
  intros Hok.
  assert (Hslot :
            let r := match thinkingParser a with
                     | Some p =>
                         (fst (ThinkingParser.finalize (shared a, p)),
                          ThinkingParser.getTextBlockIndex
                            (ThinkingParser.finalize (shared a, p)))
                     | None => (shared a, textBlockIndex a)
                     end in
            keeps sh0 (fst r)
            /\ match snd r with
               | Some i => List.length sh0.(output_content) <= i
               | None => True
               end).
  { unfold attempt_ok, attempt_slots in Hok. cbv zeta.
    destruct (thinkingParser a) as [p|].
    - destruct (SegmenterLaws.finalize_agrees sh0 _ Hok)
        as (events & (Hev & _ & Hfirst & Htext & _) & _).
      cbn [fst snd]. unfold ThinkingParser.getTextBlockIndex.
      split; [split; [now exists events | assumption]|].
      unfold slot_agrees in Htext.
      destruct (ThinkingParser.textBlockIndex _); [apply Htext | exact I].
    - destruct Hok as (events & (Hev & _ & Hfirst & Htext & _) & _).
      cbn [fst snd] in *.
      split; [split; [now exists events | assumption]|].
      unfold slot_agrees in Htext.
      cbn [ThinkingParser.textBlockIndex] in Htext.
      destruct (textBlockIndex a); [apply Htext | exact I]. }
  cbv zeta in Hslot. unfold finalizeAttempt.
  destruct (match thinkingParser a with
            | Some p => _
            | None => _
            end) as [sh1 tbi].
  cbn [fst snd] in Hslot. destruct Hslot as [Hk1 Hi].
  assert (Hk2 : keeps sh0 (snd (bracketFallback (archiveCurrent a) tbi sh1))).
  { destruct Hk1 as [[events Hev] Hfirst].
    split; [exists events; now rewrite bracketFallback_events|].
    unfold bracketFallback.
    destruct (archiveCurrent a); [|assumption].
    destruct tbi as [i|]; [|assumption].
    destruct (BracketToolParser.toolCalls _); [assumption|].
    cbn [snd set_text output_content].
    now rewrite SegmenterLaws.firstn_update_at. }
  destruct (bracketFallback (archiveCurrent a) tbi sh1) as [calls sh2].
  cbn [snd] in Hk2.
  set (sh3 := match tbi with
              | Some idx => push (text_end idx (text_of idx sh2)) sh2
              | None => sh2
              end).
  assert (Hk3 : keeps sh0 sh3).
  { subst sh3. destruct tbi; [|assumption].
    apply (keeps_trans _ sh2); [assumption | apply keeps_push]. }
  destruct (ReadingLaws.emitToolCall_fold calls sh3 (warnings a))
    as (Hc4 & tool & skipped & Hev4 & _).
  destruct (fold_left emitToolCall calls (sh3, warnings a)) as [sh4 w4].
  cbn [fst snd final_shared] in *.
  apply (keeps_trans _ sh3); [assumption|].
  apply (keeps_trans _ sh4); [|apply keeps_push].
  split; [now exists tool|].
  rewrite Hc4, firstn_app, firstn_all, Nat.sub_diag. simpl.
  apply app_nil_r.
Qed.

(** A run keeps what was on the stream and in the output when it
    started. *)
Lemma attemptLoop_keeps (env : Env) (m : nat) :
  forall fuel retryCount sh w fetches delays reductions,
    keeps sh (attemptLoop fuel env m retryCount sh w fetches delays
                          reductions).(run_shared).
Proof.
  induction fuel as [|fuel IH];
    intros retryCount sh w fetches delays reductions; simpl attemptLoop;
    [apply keeps_refl|].
  destruct (negb (retryCount <=? m)%nat); [apply keeps_refl|].
  assert (Hfail : forall e sh' w' n d r,
             keeps sh sh' ->
             keeps sh (fail env e sh' w' n d r).(run_shared)).
  { intros e sh' w' n d r H. simpl.
    apply (keeps_trans _ sh'); [assumption | apply keeps_push]. }
  assert (Hnext : forall sh' w' c n d r,
             keeps sh sh' ->
             keeps sh (attemptLoop fuel env m c sh' w' n d r).(run_shared)).
  { intros sh' w' c n d r H. apply (keeps_trans _ sh'); [assumption|].
    apply IH. }
  destruct (fetch env fetches) as [|response];
    [apply Hfail, keeps_refl|].
  destruct (negb (ok response)).
  - destruct (Retry.shouldRetry _); [|apply Hfail, keeps_refl].
    destruct (Retry.strategy _); apply Hnext, keeps_refl.
  - destruct (body response) as [b|]; [|apply Hfail, keeps_push].
    pose proof (ReadingLaws.readBody_ok (push start sh) b _
                  (ReadingLaws.newAttempt_ok (thinkingEnabled env)
                                             (push start sh) w)) as Hok.
    destruct (readBody b _) as [how a]. cbn [snd] in Hok.
    assert (Hread : keeps sh (shared a)).
    { apply (keeps_trans _ (push start sh)); [apply keeps_push|].
      now apply keeps_of_ok. }
    destruct how.
    + simpl. apply (keeps_trans _ (push start sh)); [apply keeps_push|].
      now apply finalizeAttempt_keeps.
    + destruct (retryCount <? m)%nat; [now apply Hnext | now apply Hfail].
    + destruct (retryCount <? m)%nat; [now apply Hnext | now apply Hfail].
    + now apply Hfail.
Qed.

(** A run only adds to the count of requests and to the list of waits;
    an iteration that starts within the budget sends a request. *)
Lemma attemptLoop_counts (env : Env) (m : nat) :
  forall fuel retryCount sh w n d reductions,
    let run := attemptLoop fuel env m retryCount sh w n d reductions in
    n <= run.(fetches)
    /\ (exists ds, run.(delays) = (d ++ ds)%list)
    /\ (fuel <> 0 -> retryCount <= m -> S n <= run.(fetches)).
Proof.
  induction fuel as [|fuel IH]; intros retryCount sh w n d reductions;
    cbv zeta; simpl attemptLoop.
  - simpl. repeat split; [lia | exists []; now rewrite app_nil_r | congruence].
  - destruct (Nat.leb_spec retryCount m) as [Hle|Hgt]; simpl negb; cbv iota.
    2:{ simpl.
        repeat split; [lia | exists []; now rewrite app_nil_r | lia]. }
    assert (Hfail : forall e sh' w',
               let run := fail env e sh' w' (S n) d reductions in
               n <= run.(fetches)
               /\ (exists ds, run.(delays) = (d ++ ds)%list)
               /\ (S fuel <> 0 -> retryCount <= m -> S n <= run.(fetches))).
    { intros e sh' w'. simpl.
      repeat split; [lia | exists []; now rewrite app_nil_r | lia]. }
    assert (Hnext : forall c sh' w' ds r,
               let run := attemptLoop fuel env m c sh' w' (S n)
                                      (d ++ ds)%list r in
               n <= run.(fetches)
               /\ (exists ds, run.(delays) = (d ++ ds)%list)
               /\ (S fuel <> 0 -> retryCount <= m -> S n <= run.(fetches))).
    { intros c sh' w' ds r. cbv zeta.
      destruct (IH c sh' w' (S n) (d ++ ds)%list r) as (H1 & [ds' H2] & _).
      repeat split; [lia | | lia].
      exists (ds ++ ds')%list. now rewrite H2, app_assoc. }
    assert (Hnext0 : forall c sh' w' r,
               let run := attemptLoop fuel env m c sh' w' (S n) d r in
               n <= run.(fetches)
               /\ (exists ds, run.(delays) = (d ++ ds)%list)
               /\ (S fuel <> 0 -> retryCount <= m -> S n <= run.(fetches))).
    { intros c sh' w' r. pose proof (Hnext c sh' w' [] r) as H.
      now rewrite app_nil_r in H. }
    destruct (fetch env n) as [|response]; [apply Hfail|].
    destruct (negb (ok response)).
    + destruct (Retry.shouldRetry _); [|apply Hfail].
      destruct (Retry.strategy _);
        try apply Hnext0; destruct (0 <? _)%Z;
        first [apply Hnext | apply Hnext0].
    + destruct (body response) as [b|]; [|apply Hfail].
      destruct (readBody b _) as [how a].
      destruct how; try apply Hfail;
        try (destruct (retryCount <? m)%nat; [apply Hnext | apply Hfail]).
      simpl. repeat split; [lia | exists []; now rewrite app_nil_r | lia].
Qed.

(** X27. If the first response is read until its first-token or idle
    timeout fires, the run does not start over: every event the timed
    out attempt pushed stays at the front of the stream, every block
    it wrote stays at the front of the output content, a second
    request is sent, and the first wait is 1000 ms. *)
Theorem timed_out_output_is_kept (env : Env) (key : string)
        (r : Response) (b : Body) :
  env.(apiKey) = Some key -> key <> EmptyString ->
  env.(fetch) 0 = FetchResolves r -> ok r = true ->
  r.(body) = Some b -> timeout_of (body_end b) <> None ->
  let a := snd (readBody b (newAttempt env.(thinkingEnabled)
                                       (push start emptyShared) [])) in
  let run := streamKiro env in
  keeps a.(shared) run.(run_shared)
  /\ 2 <= run.(fetches)
  /\ exists ds, run.(delays) = (1000 :: ds)%Z.
Proof.
  intros Hkey Hne Hfetch Hok Hbody Htimeout. cbv zeta.
  unfold streamKiro. rewrite Hkey. destruct key as [|c key]; [congruence|].
  remember (S maxRetries) as fuel eqn:Hfuel.
  simpl attemptLoop. rewrite Hfetch, Hok, Hbody. simpl negb. cbv iota.
  pose proof (ReadingLaws.readBody_end b
                (newAttempt (thinkingEnabled env) (push start emptyShared) []))
    as Hend.
  destruct (readBody b _) as [how a]. cbn [fst snd] in *. subst how.
  assert (Hgo : let run := attemptLoop fuel env maxRetries 1 (shared a)
                                       (warnings a) 1 [1000%Z] 0 in
             keeps (shared a) run.(run_shared)
             /\ 2 <= run.(fetches)
             /\ exists ds, run.(delays) = (1000 :: ds)%Z).
  { cbv zeta. split; [apply attemptLoop_keeps|].
    destruct (attemptLoop_counts env maxRetries fuel 1 (shared a)
                (warnings a) 1 [1000%Z] 0) as (_ & [ds Hds] & Hmore).
    split; [apply Hmore; [subst fuel; discriminate | unfold maxRetries; lia]|].
    exists ds. exact Hds. }
  destruct (body_end b); try (now destruct Htimeout); exact Hgo.
Qed.

(** ** One terminal event *)

(** X13. Every run of [streamKiro] ends the stream exactly once, also
    when a request cannot be built.  The last event is terminal: [done]
    with the stop reason of the output (stop, toolUse or length) if the
    run succeeded, else [error] with the failure, and the reason
    [aborted] if the signal is aborted, [error] if not.  No event
    before it is terminal; the first event is [start], unless the
    stream is the error event alone.  [fetch] is called at most four
    times, and not at all exactly when the credentials are missing or
    empty or building the first request throws; without credentials
    the failure is the missing credentials.  If every request is built
    the run is the one of [Stream.streamKiro]. *)
Theorem streamKiro_one_terminal (c : Request.Caller) :
  let env := c.(Request.caller_env) in
  let run := Request.streamKiro c in
  ends_with_terminal env.(signal_aborted) run
  /\ starts_first run.(run_shared).(stream_events)
  /\ run.(fetches) <= maxRetries + 1
  /\ (run.(fetches) = 0 <->
      env.(apiKey) = None \/ env.(apiKey) = Some EmptyString
      \/ c.(Request.request_throws) 0 = true)
  /\ (env.(apiKey) = None \/ env.(apiKey) = Some EmptyString ->
      run.(errorMessage) = Some NoCredentials)
  /\ ((forall n, c.(Request.request_throws) n = false) ->
      run = streamKiro env).
Proof.
  cbv zeta. set (env := Request.caller_env c).
  assert (Hno : env.(apiKey) = None \/ env.(apiKey) = Some EmptyString ->
                Request.streamKiro c
                = fail env NoCredentials emptyShared [] 0 [] 0).
  { unfold Request.streamKiro. fold env.
    intros [H|H]; now rewrite H. }
  destruct (fail_ends env NoCredentials emptyShared [] 0 [] 0 eq_refl I)
    as [Hends Hfirst].
  split; [|split; [|split; [|split; [|split]]]].
  6:{ apply streamKiro_built. }
  5:{ intros H. now rewrite (Hno H). }
  all: destruct (apiKey env) as [[|ch key]|] eqn:Hkey;
    try (rewrite Hno by auto; first [assumption | simpl; lia | simpl; tauto]).
  all: unfold Request.streamKiro; fold env; rewrite Hkey.
  all: destruct (attemptLoop_ends c maxRetries (S (S maxRetries)) 0
                   emptyShared [] 0 [] 0) as ((H1 & H1') & H2 & H3);
    [unfold maxRetries; lia | unfold maxRetries; lia | reflexivity
     | exact I |]; cbv zeta in *; fold env in H1, H2.
  - exact H1.
  - exact H1'.
  - unfold maxRetries in *. lia.
  - destruct (Request.request_throws c 0).
    + rewrite H2. simpl. split; auto.
    + split; [lia|]. intros [H|[H|H]]; discriminate.
Qed.

(** ** Budgets *)

Lemma decideRetry_fatal (status : Z) (errorText : string)
      (attempt maxRetries : nat) :
  status <> 413%Z -> status <> 429%Z -> status <> 403%Z ->
  ~ (500 <= status < 600)%Z ->
  (status = 400%Z -> ~ has_size_phrase errorText) ->
  Retry.decideRetry status errorText attempt maxRetries = no_retry.
Proof.
  intros H413 H429 H403 H5xx H400. unfold Retry.decideRetry.
  destruct (maxRetries <=? attempt)%nat; [reflexivity|].
  destruct (Z.eqb_spec status 413); [contradiction|].
  destruct (Z.eqb_spec status 429); [contradiction|].
  destruct (Z.eqb_spec status 403); [contradiction|].
  assert (Hbig : (status =? 400)%Z
                 && existsb (fun p => Js.includes errorText p)
                            Retry.TOO_BIG_PATTERNS = false).
  { destruct (Z.eqb_spec status 400) as [E|E]; [|reflexivity].
    cbn [andb].
    destruct (existsb _ _) eqn:Ex; [|reflexivity].
    apply RetryFacts.too_big_iff in Ex. now destruct (H400 E). }
  rewrite Hbig. simpl.
  destruct (Z.leb_spec 500 status), (Z.ltb_spec status 600); simpl;
    try reflexivity. lia.
Qed.

(** X14. With credentials set, a first response whose status is neither
    successful nor retried (not 413, 429, 403 or 5xx, and if it is 400
    then without a size phrase in the error text) is fatal at once: one
    call of [fetch], no wait, no reduction, nothing in the output, and
    the stream holds the error event alone, with the API error of that
    response. *)
Theorem fatal_status_is_not_retried (env : Env) (key : string)
        (r : Response) :
  env.(apiKey) = Some key -> key <> EmptyString ->
  env.(fetch) 0 = FetchResolves r ->
  ok r = false ->
  r.(status) <> 413%Z -> r.(status) <> 429%Z -> r.(status) <> 403%Z ->
  ~ (500 <= r.(status) < 600)%Z ->
  (r.(status) = 400%Z -> ~ has_size_phrase r.(text)) ->
  let run := streamKiro env in
  run.(fetches) = 1
  /\ run.(delays) = [] /\ run.(reductions) = 0
  /\ run.(errorMessage)
     = Some (ApiError r.(status) r.(statusText) r.(text))
  /\ run.(run_shared).(stream_events)
     = [error (if env.(signal_aborted) then reason_aborted else reason_error)
              (ApiError r.(status) r.(statusText) r.(text))]
  /\ run.(run_shared).(output_content) = [].
Proof.
  intros Hkey Hne Hfetch Hok H413 H429 H403 H5xx H400. cbv zeta.
  unfold streamKiro. rewrite Hkey. destruct key as [|c key]; [congruence|].
  simpl attemptLoop. rewrite Hfetch, Hok. simpl negb. cbv iota.
  rewrite decideRetry_fatal by assumption. simpl. repeat split.
Qed.

Lemma filter_start_segment (l : list AssistantMessageEvent) :
  forallb is_segment_event l = true -> filter is_start l = [].
Proof.
  induction l as [|e l IH]; simpl; [reflexivity|].
  intros H. apply andb_true_iff in H as [He Hl].
  destruct e; try discriminate; simpl; now apply IH.
Qed.

(** Reading a body pushes no [start]. *)
Lemma readBody_starts (thinking : bool) (sh : Shared)
      (w : list Diagnostic) (b : Body) :
  filter is_start
         (snd (readBody b (newAttempt thinking (push start sh) w)))
           .(shared).(stream_events)
  = (filter is_start sh.(stream_events) ++ [start])%list.
Proof.
  destruct (ReadingLaws.readBody_ok (push start sh) b _
              (ReadingLaws.newAttempt_ok thinking (push start sh) w))
    as (events & (Hev & Hseg & _) & _).
  cbn [fst] in Hev. rewrite Hev. simpl.
  rewrite !filter_app, (filter_start_segment _ Hseg). simpl.
  now rewrite app_nil_r.
Qed.

(** With [k] retries left and every body timing out, the loop calls
    [fetch] [k + 1] more times, pushes [start] as many times, and then
    throws the timeout of the last body. *)
Lemma attemptLoop_timeouts (env : Env) (m : nat) :
  always_times_out env ->
  forall k fuel retryCount sh w fetches delays reductions,
    retryCount + k = m -> k < fuel ->
    exists r b e sh',
      env.(fetch) (fetches + k) = FetchResolves r
      /\ r.(body) = Some b
      /\ timeout_of (body_end b) = Some e
      /\ attemptLoop fuel env m retryCount sh w fetches delays reductions
         = fail env e sh' w (S (fetches + k))
                (delays ++ timeout_delays retryCount k)%list reductions
      /\ List.length (filter is_start sh'.(stream_events))
         = List.length (filter is_start sh.(stream_events)) + S k.
Proof.
  intros Hall. induction k as [|k IH];
    intros fuel retryCount sh w fetches delays reductions Hm Hfuel;
    (destruct fuel as [|fuel]; [lia|]); simpl attemptLoop;
    destruct (Hall fetches) as (r & b & Hr & Hok & Hb & Ht);
    replace (retryCount <=? m)%nat with true
      by (symmetry; apply Nat.leb_le; lia);
    rewrite Hr, Hok, Hb; simpl negb; cbv iota;
    pose proof (ReadingLaws.readBody_end b
                  (newAttempt (thinkingEnabled env) (push start sh) w))
      as Hend;
    pose proof (ReadingLaws.readBody_warnings b
                  (newAttempt (thinkingEnabled env) (push start sh) w))
      as Hw;
    pose proof (readBody_starts (thinkingEnabled env) sh w b) as Hstarts;
    destruct (readBody b _) as [how a]; cbn [fst snd] in *;
    simpl in Hw; subst how.
  - rewrite Nat.add_0_r.
    replace (retryCount <? m)%nat with false
      by (symmetry; apply Nat.ltb_ge; lia).
    destruct (body_end b) eqn:Eb; try (now destruct Ht).
    + exists r, b, FirstTokenTimeout, (shared a).
      rewrite Hw, Hstarts, length_app. unfold timeout_delays. simpl.
      rewrite app_nil_r.
      repeat split; try assumption; try (now rewrite Eb); lia.
    + exists r, b, IdleTimeout, (shared a).
      rewrite Hw, Hstarts, length_app. unfold timeout_delays. simpl.
      rewrite app_nil_r.
      repeat split; try assumption; try (now rewrite Eb); lia.
  - replace (retryCount <? m)%nat with true
      by (symmetry; apply Nat.ltb_lt; lia).
    assert (Hgo : exists r' b' e sh',
               env.(fetch) (fetches + S k) = FetchResolves r'
               /\ r'.(body) = Some b'
               /\ timeout_of (body_end b') = Some e
               /\ attemptLoop fuel env m (S retryCount) (shared a)
                    (warnings a) (S fetches)
                    (delays ++ [(1000 * 2 ^ Z.of_nat retryCount)%Z])
                    reductions
                  = fail env e sh' w (S (fetches + S k))
                         (delays ++ timeout_delays retryCount (S k))%list
                         reductions
               /\ List.length (filter is_start sh'.(stream_events))
                  = List.length (filter is_start sh.(stream_events))
                    + S (S k)).
    { destruct (IH fuel (S retryCount) (shared a) (warnings a) (S fetches)
                   (delays ++ [(1000 * 2 ^ Z.of_nat retryCount)%Z])%list
                   reductions) as (r' & b' & e & sh' & H1 & H2 & H3 & H4 & H5);
        [lia | lia |].
      exists r', b', e, sh'.
      replace (fetches + S k) with (S fetches + k) by lia.
      rewrite H4, H5, Hw, Hstarts, length_app. unfold timeout_delays.
      simpl. rewrite <- app_assoc. simpl.
      repeat split; try assumption. lia. }
    destruct (body_end b); try (now destruct Ht); exact Hgo.
Qed.

(** X15. Timeouts share the retry budget.  With credentials set, if
    every response is successful and its body times out (on the first
    token or idle), [fetch] is called four times, with waits of 1000,
    2000 and 4000 ms in between (the timeout backoff has no cap) and no
    reduction; [start] is pushed once for each attempt, four times in
    all; the run fails with the timeout of the last body. *)
Theorem timeout_budget (env : Env) (key : string) :
  env.(apiKey) = Some key -> key <> EmptyString ->
  always_times_out env ->
  let run := streamKiro env in
  run.(fetches) = 4
  /\ run.(ended) = 1
  /\ run.(delays) = [1000; 2000; 4000]%Z
  /\ run.(reductions) = 0
  /\ run.(run_warnings) = []
  /\ List.length (filter is_start run.(run_shared).(stream_events)) = 4
  /\ exists r b e,
      env.(fetch) 3 = FetchResolves r /\ r.(body) = Some b
      /\ timeout_of (body_end b) = Some e
      /\ run.(errorMessage) = Some e.
Proof.
  intros Hkey Hne Hall. cbv zeta. unfold streamKiro. rewrite Hkey.
  destruct key as [|c key]; [congruence|].
  destruct (attemptLoop_timeouts env maxRetries Hall maxRetries
              (S (S maxRetries)) 0 emptyShared [] 0 [] 0)
    as (r & b & e & sh' & H1 & H2 & H3 & H4 & H5);
    [reflexivity | unfold maxRetries; lia |].
  rewrite H4. unfold fail. simpl. rewrite filter_app, length_app, H5. simpl.
  repeat split; try reflexivity.
  exists r, b, e. repeat split; assumption.
Qed.

(** The error text matters for the status 400 only. *)
Lemma decideRetry_text (status : Z) (t1 t2 : string)
      (attempt maxRetries : nat) :
  status <> 400%Z ->
  Retry.decideRetry status t1 attempt maxRetries
  = Retry.decideRetry status t2 attempt maxRetries.
Proof.
  intros H. unfold Retry.decideRetry.
  destruct (Z.eqb_spec status 400); [contradiction|]. reflexivity.
Qed.

(** Every status from 500 to 599 is decided like 500. *)
Lemma decideRetry_5xx (status : Z) (t : string) (attempt maxRetries : nat) :
  (500 <= status < 600)%Z ->
  Retry.decideRetry status t attempt maxRetries
  = Retry.decideRetry 500 t attempt maxRetries.
Proof.
  intros H. unfold Retry.decideRetry.
  destruct (maxRetries <=? attempt)%nat; [reflexivity|].
  destruct (Z.eqb_spec status 413); [lia|].
  destruct (Z.eqb_spec status 400); [lia|].
  destruct (Z.eqb_spec status 429); [lia|].
  destruct (Z.leb_spec 500 status); [|lia].
  destruct (Z.ltb_spec status 600); [|lia]. reflexivity.
Qed.

(** With [k] retries left and every response of a status that is
    retried whatever the error text, the loop calls [fetch] [k + 1]
    more times and then throws the API error of the last response. *)
Lemma attemptLoop_status (env : Env) (m : nat) (st : Z) (sh : Shared)
      (w : list Diagnostic) :
  always_status env st ->
  ~ (200 <= st <= 299)%Z -> st <> 400%Z ->
  (forall i, i < m ->
             (Retry.decideRetry st EmptyString i m).(Retry.shouldRetry) = true) ->
  forall k fuel retryCount fetches delays reductions,
    retryCount + k = m -> k < fuel ->
    exists r,
      env.(fetch) (fetches + k) = FetchResolves r
      /\ attemptLoop fuel env m retryCount sh w fetches delays reductions
         = fail env (ApiError st r.(statusText) r.(text)) sh w
                (S (fetches + k))
                (delays
                 ++ flat_map
                      (fun i => delay_of (Retry.decideRetry st EmptyString i m))
                      (seq retryCount k))%list
                (reductions
                 + list_sum
                     (map (fun i =>
                             reduction_of (Retry.decideRetry st EmptyString i m))
                          (seq retryCount k))).
Proof.
  intros Hall Hnok H400 Hretry. induction k as [|k IH];
    intros fuel retryCount fetches delays reductions Hm Hfuel;
    (destruct fuel as [|fuel]; [lia|]); simpl attemptLoop;
    destruct (Hall fetches) as [r [Hr Hs]];
    replace (retryCount <=? m)%nat with true
      by (symmetry; apply Nat.leb_le; lia);
    rewrite Hr;
    assert (Hok : ok r = false)
      by (unfold ok; rewrite Hs;
          destruct (Z.leb_spec 200 st), (Z.leb_spec st 299);
          simpl; try reflexivity; lia);
    rewrite Hok; simpl negb; cbv iota; rewrite Hs.
  - rewrite RetryFacts.decideRetry_exhausted by lia. simpl.
    exists r. rewrite Nat.add_0_r, app_nil_r, Nat.add_0_r. now split.
  - rewrite (decideRetry_text st (text r) EmptyString) by assumption.
    rewrite (Hretry retryCount) by lia.
    set (d := Retry.decideRetry st EmptyString retryCount m).
    assert (Hgo : forall delays' reductions',
               delays' = (delays ++ delay_of d)%list ->
               reductions' = reductions + reduction_of d ->
               exists r0,
                 fetch env (fetches + S k) = FetchResolves r0
                 /\ attemptLoop fuel env m (S retryCount) sh w (S fetches)
                                delays' reductions'
                    = fail env (ApiError st (statusText r0) (text r0)) sh w
                           (S (fetches + S k))
                           (delays
                            ++ flat_map
                                 (fun i =>
                                    delay_of
                                      (Retry.decideRetry st EmptyString i m))
                                 (seq retryCount (S k)))%list
                           (reductions
                            + list_sum
                                (map
                                   (fun i =>
                                      reduction_of
                                        (Retry.decideRetry st EmptyString i m))
                                   (seq retryCount (S k))))).
    { intros delays' reductions' -> ->.
      destruct (IH fuel (S retryCount) (S fetches)
                   (delays ++ delay_of d)%list (reductions + reduction_of d))
        as [r0 [Hr0 Hrun]]; [lia | lia |].
      exists r0. replace (fetches + S k) with (S fetches + k) by lia.
      split; [exact Hr0|]. rewrite Hrun. simpl. fold d.
      now rewrite <- app_assoc, Nat.add_assoc. }
    destruct (Retry.strategy d) eqn:Es; apply Hgo;
      unfold delay_of, reduction_of; rewrite Es;
      try (now rewrite app_nil_r); try lia;
      (destruct (0 <? Retry.delayMs d)%Z;
       [reflexivity | now rewrite app_nil_r]).
Qed.

(** X16. With credentials set, if every response has the status 413,
    or 403, or one and the same status from 500 to 599, [fetch] is
    called four times and the run fails with the API error of the last
    response, the only event of the stream.  For 413 the request is
    reduced three times and there is no wait; for 403 the waits are
    500, 1000 and 2000 ms, for 5xx they are 1000, 2000 and 4000 ms,
    and nothing is reduced. *)
Theorem status_retry_budget (env : Env) (key : string) (st : Z) :
  env.(apiKey) = Some key -> key <> EmptyString ->
  always_status env st ->
  (st = 413 \/ st = 403 \/ 500 <= st < 600)%Z ->
  let run := streamKiro env in
  run.(fetches) = 4
  /\ run.(ended) = 1
  /\ run.(reductions) = (if (st =? 413)%Z then 3 else 0)
  /\ run.(delays)
     = (if (st =? 413)%Z then []
        else if (st =? 403)%Z then [500; 1000; 2000]
             else [1000; 2000; 4000])%Z
  /\ exists r,
      env.(fetch) 3 = FetchResolves r
      /\ run.(errorMessage) = Some (ApiError st r.(statusText) r.(text))
      /\ run.(run_shared).(stream_events)
         = [error run.(stopReason) (ApiError st r.(statusText) r.(text))].
Proof.
  intros Hkey Hne Hall Hst. cbv zeta. unfold streamKiro. rewrite Hkey.
  destruct key as [|c key]; [congruence|].
  assert (Hretry : forall i, i < maxRetries ->
             (Retry.decideRetry st EmptyString i maxRetries)
               .(Retry.shouldRetry) = true).
  { intros i Hi. unfold maxRetries in *.
    destruct Hst as [-> | [-> | H5]];
      [| |rewrite (decideRetry_5xx st) by assumption];
      (destruct i as [|[|[|i]]]; [reflexivity..|lia]). }
  destruct (attemptLoop_status env maxRetries st emptyShared [] Hall
              ltac:(lia) ltac:(lia) Hretry maxRetries (S (S maxRetries))
              0 0 [] 0) as [r [Hr Hrun]];
    [reflexivity | unfold maxRetries; lia |].
  rewrite Hrun. unfold fail. cbn [fetches ended reductions delays errorMessage
                                  run_shared stopReason].
  split; [reflexivity|]. split; [reflexivity|].
  assert (Hvalues :
            (0 + list_sum
                   (map (fun i => reduction_of
                                    (Retry.decideRetry st EmptyString i
                                                       maxRetries))
                        (seq 0 maxRetries))
             = if (st =? 413)%Z then 3 else 0)
            /\ ([] ++ flat_map
                        (fun i => delay_of
                                    (Retry.decideRetry st EmptyString i
                                                       maxRetries))
                        (seq 0 maxRetries))%list
               = (if (st =? 413)%Z then []
                  else if (st =? 403)%Z then [500; 1000; 2000]
                       else [1000; 2000; 4000])%Z).
  { destruct Hst as [-> | [-> | H5]]; [now split | now split |].
    unfold maxRetries. simpl seq. simpl map. simpl flat_map.
    rewrite !(decideRetry_5xx st) by assumption.
    destruct (Z.eqb_spec st 413); [lia|].
    destruct (Z.eqb_spec st 403); [lia|]. now split. }
  destruct Hvalues as [-> ->].
  split; [reflexivity|]. split; [reflexivity|].
  exists r. simpl. repeat split. exact Hr.
Qed.

End WithHost.
End OrchestratorLaws.


(* ================================================================== *)
(** * More on the bracket fallback extractor *)
(* ================================================================== *)

Module BracketLaws.
Import EventParser BracketToolParser Spec Notions.

Lemma match_needs_literal (s : string) :
  strip_literal "[Called" s = None -> match_BRACKET_PATTERN s = None.
Proof. unfold match_BRACKET_PATTERN. now intros ->. Qed.

Lemma strip_literal_None (lit s : string) :
  Js.is_prefix lit s = false -> strip_literal lit s = None.
Proof.
  revert s; induction lit as [|a lit IH]; intros s; simpl; [discriminate|].
  destruct s as [|b s]; [reflexivity|].
  destruct (Ascii.eqb a b); simpl; [apply IH | reflexivity].
Qed.

Lemma exec_from_None (s : string) :
  (forall k, Js.is_prefix "[Called" (Js.drop k s) = false) ->
  forall i, exec_from s i = None.
Proof.
  induction s as [|c s IH]; intros H i.
  - cbn [exec_from]. rewrite match_needs_literal; [reflexivity|].
    apply strip_literal_None. apply (H 0).
  - cbn [exec_from]. rewrite match_needs_literal.
    + apply IH. intros k. apply (H (S k)).
    + apply strip_literal_None. apply (H 0).
Qed.

Lemma remove_all_cons (text : string) (r : removal) (rs : list removal) :
  remove_all text (r :: rs)
  = Js.substring (remove_all text rs) 0 (fst r)
    ++ Js.drop (snd r) (remove_all text rs).
Proof. unfold remove_all. simpl. now rewrite fold_left_app. Qed.

Lemma removals_in_order_le (rs : list removal) :
  forall pos limit, removals_in_order pos rs limit -> pos <= limit.
Proof.
  induction rs as [|[s e] rs IH]; intros pos limit; simpl; [auto|].
  intros (H1 & H2 & H3). apply IH in H3. lia.
Qed.

Lemma substring_0 (s : string) (n : nat) : Js.substring s 0 n = Js.take n s.
Proof.
  unfold Js.substring. rewrite Nat.max_r, Nat.min_l, Nat.sub_0_r by lia.
  now rewrite JsFacts.drop_0.
Qed.

Lemma take_take (a b : nat) (s : string) :
  a <= b -> Js.take a (Js.take b s) = Js.take a s.
Proof.
  revert b s; induction a as [|a IH]; intros [|b] [|c s] H; simpl;
    try reflexivity; try lia.
  f_equal. apply IH. lia.
Qed.

Lemma take_plus_substring (s : string) (a b : nat) :
  a <= b -> Js.take a s ++ Js.substring s a b = Js.take b s.
Proof.
  intros H. unfold Js.substring.
  rewrite Nat.max_r, Nat.min_l by lia.
  rewrite <- (JsFacts.take_drop a (Js.take b s)).
  rewrite take_take by assumption. f_equal.
  revert b s H; induction a as [|a IH]; intros b s H.
  - now rewrite !JsFacts.drop_0, Nat.sub_0_r.
  - destruct b as [|b]; [lia|]. destruct s as [|c s]; simpl.
    + now destruct (b - a).
    + apply IH. lia.
Qed.

(** Applied from the last to the first, removals that lie one after the
    other each cut what they name. *)
Lemma remove_all_in_order (rs : list removal) :
  forall text pos,
    removals_in_order pos rs (String.length text) ->
    remove_all text rs = Js.take pos text ++ kept_text text pos rs.
Proof.
  induction rs as [|[s e] rs IH]; intros text pos H.
  - simpl. now rewrite JsFacts.take_drop.
  - destruct H as (Hpos & Hse & Hrest).
    pose proof (removals_in_order_le _ _ _ Hrest) as He.
    rewrite remove_all_cons, (IH text e Hrest). cbn [fst snd kept_text].
    assert (Hlen : String.length (Js.take e text) = e)
      by (rewrite JsFacts.length_take; lia).
    assert (Hdrop : forall K, Js.drop e (Js.take e text ++ K) = K).
    { intros K. rewrite <- Hlen at 1. apply JsFacts.drop_append. }
    rewrite substring_0, StringLaws.take_app_le by lia.
    rewrite take_take by assumption. rewrite Hdrop.
    rewrite <- JsFacts.append_assoc. f_equal.
    symmetry. now apply take_plus_substring.
Qed.

Section WithHost.
Context {host : Host}.

(** X24. Applied from the last to the first, as the extractor does,
    removals that lie one after the other in the text cut exactly the
    spans they name: the cleaned text is the text between them, and it
    is not longer than the text. *)
Theorem cleanedText_of_removals_in_order (text : string)
        (removals : list removal) :
  removals_in_order 0 removals (String.length text) ->
  remove_all text removals = kept_text text 0 removals
  /\ String.length (remove_all text removals) <= String.length text.
Proof.
  intros H. rewrite (remove_all_in_order removals text 0 H).
  rewrite JsFacts.take_0. split; [reflexivity|]. simpl.
  assert (Hgen : forall rs pos,
             removals_in_order pos rs (String.length text) ->
             String.length (kept_text text pos rs)
             <= String.length text - pos).
  { induction rs as [|[s e] rs IH]; intros pos; simpl.
    - intros _. rewrite JsFacts.length_drop. lia.
    - intros (H1 & H2 & H3). rewrite JsFacts.length_append.
      unfold Js.substring.
      rewrite JsFacts.length_take, JsFacts.length_drop.
      pose proof (removals_in_order_le _ _ _ H3).
      specialize (IH e H3). lia. }
  specialize (Hgen removals 0 H). lia.
Qed.

(** X25. When the extractor finds exactly one call, the cleaned text
    is the text without the span of the accepted match, from the
    bracket that opens the anchor to the bracket that closes the
    call. *)
Theorem single_call_cleanedText (text : string) (call : BracketToolCall) :
  (parseBracketToolCalls text).(toolCalls) = [call] ->
  exists idx r,
    accepted_match text call (idx, r + 1)
    /\ idx <= r /\ r < String.length text
    /\ (parseBracketToolCalls text).(cleanedText)
       = Js.take idx text ++ Js.drop (r + 1) text.
Proof.
  unfold parseBracketToolCalls.
  pose proof (BracketFacts.scan_accepted text (S (String.length text)) 0
                ([], []) (Forall2_nil _)) as Hacc.
  destruct (scan _ text 0 ([], [])) as [calls removals].
  cbn [fst snd toolCalls cleanedText] in *. intros ->.
  inversion Hacc as [|c rm l l' Hrm Hrest]; subst.
  inversion Hrest; subst.
  pose proof Hrm as (idx & len & e & r & Hanchor & Hbrace & Hend & Hr & _ & _
                     & ->).
  exists idx, r.
  apply ScannerFacts.findJsonEnd_Some in Hend as (He1 & He2 & _).
  apply JsFacts.indexOf_Some in Hr as (Hr1 & Hr2 & Hocc & _).
  assert (Hrlt : r < String.length text).
  { unfold Js.occurs_at in Hocc.
    apply JsFacts.is_prefix_length in Hocc.
    rewrite JsFacts.length_drop in Hocc. simpl in Hocc. lia. }
  split; [exact Hrm|]. split; [lia|]. split; [exact Hrlt|].
  etransitivity;
    [apply (remove_all_in_order [(idx, r + 1)] text 0); simpl; lia|].
  cbn [kept_text]. now rewrite JsFacts.take_0, substring_0.
Qed.

(** X21. A text in which [[Called] does not occur has no bracket tool
    call: the extractor returns no call and the text as it is. *)
Theorem no_anchor_no_call (text : string) :
  Js.includes text "[Called" = false ->
  parseBracketToolCalls text = {| toolCalls := []; cleanedText := text |}.
Proof.
  intros H. unfold parseBracketToolCalls.
  assert (Hexec : exec text 0 = None).
  { unfold exec. apply exec_from_None. intros k.
    destruct (Js.is_prefix "[Called" (Js.drop k (Js.drop 0 text))) eqn:E;
      [|reflexivity].
    rewrite JsFacts.drop_0 in E.
    assert (Js.includes text "[Called" = true); [|congruence].
    apply JsFacts.includes_iff.
    apply (proj1 (JsFacts.occurs_at_iff _ _ k)) in E
      as (pre & post & -> & _). eauto. }
  cbn [scan]. rewrite Hexec. reflexivity.
Qed.

(** The identifiers of the calls are the draws of the generator, in
    order. *)
Lemma on_match_ids (text : string) (m : RegExpExecArray)
      (acc : list BracketToolCall * list removal) :
  map toolUseId (fst acc) = map randomUUID (seq 0 (List.length (fst acc))) ->
  List.length (fst acc) = List.length (snd acc) ->
  map toolUseId (fst (on_match text m acc))
  = map randomUUID (seq 0 (List.length (fst (on_match text m acc))))
  /\ List.length (fst (on_match text m acc))
     = List.length (snd (on_match text m acc)).
Proof.
  intros Hids Hlen. unfold on_match.
  destruct (Js.indexOf text "{" _) as [braceIdx|]; [|now split].
  destruct (negb _); [now split|].
  destruct (findJsonEnd text braceIdx) as [jsonEndIdx|]; [|now split].
  destruct (Js.indexOf text "]" _) as [afterJson|]; [|now split].
  destruct (negb _); [now split|].
  destruct (JSON_parse _) as [args|]; [|now split].
  cbn [fst snd]. rewrite !length_app, map_app, Hids. simpl.
  rewrite Nat.add_1_r, seq_S, map_app. simpl. split; [reflexivity | lia].
Qed.

Lemma scan_ids (text : string) :
  forall fuel lastIndex acc,
    map toolUseId (fst acc) = map randomUUID (seq 0 (List.length (fst acc))) ->
    List.length (fst acc) = List.length (snd acc) ->
    map toolUseId (fst (scan fuel text lastIndex acc))
    = map randomUUID
          (seq 0 (List.length (fst (scan fuel text lastIndex acc))))
    /\ List.length (fst (scan fuel text lastIndex acc))
       = List.length (snd (scan fuel text lastIndex acc)).
Proof.
  induction fuel as [|fuel IH]; intros lastIndex acc Hids Hlen; simpl;
    [now split|].
  destruct (exec text lastIndex) as [m|]; [|now split].
  destruct (on_match_ids text m acc Hids Hlen) as [H1 H2].
  now apply IH.
Qed.

(** X22. The identifiers of the extracted calls are the successive
    draws of the generator, in the order of the calls: the first call
    gets the first draw.  So the identifiers are distinct whenever
    those draws are. *)
Theorem bracket_call_ids (text : string) :
  let calls := (parseBracketToolCalls text).(toolCalls) in
  map toolUseId calls = map randomUUID (seq 0 (List.length calls))
  /\ ((forall i j, i < List.length calls -> j < List.length calls ->
                   randomUUID i = randomUUID j -> i = j) ->
      NoDup (map toolUseId calls)).
Proof.
  cbv zeta. unfold parseBracketToolCalls.
  destruct (scan_ids text (S (String.length text)) 0 ([], [])
                     eq_refl eq_refl) as [Hids _].
  destruct (scan _ text 0 ([], [])) as [calls removals].
  cbn [fst toolCalls] in *. split; [exact Hids|].
  intros Hinj. rewrite Hids.
  assert (Hgen : forall n k,
             (forall i j, i < k + n -> j < k + n ->
                          randomUUID i = randomUUID j -> i = j) ->
             NoDup (map randomUUID (seq k n))).
  { induction n as [|n IHn]; intros k Hk; simpl; [constructor|].
    constructor.
    - intros Hin. apply in_map_iff in Hin as (j & Hj & Hin).
      apply in_seq in Hin. apply Hk in Hj; lia.
    - apply IHn. intros i j Hi Hj. apply Hk; lia. }
  apply Hgen. exact Hinj.
Qed.

End WithHost.
End BracketLaws.


(* ================================================================== *)
(** * More on the event classifier *)
(* ================================================================== *)

Module ClassifierLaws.
Import EventParser Spec.

Lemma truthy_opt_if_truthy (v : option json) :
  truthy_opt v = true <-> if_truthy v <> None.
Proof.
  destruct v as [x|]; simpl; [|split; [discriminate | congruence]].
  destruct (truthy x); split; congruence.
Qed.

Section WithHost.
Context {host : Host}.

(** X7. The classifier throws in one case only: none of the rules for
    content, tool use, tool input, tool stop, context usage and
    follow-up applies, and [usage] is [null]. *)
Theorem parseKiroEvent_throws (o : object) :
  parseKiroEvent o = Throws
  <-> (prop o "usage" = Some JNull
       /\ ~ rule1 o /\ ~ rule2 o /\ ~ rule3 o /\ ~ rule4 o /\ ~ rule5 o
       /\ ~ rule6 o).
Proof.
  unfold parseKiroEvent, rule1, rule2, rule3, rule4, rule5, rule6.
  rewrite !truthy_opt_if_truthy, <- ClassifierFacts.if_truthy_None.
  destruct (prop o "content");
    [split; [discriminate | intros (_ & H & _); exfalso; apply H; congruence]|].
  destruct (if_truthy (prop o "name")), (if_truthy (prop o "toolUseId")),
    (prop o "input"), (prop o "stop"), (prop o "contextUsagePercentage"),
    (prop o "followupPrompt");
    try (split; [discriminate|];
         intros (_ & H1 & H2 & H3 & H4 & H5 & H6); exfalso;
         first [ apply H2; split; congruence
               | apply H3; split; congruence
               | apply H4; split; congruence
               | apply H5; congruence
               | apply H6; congruence ]).
  all: destruct (prop o "usage") as [[]|]; simpl;
    (split; [try discriminate; intros _; repeat split; try congruence;
             intros H; try (destruct H as [H1 H2]); congruence
            | try reflexivity; intros (H & _); congruence]).
Qed.

End WithHost.
End ClassifierLaws.


(* ================================================================== *)
(** * Truncation detection *)
(* ================================================================== *)

Module TruncationLaws.
Import Truncation.

Lemma loop_skips (later : list Message) (rest : list Message) :
  forallb (fun m => negb (is_assistant m)) later = true ->
  wasPreviousResponseTruncated_loop (rev later ++ rest)
  = wasPreviousResponseTruncated_loop rest.
Proof.
  induction later as [|m l IH] using rev_ind; [reflexivity|].
  rewrite forallb_app, rev_app_distr. simpl. rewrite andb_true_r.
  intros H. apply andb_true_iff in H as [Hl Hm].
  apply negb_true_iff in Hm. rewrite Hm. now apply IH.
Qed.

(** X23. [wasPreviousResponseTruncated] looks at the last assistant
    message only: it answers whether that message stopped for length,
    whatever comes before it and whatever messages of other roles come
    after it; messages without an assistant message give [false].  The
    current content of the request gets the truncation notice and a
    blank line in front exactly in the first case. *)
Theorem wasPreviousResponseTruncated_last
        (earlier later : list Message) (m : Message) (content : string) :
  is_assistant m = true ->
  forallb (fun x => negb (is_assistant x)) later = true ->
  wasPreviousResponseTruncated (earlier ++ m :: later)
  = is_length m.(stopReason)
  /\ wasPreviousResponseTruncated later = false
  /\ withTruncationNotice (earlier ++ m :: later) content
     = if is_length m.(stopReason)
       then TRUNCATION_NOTICE
              ++ String Js.newline (String Js.newline EmptyString) ++ content
       else content.
Proof.
  intros Hm Hlater.
  assert (H1 : wasPreviousResponseTruncated (earlier ++ m :: later)
               = is_length (stopReason m)).
  { unfold wasPreviousResponseTruncated.
    rewrite rev_app_distr. simpl. rewrite <- !app_assoc.
    rewrite loop_skips by assumption. simpl. now rewrite Hm. }
  split; [exact H1|]. split.
  - unfold wasPreviousResponseTruncated.
    rewrite <- (app_nil_r (rev later)). now rewrite loop_skips.
  - unfold withTruncationNotice. now rewrite H1.
Qed.

Lemma wasPreviousResponseTruncated_last_witness :
  let user := {| role := role_user; stopReason := None |} in
  let cut := {| role := role_assistant;
                stopReason := Some Output.reason_length |} in
  let whole := {| role := role_assistant;
                  stopReason := Some Output.reason_stop |} in
  wasPreviousResponseTruncated [user; whole; user; cut; user] = true.
Proof.
  intros user cut whole.
  destruct (wasPreviousResponseTruncated_last
              [user; whole; user] [user] cut EmptyString eq_refl eq_refl)
    as (H & _).
  exact H.
Defined.

End TruncationLaws.


(* ================================================================== *)
(** * Instances *)
(* ================================================================== *)

Module Witnesses.
Import Output EventParser Stream Spec Notions.

Lemma findNextEventStart_least_witness :
  next_anchor ("xx" ++ key_pattern "content" ++ "1}") 0 2.
Proof.
  exact (proj1 (proj1 (ScannerLaws.findNextEventStart_least
                         ("xx" ++ key_pattern "content" ++ "1}") 0
                         ltac:(vm_compute; lia)) 2) eq_refl).
Defined.

Lemma parseKiroEvents_resume_witness :
  let buffer := key_pattern "content" ++ Js.quoted "Hello" ++ "}"
                ++ key_pattern "content" ++ Js.quote ++ "Wor" in
  let more := "ld" ++ Js.quote ++ "}" in
  @parseKiroEvents Readers.content_reader (buffer ++ more)
  = ([content (JStr "Hello"); content (JStr "World")], EmptyString).
Proof.
  intros buffer more.
  pose proof (@ResumeLaws.parseKiroEvents_resume Readers.content_reader
                buffer more ltac:(vm_compute; discriminate)) as H.
  cbv zeta in H. rewrite H. reflexivity.
Defined.

Lemma onChunk_split_witness :
  let a := newAttempt false emptyShared [] in
  let c1 := key_pattern "content" ++ Js.quote ++ "Hel" in
  let c2 := "lo" ++ Js.quote ++ "}" in
  text_deltas
    (@onChunk Readers.content_reader c2
              (@onChunk Readers.content_reader c1 a))
      .(shared).(stream_events)
  = [JStr "Hello"].
Proof.
  intros a c1 c2.
  destruct (@ChunkLaws.onChunk_split Readers.content_reader c1 c2 a
              ltac:(vm_compute; discriminate)) as [H _].
  rewrite H. reflexivity.
Defined.

Lemma no_anchor_nothing_witness :
  let buffer := "{" ++ Js.quote ++ "cont" in
  @parseKiroEvents Readers.content_reader buffer = ([], EmptyString).
Proof.
  intros buffer.
  exact (proj1 (@ResumeLaws.no_anchor_nothing Readers.content_reader
                  buffer EmptyString
                  (ScannerFacts.findNextEventStart_None buffer 0 eq_refl))).
Defined.

Lemma tool_call_assembly_witness :
  let events := [toolUse (JStr "bash") (JStr "tc1") "{" None;
                 content (JStr "hi");
                 toolUseInput "}";
                 toolUseStop (JBool true)] in
  (handleEvents (newAttempt false emptyShared []) events).(toolCalls)
  = [ {| toolUseId := JStr "tc1"; name := JStr "bash"; input := "{}" |} ].
Proof.
  intros events.
  destruct (AssemblerLaws.tool_call_assembly
              (newAttempt false emptyShared []) events
              (JStr "bash") (JStr "tc1") (JBool true) "{" [(None, "}")] None
              eq_refl eq_refl eq_refl eq_refl) as [H _].
  exact H.
Defined.

Lemma fatal_status_is_not_retried_witness :
  let r := {| status := 404; statusText := "Not Found"; text := "nope";
              body := None |} in
  let env := {| apiKey := Some "tok"; thinkingEnabled := false;
                fetch := fun _ => FetchResolves r;
                signal_aborted := false |} in
  (@streamKiro Hosts.sample env).(fetches) = 1.
Proof.
  intros r env.
  destruct (@OrchestratorLaws.fatal_status_is_not_retried Hosts.sample
              env "tok" r eq_refl ltac:(discriminate) eq_refl eq_refl
              ltac:(discriminate) ltac:(discriminate) ltac:(discriminate)
              ltac:(simpl; lia) ltac:(discriminate)) as [H _].
  exact H.
Defined.

Lemma timeout_budget_witness :
  let r := {| status := 200; statusText := "OK"; text := EmptyString;
              body := Some BodyFirstTokenTimeout |} in
  let env := {| apiKey := Some "tok"; thinkingEnabled := true;
                fetch := fun _ => FetchResolves r;
                signal_aborted := false |} in
  (@streamKiro Hosts.sample env).(fetches) = 4
  /\ (@streamKiro Hosts.sample env).(delays) = [1000; 2000; 4000]%Z.
Proof.
  intros r env.
  assert (Hall : always_times_out env).
  { intros n. exists r, BodyFirstTokenTimeout.
    repeat split; discriminate. }
  destruct (@OrchestratorLaws.timeout_budget Hosts.sample env "tok"
              eq_refl ltac:(discriminate) Hall) as (H1 & _ & H2 & _).
  split; [exact H1 | exact H2].
Defined.

Lemma status_retry_budget_witness :
  let env := {| apiKey := Some "tok"; thinkingEnabled := false;
                fetch := fun _ =>
                  FetchResolves {| status := 413;
                                   statusText := "Payload Too Large";
                                   text := EmptyString;
                                   body := None |};
                signal_aborted := false |} in
  (@streamKiro Hosts.sample env).(fetches) = 4
  /\ (@streamKiro Hosts.sample env).(reductions) = 3.
Proof.
  intros env.
  assert (Hall : always_status env 413)
    by (intros n; eexists; split; reflexivity).
  destruct (@OrchestratorLaws.status_retry_budget Hosts.sample env "tok" 413
              eq_refl ltac:(discriminate) Hall ltac:(lia))
    as (H1 & _ & H2 & _).
  split; [exact H1 | exact H2].
Defined.

Lemma no_anchor_no_call_witness :
  (@BracketToolParser.parseBracketToolCalls Hosts.sample
     "Just text, [called] nothing")
    .(BracketToolParser.cleanedText)
  = "Just text, [called] nothing".
Proof.
  exact (f_equal BracketToolParser.cleanedText
           (@BracketLaws.no_anchor_no_call Hosts.sample
              "Just text, [called] nothing" eq_refl)).
Defined.

Lemma cleanedText_of_removals_in_order_witness :
  BracketToolParser.remove_all "abcdef" [(1, 2); (4, 5)] = "acdf".
Proof.
  exact (proj1 (BracketLaws.cleanedText_of_removals_in_order
                  "abcdef" [(1, 2); (4, 5)] ltac:(simpl; lia))).
Defined.

Lemma single_call_cleanedText_witness :
  let text := "Run [Called f with args: {}] now" in
  exists idx r,
    idx <= r
    /\ (@BracketToolParser.parseBracketToolCalls Hosts.sample text)
         .(BracketToolParser.cleanedText)
       = Js.take idx text ++ Js.drop (r + 1) text.
Proof.
  intros text.
  destruct (@BracketLaws.single_call_cleanedText Hosts.sample text
              {| BracketToolParser.toolUseId := "0";
                 BracketToolParser.name := "f";
                 BracketToolParser.arguments := JObj [] |} eq_refl)
    as (idx & r & _ & H1 & _ & H2).
  exists idx, r. split; [exact H1 | exact H2].
Defined.

Lemma timed_out_output_is_kept_witness :
  let chunk := key_pattern "content" ++ Js.quote ++ "Hello" ++ Js.quote
               ++ "}" in
  let b := BodyChunk chunk TailIdleTimeout in
  let r := {| status := 200; statusText := "OK"; text := EmptyString;
              body := Some b |} in
  let env := {| apiKey := Some "tok"; thinkingEnabled := false;
                fetch := fun _ => FetchResolves r;
                signal_aborted := false |} in
  keeps (snd (@readBody Readers.content_reader b
                (newAttempt false (push start emptyShared) []))).(shared)
        (@streamKiro Readers.content_reader env).(run_shared)
  /\ 2 <= (@streamKiro Readers.content_reader env).(fetches).
Proof.
  intros chunk b r env.
  destruct (@OrchestratorLaws.timed_out_output_is_kept
              Readers.content_reader env "tok" r b eq_refl
              ltac:(discriminate) eq_refl eq_refl eq_refl
              ltac:(vm_compute; discriminate)) as (H1 & H2 & _).
  split; [exact H1 | exact H2].
Defined.

End Witnesses.


(* ================================================================== *)
(** * The tests of the repository, on the model *)
(* ================================================================== *)

Module Examples.
Import Output EventParser Spec.

(** ** [findJsonEnd] *)

Example findJsonEnd_simple :
  findJsonEnd ("{" ++ Js.quoted "content" ++ ":" ++ Js.quoted "hello" ++ "}rest") 0
  = Some 18.
Proof. reflexivity. Qed.

Example findJsonEnd_nested :
  findJsonEnd ("{" ++ Js.quoted "input" ++ ":{" ++ Js.quoted "cmd" ++ ":"
               ++ Js.quoted "ls" ++ "}}rest") 0
  = Some 21.
Proof. reflexivity. Qed.

Example findJsonEnd_escaped_quotes :
  findJsonEnd ("{" ++ Js.quoted "content" ++ ":"
               ++ Js.quoted ("say \" ++ Js.quoted "hi\") ++ "}rest") 0
  = Some 23.
Proof. reflexivity. Qed.

Example findJsonEnd_incomplete :
  findJsonEnd ("{" ++ Js.quoted "content" ++ ":" ++ Js.quote ++ "hel") 0 = None.
Proof. reflexivity. Qed.

Example findJsonEnd_offset :
  findJsonEnd ("garbage{" ++ Js.quoted "content" ++ ":" ++ Js.quoted "hi" ++ "}") 7
  = Some 22.
Proof. reflexivity. Qed.

(** ** [parseKiroEvents] *)

Example remaining_for_incomplete (host : Host) :
  snd (parseKiroEvents
         ("{" ++ Js.quoted "content" ++ ":" ++ Js.quoted "done" ++ "}"
          ++ "{" ++ Js.quoted "content" ++ ":" ++ Js.quote ++ "incomp"))
  = "{" ++ Js.quoted "content" ++ ":" ++ Js.quote ++ "incomp".
Proof. reflexivity. Qed.

Example garbage_around_an_event (host : Host) :
  snd (parseKiroEvents
         ("garbage{" ++ Js.quoted "content" ++ ":" ++ Js.quoted "hi" ++ "}more"))
  = EmptyString.
Proof. reflexivity. Qed.

Example known_key_not_first (host : Host) :
  parseKiroEvents
    ("{" ++ Js.quoted "timestamp" ++ ":123," ++ Js.quoted "content" ++ ":"
     ++ Js.quoted "hello" ++ "}")
  = ([], EmptyString).
Proof. reflexivity. Qed.

(** ** [parseKiroEvent] *)

Example classify_content (host : Host) :
  parseKiroEvent [("content", JStr "Hello ")]
  = Returns (Some (content (JStr "Hello "))).
Proof. reflexivity. Qed.

Example classify_toolUse_placeholder (host : Host) :
  parseKiroEvent [("name", JStr "write"); ("toolUseId", JStr "tc1");
                  ("input", JObj [])]
  = Returns (Some (toolUse (JStr "write") (JStr "tc1") EmptyString None)).
Proof. reflexivity. Qed.

Example classify_stop_with_toolUseId (host : Host) :
  parseKiroEvent [("toolUseId", JStr "tc1"); ("stop", JBool true)]
  = Returns (Some (toolUseStop (JBool true))).
Proof. reflexivity. Qed.

Example classify_unknown (host : Host) :
  parseKiroEvent [("unknown", JBool true)] = Returns None.
Proof. reflexivity. Qed.

(** ** [decideRetry] *)

Example retry_413 :
  Retry.decideRetry 413 "too big" 0 3 = retry_with Retry.reduce 0.
Proof. reflexivity. Qed.

Example retry_413_exhausted :
  Retry.decideRetry 413 "too big" 3 3 = no_retry.
Proof. reflexivity. Qed.

Example retry_400_size :
  Retry.decideRetry 400 "Input is too long for model" 0 3
  = retry_with Retry.reduce 0.
Proof. reflexivity. Qed.

Example retry_400_other :
  Retry.decideRetry 400 "Invalid parameter: modelId" 0 3 = no_retry.
Proof. reflexivity. Qed.

Example retry_429 :
  Retry.decideRetry 429 EmptyString 2 3 = retry_with Retry.backoff 4000.
Proof. reflexivity. Qed.

Example retry_503 :
  Retry.decideRetry 503 "Service Unavailable" 1 3
  = retry_with Retry.backoff 2000.
Proof. reflexivity. Qed.

Example retry_capped :
  Retry.decideRetry 500 EmptyString 10 20 = retry_with Retry.backoff 30000.
Proof. reflexivity. Qed.

Example retry_403 :
  Retry.decideRetry 403 EmptyString 2 3 = retry_with Retry.backoff 2000.
Proof. reflexivity. Qed.

(** ** The thinking segmenter *)

Example thinking_then_text :
  let st := ThinkingParser.finalize
              (ThinkingParser.processChunk
                 ("<thinking>Let me think</thinking>"
                  ++ String Js.newline (String Js.newline "Answer"))
                 (emptyShared, ThinkingParser.new)) in
  (fst st).(stream_events)
  = [thinking_start 0; thinking_delta 0 "Let me think";
     thinking_end 0 "Let me think"; text_start 1;
     text_delta 1 (JStr "Answer")].
Proof. reflexivity. Qed.

Example open_tag_split_across_chunks :
  let st := ThinkingParser.finalize
              (ThinkingParser.processChunk "king>deep thought</thinking>"
                 (ThinkingParser.processChunk "<thin"
                    (emptyShared, ThinkingParser.new))) in
  thinking_deltas (fst st).(stream_events) = ["deep thought"].
Proof. reflexivity. Qed.

Example plain_text_only :
  let st := ThinkingParser.finalize
              (ThinkingParser.processChunk "Just plain text"
                 (emptyShared, ThinkingParser.new)) in
  (fst st).(output_content) = [TextContent "Just plain text"]
  /\ thinking_deltas (fst st).(stream_events) = [].
Proof. split; reflexivity. Qed.

Example second_open_tag_is_text :
  let st := ThinkingParser.finalize
              (ThinkingParser.processChunk "<think>a</think>b<think>c"
                 (emptyShared, ThinkingParser.new)) in
  (fst st).(output_content)
  = [ThinkingContent "a"; TextContent "b<think>c"].
Proof. reflexivity. Qed.

(** ** The bracket fallback extractor *)

Example bracket_two_calls :
  let r := @BracketToolParser.parseBracketToolCalls Hosts.sample
             "[Called a with args: {}] [Called b with args: {}]" in
  map BracketToolParser.name r.(BracketToolParser.toolCalls) = ["a"; "b"]
  /\ map BracketToolParser.toolUseId r.(BracketToolParser.toolCalls)
     = ["0"; "1"]
  /\ r.(BracketToolParser.cleanedText) = " ".
Proof. repeat split. Qed.

Example bracket_malformed :
  let text := "[Called bash with args: {not valid json}] rest" in
  @BracketToolParser.parseBracketToolCalls Hosts.sample text
  = {| BracketToolParser.toolCalls := [];
       BracketToolParser.cleanedText := text |}.
Proof. reflexivity. Qed.

Example bracket_gap_rejected (host : Host) :
  let text := "[Called a with args: x{}] rest" in
  BracketToolParser.parseBracketToolCalls text
  = {| BracketToolParser.toolCalls := [];
       BracketToolParser.cleanedText := text |}.
Proof. reflexivity. Qed.

(** ** The orchestrator *)

Example no_credentials (host : Host) :
  let run := Stream.streamKiro
               {| Stream.apiKey := None; Stream.thinkingEnabled := true;
                  Stream.fetch := fun _ => Stream.FetchRejects;
                  Stream.signal_aborted := false |} in
  run.(Stream.fetches) = 0
  /\ run.(Stream.run_shared).(stream_events)
     = [error reason_error NoCredentials].
Proof. split; reflexivity. Qed.

Example request_cannot_be_built (host : Host) :
  let run := Request.streamKiro
               {| Request.caller_env :=
                    {| Stream.apiKey := Some "tok";
                       Stream.thinkingEnabled := true;
                       Stream.fetch := fun _ => Stream.FetchRejects;
                       Stream.signal_aborted := false |};
                  Request.request_throws := fun _ => true |} in
  run.(Stream.fetches) = 0
  /\ run.(Stream.run_shared).(stream_events)
     = [error reason_error RequestFailed].
Proof. split; reflexivity. Qed.

Example request_cannot_be_built_after_a_timeout (host : Host) :
  let response := {| Stream.status := 200; Stream.statusText := "OK";
                     Stream.text := EmptyString;
                     Stream.body := Some Stream.BodyFirstTokenTimeout |} in
  let run := Request.streamKiro
               {| Request.caller_env :=
                    {| Stream.apiKey := Some "tok";
                       Stream.thinkingEnabled := false;
                       Stream.fetch := fun _ => Stream.FetchResolves response;
                       Stream.signal_aborted := false |};
                  Request.request_throws := fun n => Nat.eqb n 1 |} in
  run.(Stream.fetches) = 1
  /\ run.(Stream.delays) = [1000]%Z
  /\ run.(Stream.run_shared).(stream_events)
     = [start; error reason_error RequestFailed].
Proof. repeat split. Qed.

Example aborted_before_the_response (host : Host) :
  let run := Stream.streamKiro
               {| Stream.apiKey := Some "tok"; Stream.thinkingEnabled := true;
                  Stream.fetch := fun _ => Stream.FetchRejects;
                  Stream.signal_aborted := true |} in
  run.(Stream.stopReason) = reason_aborted /\ run.(Stream.fetches) = 1.
Proof. split; reflexivity. Qed.

Example first_token_timeouts (host : Host) :
  let response := {| Stream.status := 200; Stream.statusText := "OK";
                     Stream.text := EmptyString;
                     Stream.body := Some Stream.BodyFirstTokenTimeout |} in
  let run := Stream.streamKiro
               {| Stream.apiKey := Some "tok"; Stream.thinkingEnabled := false;
                  Stream.fetch := fun _ => Stream.FetchResolves response;
                  Stream.signal_aborted := false |} in
  run.(Stream.fetches) = 4
  /\ run.(Stream.delays) = [1000; 2000; 4000]%Z
  /\ run.(Stream.errorMessage) = Some FirstTokenTimeout.
Proof. repeat split. Qed.

Example empty_response_is_length (host : Host) :
  let response := {| Stream.status := 200; Stream.statusText := "OK";
                     Stream.text := EmptyString;
                     Stream.body := Some Stream.BodyDone |} in
  let run := Stream.streamKiro
               {| Stream.apiKey := Some "tok"; Stream.thinkingEnabled := false;
                  Stream.fetch := fun _ => Stream.FetchResolves response;
                  Stream.signal_aborted := false |} in
  run.(Stream.stopReason) = reason_length
  /\ run.(Stream.run_shared).(stream_events) = [start; done reason_length].
Proof. split; reflexivity. Qed.

End Examples.
